(** * agents-lint: a shallow embedding of the reference-extraction and
    validation pipeline, and the properties its specification states.

    The first part follows the layout of the TypeScript sources:
    - [JSNumber], [JSString], [JSRegExp]: the fragment of the JavaScript
      runtime the sources rely on (IEEE-754 doubles and [Math.round],
      strings as UTF-16 code units, regular expressions with [lastIndex],
      [Set] insertion order);
    - [Types]     src/types.ts;
    - [Reporter]  src/reporter.ts ([computeScore], [scoreGrade]);
    - [Parser]    src/parser.ts ([parseSections], the four extractors);
    - [Checkers]  src/checkers/*.ts (the five per-document validators);
    - [Fix]       src/fix.ts ([runFixMode]);
    - [Linter]    src/linter.ts ([lint], [lintAll]);
    - [Cross]     src/checkers/cross.ts ([checkCrossConsistency]);
    - [ReportText] src/reporter.ts ([scoreColor], [scoreBar]).

    The second part proves what holds of these definitions:
    [Binary64Facts] and [NumberFacts] (rounding), [ReporterFacts],
    [ParserFacts], [CheckerFacts], [FixFacts] and [LinterFacts]; then
    [ParserProps], [CheckerProps], [FixProps], [CrossProps], [LinterProps]
    and [ReporterProps], which cover more of the same code.

    JavaScript numbers are IEEE-754 binary64 values.  They are modelled by
    the Standard Library's executable specification of that format
    ([SpecFloat], instantiated at [prec = 53], [emax = 1024]); counters that
    the sources only ever increment by one are kept as natural numbers, which
    doubles represent exactly below [2^53]. *)

From Stdlib Require Import ZArith NArith List Bool Lia Ascii String QArith Qround Qpower Lqa.
From Stdlib Require Import Floats Sorted.
Import ListNotations.
Close Scope Q_scope.

(* ================================================================== *)
(** * The JavaScript runtime fragment: numbers *)
(* ================================================================== *)

Module JSNumber.
Local Open Scope Z_scope.

(** A JavaScript number. *)
Definition number := spec_float.

(** The double nearest to an integer (the conversion an integer literal or an
    integer-valued counter undergoes). *)
Definition ofZ (z : Z) : number := binary_normalize prec emax z 0 false.

Definition div (x y : number) : number := SF64div x y.
Definition mul (x y : number) : number := SF64mul x y.
Definition sub (x y : number) : number := SF64sub x y.
Definition add (x y : number) : number := SF64add x y.

(** The exact rational value of a finite double. *)
Definition toQ (x : number) : Q :=
  match x with
  | S754_finite s m e => (inject_Z (cond_Zopp s (Zpos m)) * (2 ^ e))%Q
  | _ => 0%Q
  end.

(** [floor(M / 2^k + 1/2)] on integers: rounding a dyadic rational half-up. *)
Definition rhu (M k : Z) : Z := (2 * M + 2 ^ k) / 2 ^ (k + 1).

(** Integral numbers: the values [Math.round] returns.  [IInt z] stands for
    the double holding the integer [z] (the sign of a zero is dropped). *)
Inductive integral :=
| INaN
| IInf (negative : bool)
| IInt (z : Z).

(** An integral number as the double it is. *)
Definition ofIntegral (i : integral) : number :=
  match i with
  | INaN => S754_nan
  | IInf s => S754_infinity s
  | IInt z => ofZ z
  end.

(** [Math.round(x)]: the integer nearest to [x], ties towards +infinity. *)
Definition Math_round (x : number) : integral :=
  match x with
  | S754_nan => INaN
  | S754_infinity s => IInf s
  | S754_zero _ => IInt 0
  | S754_finite _ _ _ => IInt (Qfloor (toQ x + (1 # 2)))
  end.

(** [Math.min(a, x)] and [Math.max(a, x)] for an integer constant [a]. *)
Definition Math_min (a : Z) (x : integral) : integral :=
  match x with
  | INaN => INaN
  | IInf true => IInf true
  | IInf false => IInt a
  | IInt z => IInt (Z.min a z)
  end.

Definition Math_max (a : Z) (x : integral) : integral :=
  match x with
  | INaN => INaN
  | IInf true => IInt a
  | IInf false => IInf false
  | IInt z => IInt (Z.max a z)
  end.

(** [x >= k] on an integral number and an integer constant. *)
Definition geb (x : integral) (k : Z) : bool :=
  match x with
  | INaN => false
  | IInf negative => negb negative
  | IInt z => k <=? z
  end.

End JSNumber.

(* ================================================================== *)
(** * The JavaScript runtime fragment: strings *)
(* ================================================================== *)

Module JSString.
Local Open Scope N_scope.

(** A JavaScript string is a finite sequence of UTF-16 code units. *)
Definition codeUnit := N.
Definition jsstring := list codeUnit.

(** ASCII text as a JavaScript string. *)
Definition js (s : string) : jsstring := List.map N_of_ascii (list_ascii_of_string s).

Definition NL : codeUnit := 10%N.        (* line feed *)
Definition DQUOTE : codeUnit := 34%N.    (* the double quote *)

Definition cu_eqb (a b : codeUnit) : bool := N.eqb a b.

Fixpoint str_eqb (a b : jsstring) : bool :=
  match a, b with
  | [], [] => true
  | x :: a', y :: b' => cu_eqb x y && str_eqb a' b'
  | _, _ => false
  end.

Definition mem (c : codeUnit) (l : list codeUnit) : bool := existsb (cu_eqb c) l.

Definition between (lo hi c : codeUnit) : bool := (N.leb lo c && N.leb c hi)%bool.

(** [\s]: WhiteSpace and LineTerminator code points. *)
Definition isSpace (c : codeUnit) : bool :=
  (between 9 13 c || mem c [32; 160; 5760; 8232; 8233; 8239; 8287; 12288; 65279]
   || between 8192 8202 c)%N%bool.

(** The characters [.] does not match. *)
Definition isLineTerminator (c : codeUnit) : bool := mem c [10; 13; 8232; 8233]%N.

(** [\d] and [\w] (no [u] flag). *)
Definition isDigit (c : codeUnit) : bool := between 48 57 c.
Definition isUpper (c : codeUnit) : bool := between 65 90 c.
Definition isLower (c : codeUnit) : bool := between 97 122 c.
Definition isWord (c : codeUnit) : bool :=
  (isUpper c || isLower c || isDigit c || cu_eqb c 95)%bool.

(** Case mappings restricted to the ASCII letters; every other code unit is
    left alone.  The sources apply them only to text matched by ASCII-only
    patterns, or (in the checkers) through the runtime function they are
    handed. *)
Definition upperCU (c : codeUnit) : codeUnit := if isLower c then (c - 32)%N else c.
Definition lowerCU (c : codeUnit) : codeUnit := if isUpper c then (c + 32)%N else c.
Definition toUpperCaseASCII (s : jsstring) : jsstring := List.map upperCU s.
Definition toLowerCaseASCII (s : jsstring) : jsstring := List.map lowerCU s.

Fixpoint startsWith (p s : jsstring) : bool :=
  match p, s with
  | [], _ => true
  | x :: p', y :: s' => cu_eqb x y && startsWith p' s'
  | _ :: _, [] => false
  end.

(** [s.includes(p)] *)
Fixpoint includes (p s : jsstring) : bool :=
  startsWith p s || match s with [] => false | _ :: s' => includes p s' end.

(** [s.indexOf(c, from)] for a single character [c]; [-1] when absent. *)
Fixpoint indexOfFrom (c : codeUnit) (s : jsstring) (from : nat) (i : nat) : Z :=
  match s with
  | [] => (-1)%Z
  | x :: s' => if (from <=? i)%nat && cu_eqb x c then Z.of_nat i
               else indexOfFrom c s' from (S i)
  end.
Definition indexOf (c : codeUnit) (s : jsstring) (from : nat) : Z := indexOfFrom c s from 0%nat.

(** [s.lastIndexOf(c, from)]: the last occurrence at an index [<= from]. *)
Fixpoint lastIndexOfFrom (c : codeUnit) (s : jsstring) (from : nat) (i : nat) (found : Z) : Z :=
  match s with
  | [] => found
  | x :: s' => if (i <=? from)%nat
               then lastIndexOfFrom c s' from (S i) (if cu_eqb x c then Z.of_nat i else found)
               else found
  end.
Definition lastIndexOf (c : codeUnit) (s : jsstring) (from : nat) : Z :=
  lastIndexOfFrom c s from 0%nat (-1)%Z.

(** [s.substring(a, b)]: arguments clamped to [[0, length]] and swapped when
    out of order. *)
Definition substring (s : jsstring) (a b : Z) : jsstring :=
  let n := Z.of_nat (List.length s) in
  let a' := Z.max 0%Z (Z.min a n) in
  let b' := Z.max 0%Z (Z.min b n) in
  let lo := Z.to_nat (Z.min a' b') in
  let hi := Z.to_nat (Z.max a' b') in
  firstn (hi - lo)%nat (skipn lo s).

(** [s.split(c)] for a single-character separator: never empty. *)
Fixpoint split (c : codeUnit) (s : jsstring) : list jsstring :=
  match s with
  | [] => [[]]
  | x :: s' =>
      if cu_eqb x c then [] :: split c s'
      else match split c s' with
           | [] => [[x]]
           | l :: ls => (x :: l) :: ls
           end
  end.

(** [a.join(sep)] *)
Fixpoint join (sep : jsstring) (a : list jsstring) : jsstring :=
  match a with
  | [] => []
  | [x] => x
  | x :: a' => x ++ sep ++ join sep a'
  end.

Fixpoint dropWhile (p : codeUnit -> bool) (s : jsstring) : jsstring :=
  match s with
  | [] => []
  | x :: s' => if p x then dropWhile p s' else s
  end.

(** [s.trim()] *)
Definition trim (s : jsstring) : jsstring :=
  rev (dropWhile isSpace (rev (dropWhile isSpace s))).

(** A [Set<string>] keeps its elements in insertion order: [add] is a no-op
    on an element already present. *)
Definition set_has (x : jsstring) (s : list jsstring) : bool := existsb (str_eqb x) s.
Definition set_add (s : list jsstring) (x : jsstring) : list jsstring :=
  if set_has x s then s else s ++ [x].

End JSString.

(* ================================================================== *)
(** * The JavaScript runtime fragment: regular expressions *)
(* ================================================================== *)

Module JSRegExp.
Import JSString.

(** The pattern language the sources use.  Quantifiers only ever apply to a
    single character class ([\s+], [[^`]+], [#{1,3}], [.+]) and are greedy. *)
Inductive regex :=
| Chr (c : codeUnit)                       (* a literal character *)
| Cls (p : codeUnit -> bool)               (* a character class *)
| Cat (r1 r2 : regex)                      (* r1 r2 *)
| Alt (r1 r2 : regex)                      (* r1|r2 *)
| Grp (n : nat) (r : regex)                (* the n-th capturing group *)
| Rep (p : codeUnit -> bool) (lo : nat) (hi : option nat)  (* p{lo,hi}, greedy *)
| Bol                                      (* ^ (no m flag) *)
| Eol                                      (* $ (no m flag) *)
| Wordb                                    (* \b *)
| Eps.                                     (* the empty pattern *)

(** A regular-expression literal: pattern and flags. *)
Record RegExp := { source : regex; ignoreCase : bool; global : bool }.

(** A position of the matcher in the subject: the character before it, the
    text after it, its index, and the captures made so far. *)
Record mstate := {
  prev : option codeUnit;
  rest : jsstring;
  pos : nat;
  caps : list (nat * jsstring)
}.

Definition advance (st : mstate) (x : codeUnit) (xs : jsstring) : mstate :=
  {| prev := Some x; rest := xs; pos := S (pos st); caps := caps st |}.

Definition setCap (n : nat) (text : jsstring) (st : mstate) : mstate :=
  {| prev := prev st; rest := rest st; pos := pos st; caps := (n, text) :: caps st |}.

(** Canonicalize of the specification, for patterns without the [u] flag:
    with [ignoreCase] an ASCII letter is compared in upper case, and a
    character outside ASCII never becomes an ASCII one. *)
Definition canon (ic : bool) (c : codeUnit) : codeUnit := if ic then upperCU c else c.

Definition isWordAt (o : option codeUnit) : bool :=
  match o with Some c => isWord c | None => false end.

(** The longest run of [p]-characters at the head of [s], at most [hi] long. *)
Fixpoint runLength (p : codeUnit -> bool) (hi : option nat) (s : jsstring) : nat :=
  match s with
  | [] => 0
  | x :: s' =>
      if p x then
        match hi with
        | Some 0 => 0
        | Some (S h) => S (runLength p (Some h) s')
        | None => S (runLength p None s')
        end
      else 0
  end.

Fixpoint consume (n : nat) (st : mstate) : mstate :=
  match n with
  | 0 => st
  | S n' => match rest st with
            | [] => st
            | x :: xs => consume n' (advance st x xs)
            end
  end.

(** Greedy repetition: try the continuation after [n] characters, then after
    [n-1], ... down to [lo]. *)
Fixpoint repTry (lo n : nat) (st : mstate) (k : mstate -> option mstate) : option mstate :=
  if n <? lo then None
  else match k (consume n st) with
       | Some r => Some r
       | None => match n with
                 | 0 => None
                 | S n' => repTry lo n' st k
                 end
       end.

(** The backtracking matcher, in continuation-passing style: [run ic r st k]
    matches [r] at [st] and hands every way of doing so, in priority order,
    to [k] until one succeeds. *)
Fixpoint run (ic : bool) (r : regex) (st : mstate) (k : mstate -> option mstate)
  : option mstate :=
  match r with
  | Chr c =>
      match rest st with
      | x :: xs => if cu_eqb (canon ic c) (canon ic x) then k (advance st x xs) else None
      | [] => None
      end
  | Cls p =>
      match rest st with
      | x :: xs => if p x then k (advance st x xs) else None
      | [] => None
      end
  | Cat r1 r2 => run ic r1 st (fun st1 => run ic r2 st1 k)
  | Alt r1 r2 =>
      match run ic r1 st k with
      | Some res => Some res
      | None => run ic r2 st k
      end
  | Grp n r1 =>
      run ic r1 st (fun st1 => k (setCap n (firstn (pos st1 - pos st) (rest st)) st1))
  | Rep p lo hi => repTry lo (runLength p hi (rest st)) st k
  | Bol => if pos st =? 0 then k st else None
  | Eol => match rest st with [] => k st | _ :: _ => None end
  | Wordb =>
      if xorb (isWordAt (prev st)) (isWordAt (hd_error (rest st))) then k st else None
  | Eps => k st
  end.

(** The least number of characters a match of [r] covers. *)
Fixpoint minLength (r : regex) : nat :=
  match r with
  | Chr _ | Cls _ => 1
  | Cat r1 r2 => minLength r1 + minLength r2
  | Alt r1 r2 => Nat.min (minLength r1) (minLength r2)
  | Grp _ r1 => minLength r1
  | Rep _ lo _ => lo
  | Bol | Eol | Wordb | Eps => 0
  end.

(** The result of a successful [exec]: where the match starts and ends, and
    the captured groups. *)
Record match_result := {
  index : nat;
  endIndex : nat;
  groups : list (nat * jsstring)
}.

(** [m[n]] for a capturing group: [None] is [undefined]. *)
Fixpoint lookupGroup (n : nat) (g : list (nat * jsstring)) : option jsstring :=
  match g with
  | [] => None
  | (i, t) :: g' => if i =? n then Some t else lookupGroup n g'
  end.
Definition group (n : nat) (m : match_result) : option jsstring := lookupGroup n (groups m).

(** The leftmost match at or after the current position. *)
Fixpoint search (ic : bool) (r : regex) (pv : option codeUnit) (rs : jsstring) (i : nat)
  : option match_result :=
  match run ic r {| prev := pv; rest := rs; pos := i; caps := [] |} Some with
  | Some st' => Some {| index := i; endIndex := pos st'; groups := caps st' |}
  | None => match rs with
            | [] => None
            | x :: rs' => search ic r (Some x) rs' (S i)
            end
  end.

Definition prevAt (s : jsstring) (i : nat) : option codeUnit :=
  match i with 0 => None | S j => nth_error s j end.

(** [RegExpBuiltinExec] started at [lastIndex]. *)
Definition execAt (re : RegExp) (s : jsstring) (lastIndex : nat) : option match_result :=
  if List.length s <? lastIndex then None
  else search (ignoreCase re) (source re) (prevAt s lastIndex) (skipn lastIndex s) lastIndex.

(** [re.test(s)] and [s.match(re)] for a regular expression without the [g]
    flag: the search starts at 0 and leaves no state behind. *)
Definition matchOnce (re : RegExp) (s : jsstring) : option match_result := execAt re s 0.
Definition test (re : RegExp) (s : jsstring) : bool :=
  match matchOnce re s with Some _ => true | None => false end.

(** [re.test(s)] for a regular expression object with the [g] flag, whose
    [lastIndex] is [li]: the search starts there, and the object is left with
    the end of the match, or with 0 when there is none. *)
Definition testGlobal (re : RegExp) (s : jsstring) (li : nat) : bool * nat :=
  match execAt re s li with
  | Some m => (true, endIndex m)
  | None => (false, 0)
  end.

(** The loop [while ((match = regex.exec(content)) !== null) ...] on a fresh
    object with the [g] flag: the successive matches.  [fuel] bounds the
    number of iterations; [execAll] gives one more than the length of the
    subject, which the loop never exhausts when every match is non-empty. *)
Fixpoint execLoop (fuel : nat) (re : RegExp) (s : jsstring) (lastIndex : nat)
  : list match_result :=
  match fuel with
  | 0 => []
  | S fuel' =>
      match execAt re s lastIndex with
      | None => []
      | Some m => m :: execLoop fuel' re s (endIndex m)
      end
  end.
Definition execAll (re : RegExp) (s : jsstring) : list match_result :=
  execLoop (S (List.length s)) re s 0.

(** [s.replace(re, f)]: the first match only without the [g] flag, every match
    with it. *)
Definition replaceFirst (re : RegExp) (f : match_result -> jsstring) (s : jsstring) : jsstring :=
  match matchOnce re s with
  | None => s
  | Some m => firstn (index m) s ++ f m ++ skipn (endIndex m) s
  end.

Fixpoint replaceMatches (ms : list match_result) (f : match_result -> jsstring)
  (s : jsstring) (from : nat) : jsstring :=
  match ms with
  | [] => skipn from s
  | m :: ms' =>
      firstn (index m - from) (skipn from s) ++ f m ++ replaceMatches ms' f s (endIndex m)
  end.
Definition replaceAll (re : RegExp) (f : match_result -> jsstring) (s : jsstring) : jsstring :=
  replaceMatches (execAll re s) f s 0.

(** The text a match covers ([m[0]]). *)
Definition matched (s : jsstring) (m : match_result) : jsstring :=
  firstn (endIndex m - index m) (skipn (index m) s).

(** Pattern-building helpers. *)
Fixpoint lit (s : jsstring) : regex :=
  match s with
  | [] => Eps
  | [c] => Chr c
  | c :: s' => Cat (Chr c) (lit s')
  end.
Definition word (s : string) : regex := lit (js s).
Fixpoint alts (rs : list regex) : regex :=
  match rs with
  | [] => Eps
  | [r] => r
  | r :: rs' => Alt r (alts rs')
  end.
Fixpoint seq (rs : list regex) : regex :=
  match rs with
  | [] => Eps
  | [r] => r
  | r :: rs' => Cat r (seq rs')
  end.
Definition plus (p : codeUnit -> bool) : regex := Rep p 1 None.
Definition star (p : codeUnit -> bool) : regex := Rep p 0 None.
Definition oneOf (s : string) (c : codeUnit) : bool := mem c (js s).
Definition noneOf (s : string) (c : codeUnit) : bool := negb (mem c (js s)).

(** ** Notions used to state what the matcher does *)

(** [st1] lies at least [n] characters after [st] in the same subject. *)
Definition ahead (n : nat) (st st1 : mstate) : Prop :=
  pos st + n <= pos st1
  /\ pos st1 + List.length (rest st1) = pos st + List.length (rest st).

Definition foldCase (ic : bool) (s : jsstring) : jsstring := List.map (canon ic) s.

End JSRegExp.

(* ================================================================== *)
(** * src/types.ts *)
(* ================================================================== *)

Module Types.
Import JSString JSNumber.

Inductive Severity := error | warn | info.

Definition Severity_eqb (a b : Severity) : bool :=
  match a, b with
  | error, error | warn, warn | info, info => true
  | _, _ => false
  end.

(** Optional fields ([line?], [context?], [suggestion?]) are [option]s; the
    counters [passed] and [failed] are only ever set by [++] or from an
    array length. *)
Record LintIssue := {
  rule : jsstring;
  severity : Severity;
  message : jsstring;
  line : option nat;
  context : option jsstring;
  suggestion : option jsstring
}.

Record CheckResult := {
  checker : jsstring;
  issues : list LintIssue;
  passed : nat;
  failed : nat
}.

Record LintReport := {
  file : jsstring;
  score : integral;
  results : list CheckResult;
  totalIssues : nat;
  errors : nat;
  warnings : nat;
  infos : nat;
  timestamp : jsstring
}.

Record ParsedSection := {
  title : jsstring;
  content : jsstring;
  startLine : Z;
  endLine : Z
}.

Record ParsedAgentsMd := {
  rawContent : jsstring;
  sections : list ParsedSection;
  mentionedPaths : list jsstring;
  mentionedScripts : list jsstring;
  mentionedDependencies : list jsstring;
  mentionedFrameworks : list jsstring;
  lines : list jsstring
}.

Record SeverityConfig := {
  missingPath : option Severity;
  missingScript : option Severity;
  staleDependency : option Severity;
  staleFramework : option Severity;
  missingSection : option Severity
}.

Record LintConfig := {
  cfgSeverity : option SeverityConfig;
  ignorePatterns : option (list jsstring);
  requiredSections : option (list jsstring);
  maxFileAgeDays : option nat
}.

(** [{}], the default configuration. *)
Definition emptyConfig : LintConfig :=
  {| cfgSeverity := None; ignorePatterns := None; requiredSections := None;
     maxFileAgeDays := None |}.

Record MultiLintReport := {
  files : list jsstring;
  reports : list LintReport;
  crossCheck : CheckResult;
  overallScore : integral;
  totalErrors : nat;
  totalWarnings : nat;
  totalInfos : nat
}.

End Types.

(* ================================================================== *)
(** * src/reporter.ts: the scoring engine *)
(* ================================================================== *)

Module Reporter.
Import JSString JSNumber Types.
Local Open Scope Z_scope.

(** The [switch] of [computeScore]: the penalty one issue adds. *)
Definition severityPenalty (s : Severity) : Z :=
  match s with
  | error => 15
  | warn => 7
  | info => 2
  end.

(** The three accumulators of [computeScore]. *)
Record totals := {
  totalChecks : Z;
  totalPassed : Z;
  weightedPenalty : Z
}.

Definition addIssuePenalty (w : Z) (issue : LintIssue) : Z :=
  w + severityPenalty (severity issue).

(** One iteration of [for (const result of results)]. *)
Definition addResult (acc : totals) (result : CheckResult) : totals :=
  {| totalChecks := totalChecks acc + (Z.of_nat (passed result) + Z.of_nat (failed result));
     totalPassed := totalPassed acc + Z.of_nat (passed result);
     weightedPenalty := fold_left addIssuePenalty (issues result) (weightedPenalty acc) |}.

Definition accumulate (results : list CheckResult) : totals :=
  fold_left addResult results
    {| totalChecks := 0; totalPassed := 0; weightedPenalty := 0 |}.

(** [(totalPassed / totalChecks) * 100], in double precision. *)
Definition baseScoreOf (totalPassed totalChecks : Z) : number :=
  mul (div (ofZ totalPassed) (ofZ totalChecks)) (ofZ 100).

Definition computeScore (results : list CheckResult) : integral :=
  let acc := accumulate results in
  if totalChecks acc =? 0 then IInt 100
  else
    let baseScore :=
      if 0 <? totalChecks acc then baseScoreOf (totalPassed acc) (totalChecks acc)
      else ofZ 100 in
    let finalScore :=
      Math_max 0 (Math_min 100 (Math_round (sub baseScore (ofZ (weightedPenalty acc))))) in
    finalScore.

Inductive Grade := A | B | C | D | F.

Definition scoreGrade (score : integral) : Grade :=
  if geb score 90 then A
  else if geb score 80 then B
  else if geb score 70 then C
  else if geb score 50 then D
  else F.

(** The grade bands: [g] is the letter the bands assign to the score [z]. *)
Definition gradeBands (z : Z) (g : Grade) : Prop :=
  (g = A <-> 90 <= z) /\ (g = B <-> 80 <= z < 90) /\ (g = C <-> 70 <= z < 80)
  /\ (g = D <-> 50 <= z < 70) /\ (g = F <-> z < 50).

(** ** The scoring formula as the specification words it, in exact
    arithmetic. *)

Definition sumChecks (results : list CheckResult) : Z :=
  fold_right (fun r n => Z.of_nat (passed r) + Z.of_nat (failed r) + n) 0 results.
Definition sumPassed (results : list CheckResult) : Z :=
  fold_right (fun r n => Z.of_nat (passed r) + n) 0 results.
Definition countSeverity (s : Severity) (results : list CheckResult) : Z :=
  fold_right (fun r n =>
    Z.of_nat (List.length (filter (fun i => Severity_eqb (severity i) s) (issues r))) + n)
    0 results.
Definition penalty (results : list CheckResult) : Z :=
  15 * countSeverity error results + 7 * countSeverity warn results
  + 2 * countSeverity info results.

Definition clamp (lo hi z : Z) : Z := Z.max lo (Z.min hi z).

(** [round(x)]: nearest integer, ties upwards. *)
Definition round (x : Q) : Z := Qfloor (x + (1 # 2))%Q.

(** [100 × totalPassed / totalChecks], the raw pass rate. *)
Definition passRate (results : list CheckResult) : Q :=
  (inject_Z (100 * sumPassed results) / inject_Z (sumChecks results))%Q.

Definition specScore (results : list CheckResult) : Z :=
  if sumChecks results =? 0 then 100
  else clamp 0 100 (round (passRate results - inject_Z (penalty results))%Q).

(** The double the code computes for the pass rate. *)
Definition baseScore (results : list CheckResult) : number :=
  baseScoreOf (sumPassed results) (sumChecks results).

(** Counters within the range where doubles hold integers exactly. *)
Definition safeIntegers (results : list CheckResult) : Prop :=
  sumChecks results < 2 ^ 53 /\ penalty results < 2 ^ 53.



(** The clamp [Math.max(0, Math.min(100, x))]. *)
Definition score_of (x : integral) : integral := Math_max 0 (Math_min 100 x).

(** The penalty of a list of issues, and of all the issues of all results. *)
Definition issuesPenalty (iss : list LintIssue) : Z :=
  fold_right (fun i n => severityPenalty (severity i) + n) 0 iss.
Definition resultsPenalty (results : list CheckResult) : Z :=
  fold_right (fun r n => issuesPenalty (issues r) + n) 0 results.


(** ** Sample batches *)

(** A batch of 23 passed and 17 failed checks, each failure reported as an
    informational issue. *)
Definition infoIssue : LintIssue :=
  {| rule := []; severity := info; message := []; line := None; context := None;
     suggestion := None |}.

Definition batch23of40 : list CheckResult :=
  [ {| checker := []; issues := repeat infoIssue 17; passed := 23; failed := 17 |} ].


End Reporter.

(* ================================================================== *)
(** * src/parser.ts: the extractor *)
(* ================================================================== *)

Module Parser.
Import JSString JSRegExp Types.

Definition BACKTICK : codeUnit := 96%N.
Definition SLASH : codeUnit := 47%N.
Definition STAR : codeUnit := 42%N.
Definition HASH : codeUnit := 35%N.
Definition AT : codeUnit := 64%N.

Definition isNot (c x : codeUnit) : bool := negb (cu_eqb x c).

(** [PATH_PATTERNS] *)
Definition PATH_PATTERNS : list RegExp := [
  (* /`([./][^\s`]+)`/g *)
  {| source := seq [Chr BACKTICK;
                    Grp 1 (Cat (Cls (oneOf "./"))
                               (plus (fun c => negb (isSpace c || cu_eqb c BACKTICK))));
                    Chr BACKTICK];
     ignoreCase := false; global := true |};
  (* /\*\*([./][^\s*]+)\*\*/g *)
  {| source := seq [Chr STAR; Chr STAR;
                    Grp 1 (Cat (Cls (oneOf "./"))
                               (plus (fun c => negb (isSpace c || cu_eqb c STAR))));
                    Chr STAR; Chr STAR];
     ignoreCase := false; global := true |};
  (* /(?:in|at|to|from|see)\s+`([^`]+\/[^`]+)`/gi *)
  {| source := seq [alts [word "in"; word "at"; word "to"; word "from"; word "see"];
                    plus isSpace; Chr BACKTICK;
                    Grp 1 (seq [plus (isNot BACKTICK); Chr SLASH; plus (isNot BACKTICK)]);
                    Chr BACKTICK];
     ignoreCase := true; global := true |};
  (* /(?:directory|folder|file|path):\s*`([^`]+)`/gi *)
  {| source := seq [alts [word "directory"; word "folder"; word "file"; word "path"];
                    Chr 58%N; star isSpace; Chr BACKTICK;
                    Grp 1 (plus (isNot BACKTICK));
                    Chr BACKTICK];
     ignoreCase := true; global := true |}
].

Definition scriptName : regex := Grp 1 (plus (fun c => isWord c || oneOf ":-" c)).

(** [SCRIPT_PATTERNS] *)
Definition SCRIPT_PATTERNS : list RegExp := [
  {| source := seq [Chr BACKTICK; word "npm run "; scriptName; Chr BACKTICK];
     ignoreCase := false; global := true |};
  {| source := seq [Chr BACKTICK; word "yarn "; scriptName; Chr BACKTICK];
     ignoreCase := false; global := true |};
  {| source := seq [Chr BACKTICK; word "pnpm "; scriptName; Chr BACKTICK];
     ignoreCase := false; global := true |};
  {| source := seq [Chr BACKTICK; word "bun "; scriptName; Chr BACKTICK];
     ignoreCase := false; global := true |};
  {| source := seq [word "npm run "; scriptName]; ignoreCase := false; global := true |};
  {| source := seq [word "yarn "; scriptName]; ignoreCase := false; global := true |}
].

(** [DEPENDENCY_PATTERNS] *)
Definition DEPENDENCY_PATTERNS : list RegExp := [
  (* /`([@\w][\w/.-]+@[\d.^~*]+)`/g *)
  {| source := seq [Chr BACKTICK;
                    Grp 1 (seq [Cls (fun c => cu_eqb c AT || isWord c);
                                plus (fun c => isWord c || oneOf "/.-" c);
                                Chr AT;
                                plus (fun c => isDigit c || oneOf ".^~*" c)]);
                    Chr BACKTICK];
     ignoreCase := false; global := true |};
  (* /\b(react|vue|...|typescript)\b/gi *)
  {| source := seq [Wordb;
                    Grp 1 (alts (List.map word
                      ["react"; "vue"; "angular"; "next"; "nuxt"; "svelte"; "solid";
                       "astro"; "remix"; "express"; "fastify"; "hono"; "nestjs";
                       "prisma"; "drizzle"; "zod"; "typescript"]%string));
                    Wordb];
     ignoreCase := true; global := true |}
].

(** [NEGATING_PHRASES] *)
Definition NEGATING_PHRASES : list RegExp :=
  List.map (fun w => {| source := word w; ignoreCase := true; global := false |})
    ["no longer"; "removed"; "not exist"; "doesn't exist"; "does not exist";
     "deprecated"]%string.

Definition isInNegatingContext (content : jsstring) (matchIndex : nat) : bool :=
  let lineStart := (lastIndexOf NL content matchIndex + 1)%Z in
  let lineEnd := indexOf NL content matchIndex in
  let line :=
    substring content lineStart
      (if (lineEnd =? -1)%Z then Z.of_nat (List.length content) else lineEnd) in
  existsb (fun p => test p line) NEGATING_PHRASES.

(** [FRAMEWORK_PATTERNS]: module-level objects, all with the [g] flag. *)
Definition FRAMEWORK_PATTERNS : list (jsstring * list RegExp) :=
  let g (w : string) := {| source := word w; ignoreCase := false; global := true |} in
  [ (js "angular", [g "NgModule"; g "forRoot()"; g "ngcc"; g "ViewChild"]);
    (js "react", [g "React.Component"; g "componentDidMount"; g "componentWillMount"]);
    (js "vue", [g "Vue.use"; g "new Vue("]);
    (js "node", [g "require("; g "module.exports"]) ]%string.

(** The mutable part of [FRAMEWORK_PATTERNS]: the [lastIndex] of each of its
    regular-expression objects, framework by framework. *)
Definition FrameworkState := list (list nat).
Definition initialFrameworkState : FrameworkState :=
  List.map (fun e => List.map (fun _ => 0) (snd e)) FRAMEWORK_PATTERNS.

(** [/^(#{1,3})\s+(.+)/] *)
Definition HEADING : RegExp :=
  {| source := seq [Bol; Grp 1 (Rep (cu_eqb HASH) 1 (Some 3)); plus isSpace;
                    Grp 2 (plus (fun c => negb (isLineTerminator c)))];
     ignoreCase := false; global := false |}.

Definition closeSection (s : ParsedSection) (e : Z) : ParsedSection :=
  {| title := title s; content := content s; startLine := startLine s; endLine := e |}.

Definition appendContent (s : ParsedSection) (text : jsstring) : ParsedSection :=
  {| title := title s; content := content s ++ text; startLine := startLine s;
     endLine := endLine s |}.

(** The state of the scan of [parseSections]: the sections pushed so far and
    [currentSection]. *)
Definition scan := (list ParsedSection * option ParsedSection)%type.

(** The heading text of a line that matches [HEADING]: [headingMatch[2].trim()]. *)
Definition headingTitle (ln : jsstring) : option jsstring :=
  match matchOnce HEADING ln with
  | Some headingMatch =>
      Some (trim (match group 2 headingMatch with Some t => t | None => [] end))
  | None => None
  end.

(** The callback of [lines.forEach((line, index) => ...)]. *)
Definition sectionStep (st : scan) (ln : jsstring) (index : Z) : scan :=
  let '(sections, currentSection) := st in
  match headingTitle ln with
  | Some t =>
      let sections' :=
        match currentSection with
        | Some cs => sections ++ [closeSection cs (index - 1)]
        | None => sections
        end in
      (sections', Some {| title := t; content := []; startLine := index; endLine := index |})
  | None =>
      match currentSection with
      | Some cs => (sections, Some (appendContent cs (ln ++ [NL])))
      | None => st
      end
  end.

Fixpoint forEachLine (lns : list jsstring) (index : Z) (st : scan) : scan :=
  match lns with
  | [] => st
  | ln :: lns' => forEachLine lns' (index + 1) (sectionStep st ln index)
  end.

Definition parseSections (lns : list jsstring) : list ParsedSection :=
  let '(sections, currentSection) := forEachLine lns 0 ([], None) in
  match currentSection with
  | Some cs => sections ++ [closeSection cs (Z.of_nat (List.length lns) - 1)]
  | None => sections
  end.

(** [/[,;:.]$/] *)
Definition TRAILING_PUNCTUATION : RegExp :=
  {| source := Cat (Cls (oneOf ",;:.")) Eol; ignoreCase := false; global := false |}.

Definition looksLikePath (candidate : jsstring) : bool :=
  startsWith (js "./") candidate || startsWith (js "../") candidate
  || startsWith (js "/") candidate || includes (js "/") candidate.

(** What one match contributes to [paths]: [None] when it is filtered out. *)
Definition acceptedPath (content : jsstring) (m : match_result) : option jsstring :=
  match group 1 m with
  | Some candidate =>
      if negb (str_eqb candidate []) && looksLikePath candidate then
        if isInNegatingContext content (index m) then None
        else Some (replaceFirst TRAILING_PUNCTUATION (fun _ => []) candidate)
      else None
  | None => None
  end.

Definition addAccepted (f : match_result -> option jsstring)
  (acc : list jsstring) (m : match_result) : list jsstring :=
  match f m with
  | Some x => set_add acc x
  | None => acc
  end.

(** The common shape of the three pattern-driven extractors: for each
    pattern, a fresh regular expression is run over the whole content and
    every match may add one string to the set. *)
Definition extractWith (patterns : list RegExp) (f : match_result -> option jsstring)
  (content : jsstring) : list jsstring :=
  fold_left (fun acc pattern => fold_left (addAccepted f) (execAll pattern content) acc)
    patterns [].

Definition extractPaths (content : jsstring) : list jsstring :=
  extractWith PATH_PATTERNS (acceptedPath content) content.

Definition acceptedScript (m : match_result) : option jsstring :=
  match group 1 m with
  | Some name =>
      if negb (str_eqb name []) && negb (str_eqb name (js "install"))
         && negb (str_eqb name (js "init"))
      then Some name else None
  | None => None
  end.

Definition extractScripts (content : jsstring) : list jsstring :=
  extractWith SCRIPT_PATTERNS acceptedScript content.

(** [match[1].toLowerCase().split('@')[0]]; the text group 1 matches is ASCII
    by the two patterns. *)
Definition acceptedDependency (m : match_result) : option jsstring :=
  match group 1 m with
  | Some name =>
      if negb (str_eqb name [])
      then Some (hd [] (split AT (toLowerCaseASCII name)))
      else None
  | None => None
  end.

Definition extractDependencies (content : jsstring) : list jsstring :=
  extractWith DEPENDENCY_PATTERNS acceptedDependency content.

(** [for (const pattern of patterns) if (pattern.test(content)) { ...; break; }]
    over the regular-expression objects of one framework: whether one matched,
    and the [lastIndex] each object is left with. *)
Fixpoint testPatterns (patterns : list RegExp) (lastIndexes : list nat)
  (content : jsstring) : bool * list nat :=
  match patterns, lastIndexes with
  | pattern :: patterns', li :: lis =>
      let '(hit, li') := testGlobal pattern content li in
      if hit then (true, li' :: lis)
      else let '(found, lis') := testPatterns patterns' lis content in
           (found, li' :: lis')
  | _, _ => (false, lastIndexes)
  end.

Fixpoint extractFrameworksFrom (table : list (jsstring * list RegExp))
  (st : FrameworkState) (content : jsstring) : list jsstring * FrameworkState :=
  match table, st with
  | (framework, patterns) :: table', lis :: st' =>
      let '(found, lis') := testPatterns patterns lis content in
      let '(frameworks, st'') := extractFrameworksFrom table' st' content in
      ((if found then [framework] else []) ++ frameworks, lis' :: st'')
  | _, _ => ([], st)
  end.

Definition extractFrameworks (st : FrameworkState) (content : jsstring)
  : list jsstring * FrameworkState :=
  extractFrameworksFrom FRAMEWORK_PATTERNS st content.

(** [parseAgentsMd], from the text [fs.readFileSync(filePath, 'utf-8')]
    returned; the module state it reads and leaves is that of
    [FRAMEWORK_PATTERNS]. *)
Definition parseAgentsMd (st : FrameworkState) (rawContent : jsstring)
  : ParsedAgentsMd * FrameworkState :=
  let lns := split NL rawContent in
  let sections := parseSections lns in
  let mentionedPaths := extractPaths rawContent in
  let mentionedScripts := extractScripts rawContent in
  let mentionedDependencies := extractDependencies rawContent in
  let '(mentionedFrameworks, st') := extractFrameworks st rawContent in
  ({| rawContent := rawContent;
      sections := sections;
      mentionedPaths := mentionedPaths;
      mentionedScripts := mentionedScripts;
      mentionedDependencies := mentionedDependencies;
      mentionedFrameworks := mentionedFrameworks;
      lines := lns |}, st').

(** ** The properties the specification states of the extractor *)

(** Sections tile the line range [[lo, hi)]: each starts where the previous
    one ended, none is empty. *)
Fixpoint tiles (secs : list ParsedSection) (lo hi : Z) : Prop :=
  match secs with
  | [] => lo = hi
  | s :: secs' => startLine s = lo /\ (lo <= endLine s)%Z /\ tiles secs' (endLine s + 1) hi
  end.

(** ... as the specification has it: a partition of [[0, lines.length)]. *)
Definition partitionsLines (secs : list ParsedSection) (lns : list jsstring) : Prop :=
  tiles secs 0 (Z.of_nat (List.length lns)).

Definition isHeading (ln : jsstring) : bool :=
  match headingTitle ln with Some _ => true | None => false end.

(** The index of the first heading line, or the number of lines. *)
Fixpoint firstHeading (lns : list jsstring) : Z :=
  match lns with
  | [] => 0
  | ln :: lns' => if isHeading ln then 0 else (1 + firstHeading lns')%Z
  end.

(** The line at a (0-based) index. *)
Definition lineAt (lns : list jsstring) (i : Z) : option jsstring :=
  if (i <? 0)%Z then None else nth_error lns (Z.to_nat i).

(** The line of [content] that holds index [i]: what [isInNegatingContext]
    cuts out with [lastIndexOf] and [indexOf]. *)
Definition lineOf (content : jsstring) (i : nat) : jsstring :=
  substring content (lastIndexOf NL content i + 1)
    (if (indexOf NL content i =? -1)%Z then Z.of_nat (List.length content)
     else indexOf NL content i).

(** ** Notions used to state what the extractor does, and sample documents *)

Fixpoint dropLastIf (p : codeUnit -> bool) (s : jsstring) : jsstring :=
  match s with
  | [] => []
  | c :: s' => match s' with
               | [] => if p c then [] else [c]
               | _ :: _ => c :: dropLastIf p s'
               end
  end.

(** The section's first line is a heading line, and its title is that
    heading's trimmed text. *)
Definition titledByHeading (lns : list jsstring) (s : ParsedSection) : Prop :=
  exists ln, lineAt lns (startLine s) = Some ln /\ headingTitle ln = Some (title s).

(** The state of the scan once exactly the lines [pre] have been visited. *)
Definition scanned (pre : list jsstring) (st : scan) : Prop :=
  let n := Z.of_nat (List.length pre) in
  match snd st with
  | None => fst st = [] /\ firstHeading pre = n
  | Some cs =>
      tiles (fst st) (firstHeading pre) (startLine cs)
      /\ (firstHeading pre <= startLine cs < n)%Z
      /\ Forall (titledByHeading pre) (fst st ++ [cs])
  end.

(** The negating phrases as the specification lists them, looked for without
    regard to case. *)
Definition negatingPhrases : list string :=
  ["no longer"; "removed"; "not exist"; "doesn't exist"; "does not exist"; "deprecated"]%string.

Definition hasNegatingPhrase (ln : jsstring) : bool :=
  existsb (fun w => includes (toUpperCaseASCII (js w)) (toUpperCaseASCII ln)) negatingPhrases.




(** A document with a line before its first heading. *)
Definition introThenHeading : list jsstring := [js "intro"; js "# A"].

End Parser.

(* ================================================================== *)
(** * src/checkers/*.ts: the validators *)
(* ================================================================== *)

Module Checkers.
Import JSString JSRegExp Types.

Definition EMDASH : codeUnit := 8212%N.

(** ["..."] around a string, as the template literals of the messages have it. *)
Definition quoted (s : jsstring) : jsstring := [DQUOTE] ++ s ++ [DQUOTE].

(** [a.findIndex(p)]: [None] stands for [-1]. *)
Fixpoint findIndexFrom {A : Type} (p : A -> bool) (l : list A) (i : nat) : option nat :=
  match l with
  | [] => None
  | x :: l' => if p x then Some i else findIndexFrom p l' (S i)
  end.
Definition findIndex {A : Type} (p : A -> bool) (l : list A) : option nat :=
  findIndexFrom p l 0.

(** [lineNumber >= 0 ? lineNumber + 1 : undefined] *)
Definition lineOfIndex (lineNumber : option nat) : option nat := option_map S lineNumber.

(** [lineNumber >= 0 ? parsed.lines[lineNumber]?.trim() : undefined] *)
Definition contextOfIndex (lns : list jsstring) (lineNumber : option nat) : option jsstring :=
  match lineNumber with
  | Some n => option_map trim (nth_error lns n)
  | None => None
  end.

(** The part of a parsed [package.json] the validators read.  An object is
    the list of its entries in property order (keys are distinct); a field
    that is absent is [None].  Dependency and script tables map names to
    strings. *)
Record PackageJson := {
  pkgDependencies : option (list (jsstring * jsstring));
  pkgDevDependencies : option (list (jsstring * jsstring));
  pkgPeerDependencies : option (list (jsstring * jsstring));
  pkgScripts : option (list (jsstring * jsstring));
  pkgWorkspaces : list jsstring   (* [pkg.workspaces], or [pkg.workspaces.packages], or [[]] *)
}.

(** [Object.keys(table ?? {})] *)
Definition keysOf (table : option (list (jsstring * jsstring))) : list jsstring :=
  match table with
  | Some entries => List.map fst entries
  | None => []
  end.

(** [new Set<string>([...])] *)
Definition setOf (l : list jsstring) : list jsstring := fold_left set_add l [].

Section Environment.

(** What the validators take from the Node.js runtime and from the disk:
    Unicode lower-casing, path arithmetic, [fs.existsSync], and
    [JSON.parse(fs.readFileSync(p, 'utf-8'))], which is [None] when it
    throws. *)
Variable toLowerCase : jsstring -> jsstring.
Variable path_join : jsstring -> jsstring -> jsstring.
Variable path_resolve : jsstring -> jsstring -> jsstring.
Variable existsSync : jsstring -> bool.
Variable readJson : jsstring -> option PackageJson.

(** ** checkers/dependencies.ts *)

Definition DEPRECATED_PACKAGES : list (jsstring * jsstring) :=
  [ (js "request", js "axios or node-fetch");
    (js "moment", js "date-fns or dayjs");
    (js "lodash", js "native JS methods or a smaller util");
    (js "tslint", js "eslint with @typescript-eslint");
    (js "node-sass", js "sass (Dart Sass)");
    (js "babel-eslint", js "@babel/eslint-parser");
    (js "eslint-plugin-prettier", js "prettier via editor integration");
    (js "react-scripts", js "vite or create-vite");
    (js "webpack", js "vite (unless legacy)") ].

(** [config.severity?.staleDependency ?? 'info'] *)
Definition staleDependencySeverity (config : LintConfig) : Severity :=
  match cfgSeverity config with
  | Some sv => match staleDependency sv with Some s => s | None => info end
  | None => info
  end.

(** [/^@types\//] *)
Definition TYPES_PREFIX : RegExp :=
  {| source := Cat Bol (word "@types/"); ignoreCase := false; global := false |}.

Definition commonFrameworks : list jsstring :=
  [js "react"; js "angular"; js "vue"; js "node"; js "typescript"; js "javascript"].

Definition missingDependencyIssue (parsed : ParsedAgentsMd) (dep : jsstring) : LintIssue :=
  let lineNumber :=
    findIndex (fun l => includes (toLowerCase dep) (toLowerCase l)) (lines parsed) in
  {| rule := js "no-missing-dependency";
     severity := warn;
     message := js "Package " ++ quoted dep
                ++ js " is mentioned but not found in package.json";
     line := lineOfIndex lineNumber;
     context := None;
     suggestion := Some (js "Either add " ++ quoted dep
                         ++ js " to package.json or remove the reference from this context file") |}.

Definition deprecatedMessage (deprecated : jsstring) : jsstring :=
  js "Package " ++ quoted deprecated ++ js " is deprecated".

Definition deprecatedDependencyIssue (parsed : ParsedAgentsMd) (config : LintConfig)
  (entry : jsstring * jsstring) : LintIssue :=
  let '(deprecated, replacement) := entry in
  let lineNumber := findIndex (fun l => includes deprecated l) (lines parsed) in
  {| rule := js "deprecated-dependency";
     severity := staleDependencySeverity config;
     message := deprecatedMessage deprecated;
     line := lineOfIndex lineNumber;
     context := None;
     suggestion := Some (js "Consider migrating to: " ++ replacement) |}.

(** The three variables of [checkDependencies]: [issues], [passed], [failed]. *)
Record tally := { t_issues : list LintIssue; t_passed : nat; t_failed : nat }.

(** The body of [for (const dep of parsed.mentionedDependencies)]. *)
Definition mentionedDependencyStep (parsed : ParsedAgentsMd) (config : LintConfig)
  (allDeps : list jsstring) (acc : tally) (dep : jsstring) : tally :=
  let ignorePatterns := match ignorePatterns config with Some l => l | None => [] end in
  if existsb (fun p => includes p dep) ignorePatterns then acc
  else
    let normalized := replaceFirst TYPES_PREFIX (fun _ => []) (toLowerCase dep) in
    let exists_ :=
      set_has dep allDeps
      || set_has (js "@types/" ++ dep) allDeps
      || existsb (fun d => includes normalized (toLowerCase d)) allDeps in
    if exists_ then
      {| t_issues := t_issues acc; t_passed := S (t_passed acc); t_failed := t_failed acc |}
    else if negb (set_has (toLowerCase dep) commonFrameworks) then
      {| t_issues := t_issues acc ++ [missingDependencyIssue parsed dep];
         t_passed := t_passed acc; t_failed := S (t_failed acc) |}
    else acc.

(** The body of [for (const [deprecated, replacement] of
    Object.entries(DEPRECATED_PACKAGES))]. *)
Definition deprecatedStep (parsed : ParsedAgentsMd) (config : LintConfig)
  (allDeps : list jsstring) (iss : list LintIssue) (entry : jsstring * jsstring)
  : list LintIssue :=
  if set_has (fst entry) allDeps
  then iss ++ [deprecatedDependencyIssue parsed config entry]
  else iss.

Definition emptyResult (name : string) : CheckResult :=
  {| checker := js name; issues := []; passed := 0; failed := 0 |}.

Definition allDepsOf (pkg : PackageJson) : list jsstring :=
  setOf (keysOf (pkgDependencies pkg) ++ keysOf (pkgDevDependencies pkg)
         ++ keysOf (pkgPeerDependencies pkg)).

Definition checkDependencies (parsed : ParsedAgentsMd) (repoRoot : jsstring)
  (config : LintConfig) : CheckResult :=
  let pkgPath := path_join repoRoot (js "package.json") in
  if negb (existsSync pkgPath) then emptyResult "dependencies"
  else
    match readJson pkgPath with
    | None => emptyResult "dependencies"
    | Some pkg =>
        let allDeps := allDepsOf pkg in
        let acc :=
          fold_left (mentionedDependencyStep parsed config allDeps)
            (mentionedDependencies parsed)
            {| t_issues := []; t_passed := 0; t_failed := 0 |} in
        let issues :=
          fold_left (deprecatedStep parsed config allDeps) DEPRECATED_PACKAGES
            (t_issues acc) in
        {| checker := js "dependencies"; issues := issues;
           passed := t_passed acc; failed := t_failed acc |}
    end.


(** ** checkers/structure.ts *)

Record RecommendedSection := {
  keywords : list jsstring;
  rs_rule : jsstring;
  rs_message : jsstring;
  rs_suggestion : jsstring;
  rs_severity : Severity
}.

Definition RECOMMENDED_SECTIONS : list RecommendedSection :=
  [ {| keywords := [js "setup"; js "install"; js "getting started"; js "quick start";
                    js "prerequisites"];
       rs_rule := js "missing-setup-section";
       rs_message := js "No setup/installation section found";
       rs_suggestion :=
         js "Add a " ++ quoted (js "Setup") ++ js " or " ++ quoted (js "Getting Started")
         ++ js " section explaining how to install dependencies and configure the environment.";
       rs_severity := warn |};
    {| keywords := [js "test"; js "testing"; js "run tests"; js "unit test"; js "e2e"];
       rs_rule := js "missing-test-section";
       rs_message :=
         js "No testing section found " ++ [EMDASH]
         ++ js " agents need to know how to run tests to verify their changes";
       rs_suggestion :=
         js "Add a " ++ quoted (js "Testing")
         ++ js " section with the exact commands to run tests (e.g., `npm test` or `npm run test:unit`).";
       rs_severity := warn |};
    {| keywords := [js "build"; js "compile"; js "bundle"];
       rs_rule := js "missing-build-section";
       rs_message := js "No build section found";
       rs_suggestion :=
         js "Add a " ++ quoted (js "Build")
         ++ js " section with the command to build the project (e.g., `npm run build`).";
       rs_severity := info |} ].

Record QualityCheck := {
  qc_check : ParsedAgentsMd -> bool;
  qc_rule : jsstring;
  qc_severity : Severity;
  qc_message : jsstring;
  qc_suggestion : jsstring
}.

(** [/TODO|FIXME|XXX|HACK/gi] *)
Definition TODO_MARKERS : RegExp :=
  {| source := alts [word "TODO"; word "FIXME"; word "XXX"; word "HACK"];
     ignoreCase := true; global := true |}.

(** [/\b(201[0-9]|202[0-3])\b/] *)
Definition OLD_YEAR : RegExp :=
  {| source := seq [Wordb;
                    Grp 1 (Alt (Cat (word "201") (Cls isDigit))
                               (Cat (word "202") (Cls (between 48%N 51%N))));
                    Wordb];
     ignoreCase := false; global := false |}.

Definition QUALITY_CHECKS : list QualityCheck :=
  [ {| qc_check := fun parsed => (Z.of_nat (List.length (rawContent parsed)) <? 100)%Z;
       qc_rule := js "too-short";
       qc_severity := warn;
       qc_message :=
         js "Context file is very short (< 100 characters) " ++ [EMDASH]
         ++ js " agents may lack sufficient context";
       qc_suggestion :=
         js "Add more context about your project structure, conventions, and workflows." |};
    {| qc_check := fun parsed => (15000 <? Z.of_nat (List.length (rawContent parsed)))%Z;
       qc_rule := js "too-long";
       qc_severity := info;
       qc_message :=
         js "Context file is very long (> 15,000 characters) " ++ [EMDASH]
         ++ js " context bloat increases cost by 20%+";
       qc_suggestion :=
         js "Trim to only non-discoverable information. Remove sections that describe things agents can infer from code." |};
    {| qc_check := fun parsed =>
         let todoCount := List.length (execAll TODO_MARKERS (rawContent parsed)) in
         3 <? todoCount;
       qc_rule := js "too-many-todos";
       qc_severity := info;
       qc_message :=
         js "Context file contains multiple TODO/FIXME markers " ++ [EMDASH]
         ++ js " stale notes can mislead agents";
       qc_suggestion :=
         js "Resolve TODOs or remove them from AGENTS.md. Outdated notes are worse than no notes." |};
    {| qc_check := fun parsed => test OLD_YEAR (rawContent parsed);
       qc_rule := js "old-year-reference";
       qc_severity := info;
       qc_message :=
         js "Context file references years before 2024 " ++ [EMDASH]
         ++ js " may contain stale information";
       qc_suggestion := js "Review and update any time-sensitive references." |} ].

(** [config.severity?.missingSection ?? 'warn'] *)
Definition missingSectionSeverity (config : LintConfig) : Severity :=
  match cfgSeverity config with
  | Some sv => match missingSection sv with Some s => s | None => warn end
  | None => warn
  end.

(** [/\s+/g] *)
Definition SPACES : RegExp :=
  {| source := plus isSpace; ignoreCase := false; global := true |}.

Definition customSectionOf (config : LintConfig) (customSection : jsstring)
  : RecommendedSection :=
  {| keywords := [toLowerCase customSection];
     rs_rule := js "missing-custom-section-"
                ++ replaceAll SPACES (fun _ => js "-") (toLowerCase customSection);
     rs_message := js "Required section " ++ quoted customSection ++ js " not found";
     rs_suggestion := js "Add a " ++ quoted customSection
                      ++ js " section as required by your .agents-lint.json config.";
     rs_severity := missingSectionSeverity config |}.

Definition sectionFound (parsed : ParsedAgentsMd) (section : RecommendedSection) : bool :=
  let sectionTitles := List.map (fun s => toLowerCase (title s)) (sections parsed) in
  let contentLower := toLowerCase (rawContent parsed) in
  existsb (fun kw => existsb (fun t => includes kw t) sectionTitles
                     || includes kw contentLower)
    (keywords section).

(** The two variables of [checkStructure]: [issues] and [passed]. *)
Definition sectionStep (parsed : ParsedAgentsMd) (config : LintConfig)
  (acc : list LintIssue * nat) (section : RecommendedSection) : list LintIssue * nat :=
  let '(iss, passed) := acc in
  if sectionFound parsed section then (iss, S passed)
  else (iss ++ [{| rule := rs_rule section;
                   severity := missingSectionSeverity config;
                   message := rs_message section;
                   line := None; context := None;
                   suggestion := Some (rs_suggestion section) |}], passed).

Definition qualityStep (parsed : ParsedAgentsMd)
  (acc : list LintIssue * nat) (qc : QualityCheck) : list LintIssue * nat :=
  let '(iss, passed) := acc in
  if qc_check qc parsed then
    (iss ++ [{| rule := qc_rule qc; severity := qc_severity qc; message := qc_message qc;
                line := None; context := None; suggestion := Some (qc_suggestion qc) |}],
     passed)
  else (iss, S passed).

Definition checkStructure (parsed : ParsedAgentsMd) (config : LintConfig) : CheckResult :=
  let sectionsToCheck :=
    RECOMMENDED_SECTIONS
    ++ List.map (customSectionOf config)
         (match requiredSections config with Some l => l | None => [] end) in
  let acc := fold_left (sectionStep parsed config) sectionsToCheck ([], 0) in
  let '(iss, passed) := fold_left (qualityStep parsed) QUALITY_CHECKS acc in
  {| checker := js "structure"; issues := iss; passed := passed;
     failed := List.length iss |}.

(** ** checkers/framework.ts *)

Record FrameworkCheck := {
  fc_pattern : RegExp;
  fc_rule : jsstring;
  fc_message : jsstring;
  fc_suggestion : jsstring
}.

Definition re (ic : bool) (r : regex) : RegExp :=
  {| source := r; ignoreCase := ic; global := false |}.

Definition FRAMEWORK_CHECKS : list (jsstring * list FrameworkCheck) :=
  [ (js "angular",
     [ {| fc_pattern := re false (Alt (word "NgModule") (word "@NgModule"));
          fc_rule := js "angular-ngmodule-deprecated";
          fc_message := js "References NgModules " ++ [EMDASH]
                        ++ js " Angular 14+ uses standalone components by default";
          fc_suggestion := js "Update AGENTS.md to reflect standalone component architecture. NgModules are being phased out in modern Angular." |};
       {| fc_pattern := re true (Alt (word "ngcc")
                                     (seq [word "ivy"; plus isSpace; word "compat"]));
          fc_rule := js "angular-ngcc-deprecated";
          fc_message := js "References ngcc (Angular Compatibility Compiler) " ++ [EMDASH]
                        ++ js " removed in Angular v16+";
          fc_suggestion := js "Remove ngcc references. Only full Ivy is supported in modern Angular." |};
       {| fc_pattern := re false (seq [word "enableIvy:"; star isSpace; word "false"]);
          fc_rule := js "angular-ivy-disabled";
          fc_message := js "References disabling Ivy renderer " ++ [EMDASH]
                        ++ js " not supported in Angular 13+";
          fc_suggestion := js "Remove enableIvy: false. Ivy is the only renderer in modern Angular." |};
       {| fc_pattern := re false (Alt (seq [Wordb; word "promiseToObservable"; Wordb])
                                      (seq [Wordb; word "toPromise()"]));
          fc_rule := js "angular-topromise-deprecated";
          fc_message := js "References .toPromise() " ++ [EMDASH]
                        ++ js " deprecated in RxJS 7, removed in RxJS 8";
          fc_suggestion := js "Replace .toPromise() with firstValueFrom() or lastValueFrom() from rxjs" |} ]);
    (js "react",
     [ {| fc_pattern := re false (alts [word "componentDidMount"; word "componentWillMount";
                                        word "componentWillUnmount"; word "componentDidUpdate"]);
          fc_rule := js "react-class-lifecycle";
          fc_message := js "References class component lifecycle methods " ++ [EMDASH]
                        ++ js " React 18+ recommends hooks";
          fc_suggestion := js "Consider updating AGENTS.md to use hooks (useEffect, useState) instead of class lifecycle methods." |};
       {| fc_pattern := re false (word "ReactDOM.render(");
          fc_rule := js "react-legacy-render";
          fc_message := js "References ReactDOM.render() " ++ [EMDASH]
                        ++ js " deprecated in React 18, removed in React 19";
          fc_suggestion := js "Replace ReactDOM.render() with createRoot().render() from react-dom/client" |};
       {| fc_pattern := re false (Alt (word "componentWillMount")
                                      (word "UNSAFE_componentWillMount"));
          fc_rule := js "react-unsafe-lifecycle";
          fc_message := js "References unsafe lifecycle methods";
          fc_suggestion := js "Use useEffect hook instead." |} ]);
    (js "next",
     [ {| fc_pattern := re false (word "getInitialProps");
          fc_rule := js "nextjs-getinitialprops-legacy";
          fc_message := js "References getInitialProps " ++ [EMDASH]
                        ++ js " legacy API, prefer getStaticProps/getServerSideProps or App Router";
          fc_suggestion := js "Migrate to getStaticProps, getServerSideProps, or the Next.js App Router." |};
       {| fc_pattern := re false (Alt (word "pages/_app") (word "pages/_document"));
          fc_rule := js "nextjs-pages-router";
          fc_message := js "References Pages Router patterns " ++ [EMDASH]
                        ++ js " Next.js 13+ recommends App Router";
          fc_suggestion := js "Consider if this project has migrated or plans to migrate to App Router." |} ]);
    (js "node",
     [ {| fc_pattern := re false (Alt (Cat (word "require(")
                                           (Cls (fun c => cu_eqb c 39%N || cu_eqb c DQUOTE)))
                                      (word "module.exports"));
          fc_rule := js "node-commonjs-in-esm-project";
          fc_message := js "References CommonJS (require/module.exports) syntax";
          fc_suggestion := js "If this is an ESM project, update AGENTS.md to use import/export syntax." |} ]) ].

(** The framework-agnostic checks, [/node\s+v?(1[0-5]|[0-9])\./i] and
    [/npm\s+v?(5|6)\./i]. *)
Definition generalChecks : list FrameworkCheck :=
  [ {| fc_pattern := re true (seq [word "node"; plus isSpace; Rep (oneOf "vV") 0 (Some 1);
                                   Grp 1 (Alt (Cat (Chr 49%N) (Cls (between 48%N 53%N)))
                                              (Cls isDigit));
                                   Chr 46%N]);
       fc_rule := js "old-node-version";
       fc_message := js "References an outdated Node.js version (< 16)";
       fc_suggestion := js "Update to Node.js 20 LTS or later. Node 18+ is required for many modern tools." |};
    {| fc_pattern := re true (seq [word "npm"; plus isSpace; Rep (oneOf "vV") 0 (Some 1);
                                   Grp 1 (Alt (Chr 53%N) (Chr 54%N));
                                   Chr 46%N]);
       fc_rule := js "old-npm-version";
       fc_message := js "References an outdated npm version (< 7)";
       fc_suggestion := js "Update npm to v9+ or consider migrating to pnpm or bun." |} ].

Fixpoint assoc {A : Type} (key : jsstring) (entries : list (jsstring * A)) : option A :=
  match entries with
  | [] => None
  | (k, v) :: entries' => if str_eqb k key then Some v else assoc key entries'
  end.

(** [allDeps[name]] is truthy, for [allDeps = {...pkg.dependencies,
    ...pkg.devDependencies}]. *)
Definition hasDep (pkg : PackageJson) (name : string) : bool :=
  let table (t : option (list (jsstring * jsstring))) :=
    match t with Some l => l | None => [] end in
  match assoc (js name) (table (pkgDevDependencies pkg)) with
  | Some v => negb (str_eqb v [])
  | None =>
      match assoc (js name) (table (pkgDependencies pkg)) with
      | Some v => negb (str_eqb v [])
      | None => false
      end
  end.

Definition detectFrameworks (repoRoot : jsstring) : list jsstring :=
  let pkgPath := path_join repoRoot (js "package.json") in
  if negb (existsSync pkgPath) then []
  else
    match readJson pkgPath with
    | None => []
    | Some pkg =>
        let detected :=
          (if hasDep pkg "@angular/core" then [js "angular"] else [])
          ++ (if hasDep pkg "react" then [js "react"] else [])
          ++ (if hasDep pkg "next" then [js "next"] else [])
          ++ (if hasDep pkg "vue" then [js "vue"] else [])
          ++ (if hasDep pkg "nuxt" then [js "nuxt"] else [])
          ++ (if hasDep pkg "svelte" then [js "svelte"] else []) in
        match detected with
        | [] => if existsSync (path_join repoRoot (js "package.json")) then [js "node"] else []
        | _ :: _ => detected
        end
    end.

(** One framework-specific check: an issue, or one more pass. *)
Definition frameworkCheckStep (parsed : ParsedAgentsMd)
  (acc : list LintIssue * nat) (check : FrameworkCheck) : list LintIssue * nat :=
  let '(iss, passed) := acc in
  if test (fc_pattern check) (rawContent parsed) then
    let lineNumber := findIndex (fun l => test (fc_pattern check) l) (lines parsed) in
    (iss ++ [{| rule := fc_rule check; severity := warn; message := fc_message check;
                line := lineOfIndex lineNumber;
                context := contextOfIndex (lines parsed) lineNumber;
                suggestion := Some (fc_suggestion check) |}], passed)
  else (iss, S passed).

(** One general check: an issue, or nothing. *)
Definition generalCheckStep (parsed : ParsedAgentsMd)
  (iss : list LintIssue) (check : FrameworkCheck) : list LintIssue :=
  if test (fc_pattern check) (rawContent parsed) then
    let lineNumber := findIndex (fun l => test (fc_pattern check) l) (lines parsed) in
    iss ++ [{| rule := fc_rule check; severity := warn; message := fc_message check;
               line := lineOfIndex lineNumber; context := None;
               suggestion := Some (fc_suggestion check) |}]
  else iss.

Definition checkFrameworkStaleness (parsed : ParsedAgentsMd) (repoRoot : jsstring)
  : CheckResult :=
  let detectedFrameworks := detectFrameworks repoRoot in
  let '(iss, passed) :=
    fold_left (fun acc framework =>
                 let checks := match assoc framework FRAMEWORK_CHECKS with
                               | Some l => l
                               | None => []
                               end in
                 fold_left (frameworkCheckStep parsed) checks acc)
      detectedFrameworks ([], 0) in
  let iss' := fold_left (generalCheckStep parsed) generalChecks iss in
  {| checker := js "framework-staleness"; issues := iss'; passed := passed;
     failed := List.length iss' |}.

(** ** checkers/filesystem.ts *)

Definition missingPathIssue (parsed : ParsedAgentsMd) (mentionedPath : jsstring) : LintIssue :=
  let lineNumber := findIndex (fun l => includes mentionedPath l) (lines parsed) in
  {| rule := js "no-missing-path";
     severity := error;
     message := js "Path does not exist: " ++ quoted mentionedPath;
     line := lineOfIndex lineNumber;
     context := contextOfIndex (lines parsed) lineNumber;
     suggestion := Some (js "Remove this reference or update it to the correct path. Did the directory get renamed or deleted?") |}.

Definition mentionedPathStep (parsed : ParsedAgentsMd) (repoRoot : jsstring)
  (acc : tally) (mentionedPath : jsstring) : tally :=
  if startsWith (js "http") mentionedPath || startsWith (js "$") mentionedPath then acc
  else
    let absolutePath := path_resolve repoRoot mentionedPath in
    if existsSync absolutePath then
      {| t_issues := t_issues acc; t_passed := S (t_passed acc); t_failed := t_failed acc |}
    else
      {| t_issues := t_issues acc ++ [missingPathIssue parsed mentionedPath];
         t_passed := t_passed acc; t_failed := S (t_failed acc) |}.

Definition commonDirs : list jsstring :=
  [js "src"; js "lib"; js "dist"; js "build"; js "packages"; js "apps"].

Definition mentionsDir (dir : jsstring) (l : jsstring) : bool :=
  includes (js "/" ++ dir ++ js "/") l || includes (js "./" ++ dir) l.

Definition commonDirStep (parsed : ParsedAgentsMd) (repoRoot : jsstring)
  (iss : list LintIssue) (dir : jsstring) : list LintIssue :=
  let mentions := filter (mentionsDir dir) (lines parsed) in
  if (0 <? List.length mentions) && negb (existsSync (path_join repoRoot dir)) then
    let alreadyReported := existsb (fun i => includes (js "/" ++ dir) (message i)) iss in
    if negb alreadyReported then
      let lineNumber := findIndex (mentionsDir dir) (lines parsed) in
      iss ++ [{| rule := js "no-missing-directory";
                 severity := warn;
                 message := js "Directory " ++ quoted (js "/" ++ dir)
                            ++ js " is referenced but does not exist in the repo root";
                 line := lineOfIndex lineNumber;
                 context := contextOfIndex (lines parsed) lineNumber;
                 suggestion := Some (js "Check if the project structure has changed since this AGENTS.md was written.") |}]
    else iss
  else iss.

Definition checkFilesystem (parsed : ParsedAgentsMd) (repoRoot : jsstring) : CheckResult :=
  let acc := fold_left (mentionedPathStep parsed repoRoot) (mentionedPaths parsed)
               {| t_issues := []; t_passed := 0; t_failed := 0 |} in
  let iss := fold_left (commonDirStep parsed repoRoot) commonDirs (t_issues acc) in
  {| checker := js "filesystem"; issues := iss;
     passed := t_passed acc; failed := t_failed acc |}.

(** ** checkers/npm-scripts.ts *)

(** [/\/\*$/] *)
Definition TRAILING_GLOB : RegExp :=
  {| source := seq [Chr 47%N; Chr 42%N; Eol]; ignoreCase := false; global := false |}.

Definition workspacePackage (repoRoot : jsstring) (ws : jsstring) : list jsstring :=
  let wsPath := path_join repoRoot (replaceFirst TRAILING_GLOB (fun _ => []) ws) in
  if existsSync wsPath then
    let wsPkg := path_join wsPath (js "package.json") in
    if existsSync wsPkg then [wsPkg] else []
  else [].

Definition findPackageJsonFiles (repoRoot : jsstring) : list jsstring :=
  let rootPkg := path_join repoRoot (js "package.json") in
  if existsSync rootPkg then
    rootPkg ::
    match readJson rootPkg with
    | Some pkg => flat_map (workspacePackage repoRoot) (firstn 20 (pkgWorkspaces pkg))
    | None => []
    end
  else [].

(** [Object.keys(pkg.scripts).forEach((s) => allScripts.add(s))] for every
    manifest that parses. *)
Definition addScriptsOf (allScripts : list jsstring) (pkgPath : jsstring) : list jsstring :=
  match readJson pkgPath with
  | Some pkg =>
      match pkgScripts pkg with
      | Some entries => fold_left set_add (List.map fst entries) allScripts
      | None => allScripts
      end
  | None => allScripts
  end.

Definition missingScriptIssue (parsed : ParsedAgentsMd) (allScripts : list jsstring)
  (script : jsstring) : LintIssue :=
  let lineNumber :=
    findIndex (fun l => includes (js "run " ++ script) l
                        || includes (js "yarn " ++ script) l
                        || includes (js "pnpm " ++ script) l) (lines parsed) in
  {| rule := js "no-missing-script";
     severity := warn;
     message := js "Script " ++ quoted script
                ++ js " is mentioned but not found in any package.json";
     line := lineOfIndex lineNumber;
     context := contextOfIndex (lines parsed) lineNumber;
     suggestion := Some (js "Available scripts: " ++ join (js ", ") (firstn 5 allScripts)
                         ++ (if 5 <? List.length allScripts then js "..." else [])) |}.

Definition mentionedScriptStep (parsed : ParsedAgentsMd) (allScripts : list jsstring)
  (acc : tally) (script : jsstring) : tally :=
  if set_has script allScripts then
    {| t_issues := t_issues acc; t_passed := S (t_passed acc); t_failed := t_failed acc |}
  else
    {| t_issues := t_issues acc ++ [missingScriptIssue parsed allScripts script];
       t_passed := t_passed acc; t_failed := S (t_failed acc) |}.

Definition missingTestScriptIssue : LintIssue :=
  {| rule := js "missing-test-script";
     severity := warn;
     message := js "No test script found in package.json " ++ [EMDASH]
                ++ js " coding agents need a test command to verify their work";
     line := None; context := None;
     suggestion := Some (js "Add a " ++ quoted (js "test")
                         ++ js " script to package.json so agents can validate their changes automatically") |}.

Definition checkNpmScripts (parsed : ParsedAgentsMd) (repoRoot : jsstring) : CheckResult :=
  let packageJsonPaths := findPackageJsonFiles repoRoot in
  let allScripts := fold_left addScriptsOf packageJsonPaths [] in
  match packageJsonPaths with
  | [] => emptyResult "npm-scripts"
  | _ :: _ =>
      let acc := fold_left (mentionedScriptStep parsed allScripts) (mentionedScripts parsed)
                   {| t_issues := []; t_passed := 0; t_failed := 0 |} in
      if negb (set_has (js "test") allScripts) && negb (set_has (js "test:unit") allScripts)
         && negb (set_has (js "test:run") allScripts)
      then {| checker := js "npm-scripts";
              issues := t_issues acc ++ [missingTestScriptIssue];
              passed := t_passed acc; failed := t_failed acc |}
      else {| checker := js "npm-scripts"; issues := t_issues acc;
              passed := S (t_passed acc); failed := t_failed acc |}
  end.

End Environment.
(** ** Notions used to state what the validators count, and a sample repository *)

Definition hasRule (r : string) (i : LintIssue) : bool := str_eqb (rule i) (js r).

Definition countRule (r : string) (iss : list LintIssue) : nat :=
  List.length (filter (hasRule r) iss).

(** A tally whose failures are exactly its issues, all of one rule. *)
Definition tallied (r : string) (acc : tally) : Prop :=
  t_failed acc = List.length (t_issues acc) /\ Forall (fun i => hasRule r i = true) (t_issues acc).

Definition isDeprecatedIssueFor (deprecated : jsstring) (i : LintIssue) : bool :=
  hasRule "deprecated-dependency" i && str_eqb (message i) (deprecatedMessage deprecated).

(** A repository whose manifest declares [moment], and an empty document. *)
Definition momentManifest : PackageJson :=
  {| pkgDependencies := Some [(js "moment", js "^2.29.0")];
     pkgDevDependencies := None; pkgPeerDependencies := None;
     pkgScripts := None; pkgWorkspaces := [] |}.

Definition emptyDocument : ParsedAgentsMd :=
  {| rawContent := []; sections := []; mentionedPaths := []; mentionedScripts := [];
     mentionedDependencies := []; mentionedFrameworks := []; lines := [] |}.

Definition joinPath (a b : jsstring) : jsstring := a ++ js "/" ++ b.

Definition momentResult : CheckResult :=
  checkDependencies toLowerCaseASCII joinPath (fun _ => true) (fun _ => Some momentManifest)
    emptyDocument (js "/repo") emptyConfig.

End Checkers.

(* ================================================================== *)
(** * src/fix.ts: the remediation engine *)
(* ================================================================== *)

Module Fix.
Import JSString JSRegExp JSNumber Types.

Inductive FixAction :=
| RemoveLine (lineNumber : nat)      (* { type: 'remove-line', lineNumber }, 1-indexed *)
| AddSection (content : jsstring).   (* { type: 'add-section', content } *)

Definition SECTION_TEMPLATES : list (jsstring * jsstring) :=
  [ (js "missing-setup-section",
     [NL] ++ js "## Setup" ++ [NL; NL] ++ js "```bash" ++ [NL]
     ++ js "# TODO: add setup/install commands" ++ [NL] ++ js "```" ++ [NL]);
    (js "missing-test-section",
     [NL] ++ js "## Testing" ++ [NL; NL] ++ js "```bash" ++ [NL]
     ++ js "# TODO: add test command (e.g., npm test)" ++ [NL] ++ js "```" ++ [NL]);
    (js "missing-build-section",
     [NL] ++ js "## Build" ++ [NL; NL] ++ js "```bash" ++ [NL]
     ++ js "# TODO: add build command (e.g., npm run build)" ++ [NL] ++ js "```" ++ [NL]) ].

(** [/^missing-custom-section-(.+)$/], [/-/g] and [/\b\w/g] *)
Definition CUSTOM_SECTION_RULE : RegExp :=
  {| source := seq [Bol; word "missing-custom-section-";
                    Grp 1 (plus (fun c => negb (isLineTerminator c))); Eol];
     ignoreCase := false; global := false |}.
Definition DASH : RegExp :=
  {| source := Chr 45%N; ignoreCase := false; global := true |}.
Definition WORD_START : RegExp :=
  {| source := Cat Wordb (Cls isWord); ignoreCase := false; global := true |}.

Definition getSectionTemplate (rule : jsstring) : option jsstring :=
  match Checkers.assoc rule SECTION_TEMPLATES with
  | Some template => Some template
  | None =>
      match matchOnce CUSTOM_SECTION_RULE rule with
      | Some m =>
          let name :=
            replaceAll WORD_START (fun c => toUpperCaseASCII (matched
                (replaceAll DASH (fun _ => js " ")
                   (match group 1 m with Some t => t | None => [] end)) c))
              (replaceAll DASH (fun _ => js " ")
                 (match group 1 m with Some t => t | None => [] end)) in
          Some ([NL] ++ js "## " ++ name ++ [NL; NL] ++ js "<!-- TODO: add " ++ name
                ++ js " content -->" ++ [NL])
      | None => None
      end
  end.

Definition buildFixAction (issue : LintIssue) (fileLines : list jsstring) : option FixAction :=
  match line issue with
  | Some n =>
      if (1 <=? n) && (n <=? List.length fileLines) then Some (RemoveLine n)
      else option_map AddSection (getSectionTemplate (rule issue))
  | None => option_map AddSection (getSectionTemplate (rule issue))
  end.

(** The decisions collected by the interactive loop: the [Set] of line
    numbers and the array of section texts, the number of questions asked so
    far ([idx] of [makeAsker]), and the [quit] flag. *)
Record session := {
  linesToRemove : list nat;
  sectionsToAdd : list jsstring;
  asked : nat;
  quit : bool
}.

Definition addLine (s : list nat) (n : nat) : list nat :=
  if existsb (Nat.eqb n) s then s else s ++ [n].

(** The body of [for (const issue of result.issues)].  [ask i] is the answer
    to the [i]-th question, as the loop receives it (trimmed and in lower
    case; the empty string once a piped input is exhausted). *)
Definition issueStep (ask : nat -> jsstring) (fileLines : list jsstring)
  (st : session) (issue : LintIssue) : session :=
  if quit st then st
  else
    match buildFixAction issue fileLines with
    | None => st
    | Some action =>
        let answer := ask (asked st) in
        if str_eqb answer (js "q") || str_eqb answer (js "quit") then
          {| linesToRemove := linesToRemove st; sectionsToAdd := sectionsToAdd st;
             asked := S (asked st); quit := true |}
        else if str_eqb answer (js "y") || str_eqb answer (js "yes") then
          match action with
          | RemoveLine lineNumber =>
              {| linesToRemove := addLine (linesToRemove st) lineNumber;
                 sectionsToAdd := sectionsToAdd st;
                 asked := S (asked st); quit := false |}
          | AddSection content =>
              {| linesToRemove := linesToRemove st;
                 sectionsToAdd := sectionsToAdd st ++ [content];
                 asked := S (asked st); quit := false |}
          end
        else
          {| linesToRemove := linesToRemove st; sectionsToAdd := sectionsToAdd st;
             asked := S (asked st); quit := false |}
    end.

(** The body of [for (const result of report.results)]. *)
Definition resultStep (ask : nat -> jsstring) (fileLines : list jsstring)
  (st : session) (result : CheckResult) : session :=
  if quit st then st else fold_left (issueStep ask fileLines) (issues result) st.

Definition interactiveLoop (ask : nat -> jsstring) (report : LintReport)
  (fileLines : list jsstring) : session :=
  fold_left (resultStep ask fileLines) (results report)
    {| linesToRemove := []; sectionsToAdd := []; asked := 0; quit := false |}.

(** [[...linesToRemove].sort((a, b) => b - a)] *)
Fixpoint insertDescending (n : nat) (l : list nat) : list nat :=
  match l with
  | [] => [n]
  | m :: l' => if m <? n then n :: l else m :: insertDescending n l'
  end.
Definition sortDescending (l : list nat) : list nat := fold_right insertDescending [] l.

(** [a.splice(start, 1)]: the array without the element at [start]; a
    negative [start] counts from the end, one past the end removes nothing. *)
Definition splice1 (a : list jsstring) (start : Z) : list jsstring :=
  let len := Z.of_nat (List.length a) in
  let s := if (start <? 0)%Z then Z.max (len + start) 0 else Z.min start len in
  firstn (Z.to_nat s) a ++ skipn (S (Z.to_nat s)) a.

(** The lines after the accepted fixes: removals in descending order, then
    the sections. *)
Definition applyFixes (fileLines : list jsstring) (st : session) : list jsstring :=
  let sortedLines := sortDescending (linesToRemove st) in
  let newLines :=
    fold_left (fun nl lineNum => splice1 nl (Z.of_nat lineNum - 1)) sortedLines fileLines in
  match sectionsToAdd st with
  | [] => newLines
  | _ :: _ => newLines ++ split NL (join [NL] (sectionsToAdd st))
  end.

(** [runFixMode], as the sequence of contents it passes to
    [fs.writeFileSync(absoluteFilePath, ...)]: [fileContent] is what
    [fs.readFileSync] returns for that path. *)
Definition runFixMode (ask : nat -> jsstring) (report : LintReport)
  (fileContent : jsstring) : list jsstring :=
  let allIssues := flat_map issues (results report) in
  match allIssues with
  | [] => []
  | _ :: _ =>
      let fileLines := split NL fileContent in
      let st := interactiveLoop ask report fileLines in
      let totalAccepted := List.length (linesToRemove st) + List.length (sectionsToAdd st) in
      if totalAccepted =? 0 then []
      else [join [NL] (applyFixes fileLines st)]
  end.

(** The lines whose 1-based number, counted from [i], is not in [removed]. *)
Fixpoint keepFrom (i : nat) (removed : list nat) (lns : list jsstring) : list jsstring :=
  match lns with
  | [] => []
  | x :: lns' =>
      if existsb (Nat.eqb i) removed then keepFrom (S i) removed lns'
      else x :: keepFrom (S i) removed lns'
  end.
Definition keepLines (removed : list nat) (lns : list jsstring) : list jsstring :=
  keepFrom 1 removed lns.

(** ** Notions used to state what the fix mode writes, and a sample session *)

Definition descending (l : list nat) : Prop := StronglySorted (fun a b => (b < a)%nat) l.

(** Invariant of the interactive loop. *)
Definition wellFormed (fileLines : list jsstring) (st : session) : Prop :=
  NoDup (linesToRemove st) /\
  forall m, In m (linesToRemove st) -> (1 <= m <= List.length fileLines)%nat.

(** A file of 45 lines and a report with issues on lines 23 and 41. *)
Definition numberedLines (n : nat) : list jsstring :=
  map (fun i => js "line " ++ [N.of_nat (48 + i / 10); N.of_nat (48 + i mod 10)]) (List.seq 1 n).

Definition lineIssue (n : nat) : LintIssue :=
  {| rule := js "missing-path"; severity := warn; message := js "stale"; line := Some n;
     context := None; suggestion := None |}.

Definition twoLineReport : LintReport :=
  {| file := js "AGENTS.md"; score := JSNumber.IInt 50;
     results := [ {| checker := js "filesystem"; issues := [lineIssue 23; lineIssue 41];
                     passed := 0; failed := 2 |} ];
     totalIssues := 2; errors := 0; warnings := 2; infos := 0; timestamp := [] |}.

End Fix.

(* ================================================================== *)
(** * src/linter.ts: one document, and all the documents of a repository *)
(* ================================================================== *)

Module Linter.
Import JSString JSNumber Types Reporter Parser Checkers.

Definition AGENT_FILES : list jsstring :=
  [ js "AGENTS.md"; js "agents.md"; js ".agents.md";
    js "CLAUDE.md"; js "claude.md";
    js "GEMINI.md"; js "gemini.md";
    js "COPILOT.md";
    js ".cursorrules";
    js ".github/copilot-instructions.md" ].

(** checkers/cross.ts *)
Record FileContext := {
  relativePath : jsstring;
  parsed : ParsedAgentsMd
}.

Section Environment.

(** The runtime of the validators, and what [lint] adds to it:
    [path.resolve(p)], [path.relative], [fs.readFileSync(p, 'utf-8')],
    [loadConfig], [new Date().toISOString()], and the cross-document check of
    checkers/cross.ts. *)
Variable toLowerCase : jsstring -> jsstring.
Variable path_join : jsstring -> jsstring -> jsstring.
Variable path_resolve : jsstring -> jsstring -> jsstring.
Variable path_absolute : jsstring -> jsstring.
Variable path_relative : jsstring -> jsstring -> jsstring.
Variable existsSync : jsstring -> bool.
Variable readJson : jsstring -> option PackageJson.
Variable readFileSync : jsstring -> jsstring.
Variable loadConfig : jsstring -> LintConfig.
Variable now : jsstring.
Variable checkCrossConsistency : list FileContext -> CheckResult.

Definition countIssues (s : Severity) (iss : list LintIssue) : nat :=
  List.length (filter (fun i => Severity_eqb (severity i) s) iss).

(** [for (const candidate of AGENT_FILES)], left at the first file found. *)
Definition findContextFile (repoRoot : jsstring) : option jsstring :=
  find existsSync (map (path_join repoRoot) AGENT_FILES).

Definition runCheckers (parsed : ParsedAgentsMd) (repoRoot : jsstring) (config : LintConfig)
  : list CheckResult :=
  [ checkStructure toLowerCase parsed config;
    checkFilesystem path_join path_resolve existsSync parsed repoRoot;
    checkNpmScripts path_join existsSync readJson parsed repoRoot;
    checkDependencies toLowerCase path_join existsSync readJson parsed repoRoot config;
    checkFrameworkStaleness path_join existsSync readJson parsed repoRoot ].

(** The file [lint] reads: [options.filePath], or else the first candidate
    that exists. *)
Definition resolveFilePath (filePath : option jsstring) (repoRoot : jsstring)
  : option jsstring :=
  match filePath with
  | Some (_ :: _) => filePath
  | _ => findContextFile repoRoot
  end.

(** [lint] from [loadConfig] on.  The state is that of the module-level
    framework patterns of the parser. *)
Definition lintFile (st : FrameworkState) (filePath repoRoot : jsstring)
  : LintReport * FrameworkState :=
  let config := loadConfig repoRoot in
  let '(parsed, st') := parseAgentsMd st (readFileSync filePath) in
  let results := runCheckers parsed repoRoot config in
  let allIssues := flat_map issues results in
  ({| file := path_relative repoRoot filePath;
      score := computeScore results;
      results := results;
      totalIssues := List.length allIssues;
      errors := countIssues error allIssues;
      warnings := countIssues warn allIssues;
      infos := countIssues info allIssues;
      timestamp := now |}, st').

(** [lint({ filePath, repoRoot })]; [None] is the thrown error. *)
Definition lint (st : FrameworkState) (filePath : option jsstring) (repoRoot : jsstring)
  : option (LintReport * FrameworkState) :=
  match resolveFilePath filePath repoRoot with
  | None | Some [] => None
  | Some p => if negb (existsSync p) then None else Some (lintFile st p repoRoot)
  end.

(** The [filter] callback of [foundPaths], with its [seen] set. *)
Definition foundStep (acc : list jsstring * list jsstring) (p : jsstring)
  : list jsstring * list jsstring :=
  let '(found, seen) := acc in
  if negb (existsSync p) then acc
  else
    let key := toLowerCase (path_absolute p) in
    if set_has key seen then acc else (found ++ [p], set_add seen key).

Definition foundPaths (repoRoot : jsstring) : list jsstring :=
  fst (fold_left foundStep (map (path_join repoRoot) AGENT_FILES) ([], [])).

(** [foundPaths.map((fp) => lint({ filePath: fp, repoRoot }))]: [lint] never
    awaits, so the calls run one after the other. *)
Fixpoint lintEach (st : FrameworkState) (paths : list jsstring) (repoRoot : jsstring)
  : option (list LintReport * FrameworkState) :=
  match paths with
  | [] => Some ([], st)
  | fp :: paths' =>
      match lint st (Some fp) repoRoot with
      | None => None
      | Some (r, st') =>
          match lintEach st' paths' repoRoot with
          | None => None
          | Some (rs, st'') => Some (r :: rs, st'')
          end
      end
  end.

Fixpoint fileContextsOf (st : FrameworkState) (paths : list jsstring) (repoRoot : jsstring)
  : list FileContext * FrameworkState :=
  match paths with
  | [] => ([], st)
  | fp :: paths' =>
      let '(p, st') := parseAgentsMd st (readFileSync fp) in
      let '(cs, st'') := fileContextsOf st' paths' repoRoot in
      ({| relativePath := path_relative repoRoot fp; parsed := p |} :: cs, st'')
  end.

(** [reports.reduce((sum, r) => sum + r.score, 0)] *)
Definition sumScores (reports : list LintReport) : number :=
  fold_left (fun sum r => add sum (ofIntegral (score r))) reports (ofZ 0).

Definition sumOf (f : LintReport -> nat) (reports : list LintReport) : nat :=
  fold_left (fun s r => s + f r) reports 0.

(** The report [lintAll] builds from the per-document reports and the result
    of the cross-document check. *)
Definition aggregate (reports : list LintReport) (crossCheck : CheckResult) : MultiLintReport :=
  let overallScore :=
    Math_round (div (sumScores reports) (ofZ (Z.of_nat (List.length reports)))) in
  let crossIssues := issues crossCheck in
  {| files := map file reports;
     reports := reports;
     crossCheck := crossCheck;
     overallScore := overallScore;
     totalErrors := sumOf errors reports + countIssues error crossIssues;
     totalWarnings := sumOf warnings reports + countIssues warn crossIssues;
     totalInfos := sumOf infos reports + countIssues info crossIssues |}.

Definition lintAll (st : FrameworkState) (repoRoot : jsstring)
  : option (MultiLintReport * FrameworkState) :=
  let found := foundPaths repoRoot in
  match found with
  | [] => None
  | _ :: _ =>
      match lintEach st found repoRoot with
      | None => None
      | Some (reports, st') =>
          let '(fileContexts, st'') := fileContextsOf st' found repoRoot in
          Some (aggregate reports (checkCrossConsistency fileContexts), st'')
      end
  end.

End Environment.

(** The integer a report's score is, and the exact mean of the scores. *)
Definition scoreZ (r : LintReport) : Z :=
  match score r with IInt z => z | _ => 0%Z end.
Definition sumScoreZ (reports : list LintReport) : Z :=
  fold_right (fun r n => (scoreZ r + n)%Z) 0%Z reports.
Definition meanScore (reports : list LintReport) : Q :=
  (inject_Z (sumScoreZ reports) / inject_Z (Z.of_nat (List.length reports)))%Q.

(** A score as [computeScore] returns it. *)
Definition percentage (r : LintReport) : Prop :=
  exists z, score r = IInt z /\ (0 <= z <= 100)%Z.

(** ** Notions used to state what [lintAll] computes, and a sample repository *)

(** Equality of integral results, to check the finitely many means of up to
    ten percentages. *)
Definition integral_same (x y : integral) : bool :=
  match x, y with
  | IInt a, IInt b => Z.eqb a b
  | _, _ => false
  end.

Definition upTo (n : nat) : list Z := map Z.of_nat (List.seq 0 (S n)).

Definition meanExact (n : nat) : bool :=
  forallb (fun t => integral_same (Math_round (div (ofZ t) (ofZ (Z.of_nat n))))
                      (IInt (round (inject_Z t / inject_Z (Z.of_nat n))%Q)))
    (upTo (100 * n)).

Definition scored (r : LintReport) : Prop := score r = computeScore (results r).

(** A repository with two context files that disagree on the package
    manager: the cross-document check reports an error. *)
Definition samplePath (a b : jsstring) : jsstring := a ++ js "/" ++ b.

Definition sampleExists (p : jsstring) : bool :=
  str_eqb p (js "/repo/AGENTS.md") || str_eqb p (js "/repo/CLAUDE.md").

Definition sampleRead (p : jsstring) : jsstring :=
  if str_eqb p (js "/repo/AGENTS.md")
  then js "# Setup" ++ [NL] ++ js "Run `npm install` first." ++ [NL]
       ++ js "# Testing" ++ [NL] ++ js "Run `npm test`."
  else js "# Build" ++ [NL] ++ js "Run `yarn run build`.".

Definition pmConflict : CheckResult :=
  {| checker := js "cross-consistency";
     issues := [ {| rule := js "cross-pm-conflict"; severity := error;
                    message := js "Conflicting package managers referenced across context files";
                    line := None;
                    context := Some (js "AGENTS.md: npm, CLAUDE.md: yarn");
                    suggestion := None |} ];
     passed := 0; failed := 0 |}.

Definition sampleLintAll (crossCheck : list FileContext -> CheckResult)
  : option (MultiLintReport * FrameworkState) :=
  lintAll toLowerCaseASCII samplePath samplePath (fun p => p) (fun _ p => p) sampleExists
    (fun _ => None) sampleRead (fun _ => emptyConfig) (js "2024-01-01T00:00:00.000Z")
    crossCheck initialFrameworkState (js "/repo").

Definition sampleReport : MultiLintReport :=
  match sampleLintAll (fun _ => pmConflict) with
  | Some (report, _) => report
  | None => aggregate [] pmConflict
  end.

Definition sampleState : FrameworkState :=
  match sampleLintAll (fun _ => pmConflict) with
  | Some (_, st) => st
  | None => initialFrameworkState
  end.

End Linter.

(* ================================================================== *)
(** * src/checkers/cross.ts: consistency across context files *)
(* ================================================================== *)

Module Cross.
Import JSString JSRegExp Types Checkers Linter.
Local Open Scope list_scope.

(** ** Package manager detection *)

(** [/\b<pm>\s+(<verb>|...)\b/] *)
Definition pmCommand (pm : string) (verbs : list regex) : RegExp :=
  re false (seq [Wordb; word pm; plus isSpace; Grp 1 (alts verbs); Wordb]).

Definition BUN : RegExp := pmCommand "bun" [word "install"; word "add"; word "run"].
Definition PNPM : RegExp := pmCommand "pnpm" [word "install"; word "add"; word "run"].
Definition YARN : RegExp := pmCommand "yarn" [word "install"; word "add"; word "run"].
Definition NPM : RegExp := pmCommand "npm" [word "install"; word "run"; word "ci"].

(** [detectPM]: [None] is [null]. *)
Definition detectPM (content : jsstring) : option jsstring :=
  if test BUN content then Some (js "bun")
  else if test PNPM content then Some (js "pnpm")
  else if test YARN content then Some (js "yarn")
  else if test NPM content then Some (js "npm")
  else None.

(** ** Script role classification *)

(** [.] without the [s] flag. *)
Definition anyChar (c : codeUnit) : bool := negb (isLineTerminator c).

(** [^name$] with an optional suffix of a colon and any characters before
    the [$], and [^name$] alone. *)
Definition suffixed (name : string) : regex :=
  seq [Bol; word name; Alt (Cat (Chr 58%N) (star anyChar)) Eps; Eol].
Definition exactly (name : string) : regex := seq [Bol; word name; Eol].

Definition SCRIPT_ROLES : list (jsstring * RegExp) :=
  [ (js "test",
     re true (alts [suffixed "test"; suffixed "e2e"; suffixed "spec"; suffixed "cypress";
                    suffixed "jest"; suffixed "vitest"]));
    (js "build", re true (alts [suffixed "build"; suffixed "compile"; suffixed "bundle"]));
    (js "lint", re true (alts [suffixed "lint"; suffixed "eslint"; suffixed "check"]));
    (js "dev", re true (alts [exactly "dev"; exactly "development"; exactly "start"; exactly "serve"])) ].

(** [getRole]: the first role whose pattern matches; [None] is [null]. *)
Definition getRole (script : jsstring) : option jsstring :=
  option_map fst (find (fun entry => test (snd entry) script) SCRIPT_ROLES).

(** A [Map<string, Set<string>>]: its entries in insertion order. *)
Definition roleMap := list (jsstring * list jsstring).

(** [if (!map.has(role)) map.set(role, new Set()); map.get(role)!.add(s)] *)
Fixpoint addToRole (role s : jsstring) (m : roleMap) : roleMap :=
  match m with
  | [] => [(role, [s])]
  | (r, scripts) :: m' =>
      if str_eqb r role then (r, set_add scripts s) :: m'
      else (r, scripts) :: addToRole role s m'
  end.

Definition groupByRole (scripts : list jsstring) : roleMap :=
  fold_left (fun m s => match getRole s with
                        | Some role => addToRole role s m
                        | None => m
                        end) scripts [].

(** ** The checker *)

Definition ARROW : codeUnit := 8594%N.

Definition pmConflictIssue (detail : jsstring) : LintIssue :=
  {| rule := js "cross-pm-conflict";
     severity := error;
     message := js "Conflicting package managers referenced across context files";
     line := None;
     context := Some detail;
     suggestion := Some (js "Pick one package manager and update all context files to use it consistently.") |}.

Definition scriptConflictIssue (role detail : jsstring) : LintIssue :=
  {| rule := js "cross-script-conflict-" ++ role;
     severity := warn;
     message := js "Conflicting " ++ role ++ js " commands across context files";
     line := None;
     context := Some detail;
     suggestion := Some (js "Agents reading different files will use different " ++ role
                         ++ js " commands. Align them to use the same command.") |}.

(** [files.filter((f) => f.relativePath !== exclude)] *)
Definition otherFiles (files : list FileContext) (exclude : jsstring) : list FileContext :=
  filter (fun f => negb (str_eqb (relativePath f) exclude)) files.

Definition pathAsymmetryIssue (files : list FileContext) (file : FileContext) (p : jsstring)
  : LintIssue :=
  let others2 := join (js ", ") (List.map relativePath (otherFiles files (relativePath file))) in
  {| rule := js "cross-path-asymmetry";
     severity := info;
     message := js "Path " ++ quoted p ++ js " referenced in " ++ relativePath file
                ++ js " but not in " ++ others2;
     line := None;
     context := None;
     suggestion := Some (js "Consider documenting this path in all context files, or verify it is still relevant.") |}.

(** Check 1: [pmByFile], [distinctPMs], and the issue or the pass. *)
Definition checkPackageManagers (files : list FileContext) : list LintIssue * nat :=
  let pmByFile := List.map (fun f => (relativePath f, detectPM (rawContent (parsed f)))) files in
  let distinctPMs :=
    setOf (flat_map (fun f => match snd f with Some pm => [pm] | None => [] end) pmByFile) in
  if 1 <? List.length distinctPMs then
    let detail :=
      join (js ", ")
        (flat_map (fun f => match snd f with
                            | Some pm => [fst f ++ js " " ++ [ARROW] ++ js " " ++ pm]
                            | None => []
                            end) pmByFile) in
    ([pmConflictIssue detail], 0)
  else ([], 1).

(** [rolesByFile.map(...).filter(...)]: the files that have scripts of the
    role, with these scripts. *)
Definition filesWithRole (rolesByFile : list (jsstring * roleMap)) (role : jsstring)
  : list (jsstring * list jsstring) :=
  flat_map (fun f => match assoc role (snd f) with
                     | Some scripts => if 0 <? List.length scripts then [(fst f, scripts)]
                                       else []
                     | None => []
                     end) rolesByFile.

(** The body of [for (const role of allRoles)]. *)
Definition roleStep (rolesByFile : list (jsstring * roleMap))
  (acc : list LintIssue * nat) (role : jsstring) : list LintIssue * nat :=
  let '(iss, passed) := acc in
  let withRole := filesWithRole rolesByFile role in
  if List.length withRole <? 2 then acc
  else
    let allScripts := setOf (flat_map snd withRole) in
    if 1 <? List.length allScripts then
      let detail :=
        join (js " vs ")
          (List.map (fun f => fst f ++ js " " ++ [ARROW] ++ js " " ++ join (js ", ") (snd f))
             withRole) in
      (iss ++ [scriptConflictIssue role detail], passed)
    else (iss, S passed).

(** [p.split('/').filter(Boolean).length < 3] *)
Definition insignificant (p : jsstring) : bool :=
  List.length (filter (fun segment => negb (str_eqb segment [])) (split 47%N p)) <? 3.

(** [[...others].some((op) => op === p || p.startsWith(op + '/') ||
    op.startsWith(p + '/'))] *)
Definition covered (others : list jsstring) (p : jsstring) : bool :=
  existsb (fun op => str_eqb op p || startsWith (op ++ js "/") p || startsWith (p ++ js "/") op)
    others.

(** [allOtherPaths(exclude)] *)
Definition allOtherPaths (files : list FileContext) (exclude : jsstring) : list jsstring :=
  setOf (flat_map (fun f => mentionedPaths (parsed f)) (otherFiles files exclude)).

(** The body of [for (const p of file.parsed.mentionedPaths)]; after the
    [break] the remaining iterations do nothing.  The state is [issues] and
    [pathIssueCount]. *)
Definition pathStep (files : list FileContext) (file : FileContext) (others : list jsstring)
  (acc : list LintIssue * nat) (p : jsstring) : list LintIssue * nat :=
  let '(iss, pathIssueCount) := acc in
  if 5 <=? pathIssueCount then acc
  else if insignificant p then acc
  else if negb (covered others p) then
    (iss ++ [pathAsymmetryIssue files file p], S pathIssueCount)
  else acc.

(** The body of [for (const file of files)], with [passed] as third
    variable. *)
Definition fileStep (files : list FileContext)
  (acc : list LintIssue * nat * nat) (file : FileContext) : list LintIssue * nat * nat :=
  let '(iss, pathIssueCount, passed) := acc in
  if 5 <=? pathIssueCount then acc
  else
    let others := allOtherPaths files (relativePath file) in
    let '(iss', pathIssueCount') :=
      fold_left (pathStep files file others) (mentionedPaths (parsed file))
        (iss, pathIssueCount) in
    (iss', pathIssueCount', if pathIssueCount' =? 0 then S passed else passed).

Definition checkCrossConsistency (files : list FileContext) : CheckResult :=
  if List.length files <? 2 then
    {| checker := js "cross-consistency"; issues := []; passed := 0; failed := 0 |}
  else
    let acc1 := checkPackageManagers files in
    let rolesByFile :=
      List.map (fun f => (relativePath f, groupByRole (mentionedScripts (parsed f)))) files in
    let allRoles := setOf (flat_map (fun f => List.map fst (snd f)) rolesByFile) in
    let '(iss2, passed2) := fold_left (roleStep rolesByFile) allRoles acc1 in
    let '(iss3, _, passed3) := fold_left (fileStep files) files (iss2, 0, passed2) in
    {| checker := js "cross-consistency"; issues := iss3; passed := passed3;
       failed := List.length iss3 |}.

(** ** Notions used to state what the cross-document check reports *)

(** The paths of a file that the third check flags when nothing stops it:
    three segments or more, and covered by no other file. *)
Definition asymmetric (files : list FileContext) (file : FileContext) : list jsstring :=
  filter (fun p => negb (insignificant p)
                   && negb (covered (allOtherPaths files (relativePath file)) p))
    (mentionedPaths (parsed file)).

(** All of them, file by file, each with its file. *)
Definition asymmetricPairs (files : list FileContext) : list (FileContext * jsstring) :=
  flat_map (fun file => List.map (fun p => (file, p)) (asymmetric files file)) files.

(** The files before the first one that has such a path. *)
Fixpoint leadingSymmetric (files : list FileContext) (l : list FileContext)
  : list FileContext :=
  match l with
  | [] => []
  | file :: l' =>
      match asymmetric files file with
      | [] => file :: leadingSymmetric files l'
      | _ :: _ => []
      end
  end.

(** The file mentions a script of the role. *)
Definition mentionsRole (role : jsstring) (file : FileContext) : bool :=
  existsb (fun s => match getRole s with Some r => str_eqb r role | None => false end)
    (mentionedScripts (parsed file)).

(** Two files that name different package managers. *)
Definition managersConflict (files : list FileContext) : Prop :=
  exists f g pm pm',
    In f files /\ In g files
    /\ detectPM (rawContent (parsed f)) = Some pm
    /\ detectPM (rawContent (parsed g)) = Some pm' /\ pm <> pm'.

(** The script [s] is classified under [role]. *)
Definition hasRole (role s : jsstring) : Prop := getRole s = Some role.

(** What [groupByRole] holds after the scripts [seen]. *)
Definition grouped (seen : list jsstring) (m : roleMap) : Prop :=
  forall role,
    match assoc role m with
    | Some l => l <> [] /\ forall s, In s l <-> In s seen /\ hasRole role s
    | None => forall s, In s seen -> ~ hasRole role s
    end.

(** [rolesByFile] *)
Definition rolesOf (files : list FileContext) : list (jsstring * roleMap) :=
  List.map (fun f => (relativePath f, groupByRole (mentionedScripts (parsed f)))) files.

(** Two files or more mention scripts of the role, and not all the same one. *)
Definition roleConflict (files : list FileContext) (role : jsstring) : Prop :=
  2 <= List.length (filter (mentionsRole role) files)
  /\ exists f g s s',
       In f files /\ In g files
       /\ In s (mentionedScripts (parsed f)) /\ In s' (mentionedScripts (parsed g))
       /\ hasRole role s /\ hasRole role s' /\ s <> s'.

(** Two files or more mention scripts of the role, all the same one. *)
Definition roleAgreement (files : list FileContext) (role : jsstring) : Prop :=
  2 <= List.length (filter (mentionsRole role) files) /\ ~ roleConflict files role.

(** The issues of the second check: one for each role in conflict, in the
    order of [roles]. *)
Inductive roleIssues (files : list FileContext)
  : list jsstring -> list LintIssue -> nat -> Prop :=
| roleIssues_nil : roleIssues files [] [] 0
| roleIssues_conflict role roles detail iss n :
    roleConflict files role -> roleIssues files roles iss n ->
    roleIssues files (role :: roles) (scriptConflictIssue role detail :: iss) n
| roleIssues_agree role roles iss n :
    roleAgreement files role -> roleIssues files roles iss n ->
    roleIssues files (role :: roles) iss (S n)
| roleIssues_single role roles iss n :
    List.length (filter (mentionsRole role) files) < 2 -> roleIssues files roles iss n ->
    roleIssues files (role :: roles) iss n.

(** The issue of a file and one of its paths. *)
Definition pairIssue (files : list FileContext) (fp : FileContext * jsstring) : LintIssue :=
  pathAsymmetryIssue files (fst fp) (snd fp).

End Cross.

(* ================================================================== *)
(** * src/reporter.ts: the score bar of the text report *)
(* ================================================================== *)

Module ReportText.
Import JSString JSNumber Types Reporter.
Local Open Scope Z_scope.

Definition ESC : codeUnit := 27%N.
Definition RESET : jsstring := ESC :: js "[0m".
Definition RED : jsstring := ESC :: js "[31m".
Definition YELLOW : jsstring := ESC :: js "[33m".
Definition GREEN : jsstring := ESC :: js "[32m".
Definition GRAY : jsstring := ESC :: js "[90m".

(** The two cells of the bar, U+2588 and U+2591. *)
Definition FULL_BLOCK : codeUnit := 9608%N.
Definition LIGHT_SHADE : codeUnit := 9617%N.

Definition scoreColor (score : integral) : jsstring :=
  if geb score 80 then GREEN
  else if geb score 50 then YELLOW
  else RED.

(** [s.repeat(count)]: the count is truncated to an integer ([NaN] counts as
    0); [None] is the [RangeError] of a negative or infinite count. *)
Definition repeatString (s : jsstring) (count : number) : option jsstring :=
  match count with
  | S754_nan | S754_zero _ => Some []
  | S754_infinity _ => None
  | S754_finite negative _ _ =>
      let n := if negative then Qceiling (toQ count) else Qfloor (toQ count) in
      if n <? 0 then None else Some (List.concat (repeat s (Z.to_nat n)))
  end.

(** [scoreBar]; [None] when one of the two [repeat] calls throws. *)
Definition scoreBar (score : integral) : option jsstring :=
  let width := 20 in
  let filled := Math_round (mul (div (ofIntegral score) (ofZ 100)) (ofZ width)) in
  let color := scoreColor score in
  match repeatString [FULL_BLOCK] (ofIntegral filled) with
  | Some full =>
      match repeatString [LIGHT_SHADE] (sub (ofZ width) (ofIntegral filled)) with
      | Some light => Some (color ++ full ++ GRAY ++ light ++ RESET)
      | None => None
      end
  | None => None
  end.

(** ** Notions used to state what the bar shows *)

(** [n] cells, and the bar with [filled] of its 20 cells full. *)
Definition cells (c : codeUnit) (n : Z) : jsstring := repeat c (Z.to_nat n).
Definition barOf (color : jsstring) (filled : Z) : jsstring :=
  color ++ cells FULL_BLOCK filled ++ GRAY ++ cells LIGHT_SHADE (20 - filled) ++ RESET.

(** The bar of the score [z] is the one with [round(z / 5)] full cells. *)
Definition barExact (z : Z) : bool :=
  match scoreBar (IInt z) with
  | Some bar => str_eqb bar (barOf (scoreColor (IInt z)) ((z + 2) / 5))
  | None => false
  end.


End ReportText.

(* ================================================================== *)
(** * Notions used to state further properties of the pipeline *)
(* ================================================================== *)

Module ParserNotions.
Import JSString JSRegExp Types Parser.
Local Open Scope list_scope.

(** The lines of a section below its heading line. *)
Definition bodyLines (lns : list jsstring) (s : ParsedSection) : list jsstring :=
  firstn (Z.to_nat (endLine s - startLine s)) (skipn (S (Z.to_nat (startLine s))) lns).

(** [lines.map((l) => l + '\n').join('')] *)
Definition withNewlines (lns : list jsstring) : jsstring :=
  List.concat (List.map (fun l => l ++ [NL]) lns).

(** A section whose bounds lie in the document, and whose content is its
    body lines, none of them a heading, each followed by a newline. *)
Definition wellBodied (lns : list jsstring) (s : ParsedSection) : Prop :=
  (0 <= startLine s <= endLine s)%Z /\ (endLine s < Z.of_nat (List.length lns))%Z
  /\ content s = withNewlines (bodyLines lns s)
  /\ Forall (fun l => isHeading l = false) (bodyLines lns s).

(** The invariant of the scan of [parseSections] on bodies and counts. *)
Definition bodied (pre : list jsstring) (st : scan) : Prop :=
  Forall (wellBodied pre) (fst st)
  /\ List.length (fst st) + (match snd st with Some _ => 1 | None => 0 end) = List.length (filter isHeading pre)
  /\ match snd st with
     | Some cs =>
         (0 <= startLine cs < Z.of_nat (List.length pre))%Z
         /\ content cs = withNewlines (skipn (S (Z.to_nat (startLine cs))) pre)
         /\ Forall (fun l => isHeading l = false) (skipn (S (Z.to_nat (startLine cs))) pre)
     | None => True
     end.

(** The characters of a script name: [[\w:-]]. *)
Definition isScriptChar (c : codeUnit) : bool := isWord c || oneOf ":-" c.

(** Every capture made so far is a non-empty text of characters of the
    class [P]. *)
Definition capsIn (P : codeUnit -> bool) (caps : list (nat * jsstring)) : Prop :=
  Forall (fun e => snd e <> [] /\ forallb P (snd e) = true) caps.

(** Every capturing group of [r] is a repetition, at least once, of a class
    within [P]. *)
Fixpoint groupsIn (P : codeUnit -> bool) (r : regex) : Prop :=
  match r with
  | Grp _ (Rep p lo _) => 1 <= lo /\ forall c, p c = true -> P c = true
  | Grp _ _ => False
  | Cat r1 r2 | Alt r1 r2 => groupsIn P r1 /\ groupsIn P r2
  | _ => True
  end.

(** [FRAMEWORK_PATTERNS] as a table of literal texts. *)
Definition FRAMEWORK_WORDS : list (jsstring * list string) :=
  [ (js "angular", ["NgModule"; "forRoot()"; "ngcc"; "ViewChild"]);
    (js "react", ["React.Component"; "componentDidMount"; "componentWillMount"]);
    (js "vue", ["Vue.use"; "new Vue("]);
    (js "node", ["require("; "module.exports"]) ]%string.

(** One of the texts occurs in the content. *)
Definition mentionsAny (content : jsstring) (ws : list string) : bool :=
  existsb (fun w => includes (js w) content) ws.

(** The pattern [/w/g] of a literal text. *)
Definition literal (w : string) : RegExp :=
  {| source := word w; ignoreCase := false; global := true |}.

End ParserNotions.

Module CheckerNotions.
Import JSString JSRegExp Types Checkers.
Local Open Scope list_scope.

(** [mentionedPath.startsWith('http') || mentionedPath.startsWith('$')]: the
    paths [checkFilesystem] passes over. *)
Definition skippedPath (p : jsstring) : bool :=
  startsWith (js "http") p || startsWith (js "$") p.

(** A loop body that skips an item, counts it as passed, or counts it as
    failed and pushes its issue. *)
Definition triage {A : Type} (skip ok : A -> bool) (issue : A -> LintIssue)
  (acc : tally) (x : A) : tally :=
  if skip x then acc
  else if ok x then
    {| t_issues := t_issues acc; t_passed := S (t_passed acc); t_failed := t_failed acc |}
  else
    {| t_issues := t_issues acc ++ [issue x];
       t_passed := t_passed acc; t_failed := S (t_failed acc) |}.

(** An issue's line, when it has one, is a 1-based line number of the
    document, and its context, when it has one, is that line trimmed. *)
Definition located (lns : list jsstring) (i : LintIssue) : Prop :=
  match line i with
  | Some n => 1 <= n <= List.length lns
              /\ forall c, context i = Some c ->
                           exists l, nth_error lns (n - 1) = Some l /\ c = trim l
  | None => context i = None
  end.

(** [ignorePatterns.some((p) => dep.includes(p))] *)
Definition ignoredDependency (config : LintConfig) (dep : jsstring) : bool :=
  existsb (fun p => includes p dep)
    (match ignorePatterns config with Some l => l | None => [] end).

(** The three ways [checkDependencies] finds a mentioned package among the
    declared ones: by its name, by its [@types/] package, or as a part of a
    declared name (both in lower case, a leading [@types/] dropped). *)
Definition installedDependency (toLowerCase : jsstring -> jsstring)
  (allDeps : list jsstring) (dep : jsstring) : bool :=
  set_has dep allDeps
  || set_has (js "@types/" ++ dep) allDeps
  || existsb (fun d => includes (replaceFirst TYPES_PREFIX (fun _ => []) (toLowerCase dep))
                         (toLowerCase d)) allDeps.

(** [commonFrameworks.has(dep.toLowerCase())] *)
Definition commonFramework (toLowerCase : jsstring -> jsstring) (dep : jsstring) : bool :=
  set_has (toLowerCase dep) commonFrameworks.

(** One of the three test scripts is declared. *)
Definition hasTestScript (allScripts : list jsstring) : bool :=
  set_has (js "test") allScripts || set_has (js "test:unit") allScripts
  || set_has (js "test:run") allScripts.

(** The issue [checkStructure] pushes for a section that is not found, and
    for a quality check that fires. *)
Definition sectionIssue (config : LintConfig) (section : RecommendedSection) : LintIssue :=
  {| rule := rs_rule section;
     severity := missingSectionSeverity config;
     message := rs_message section;
     line := None; context := None;
     suggestion := Some (rs_suggestion section) |}.

(** The issue of a quality check. *)
Definition qualityIssue (qc : QualityCheck) : LintIssue :=
  {| rule := qc_rule qc; severity := qc_severity qc; message := qc_message qc;
     line := None; context := None; suggestion := Some (qc_suggestion qc) |}.

(** [FRAMEWORK_CHECKS[framework] ?? []] *)
Definition checksOf (framework : jsstring) : list FrameworkCheck :=
  match assoc framework FRAMEWORK_CHECKS with Some l => l | None => [] end.

(** [check.pattern.test(parsed.rawContent)] *)
Definition fires (parsed : ParsedAgentsMd) (c : FrameworkCheck) : bool :=
  test (fc_pattern c) (rawContent parsed).

End CheckerNotions.

Module FixNotions.
Import JSString JSRegExp Types Fix.
Local Open Scope list_scope.

(** [answer === 'q' || answer === 'quit'] *)
Definition isQuit (answer : jsstring) : bool :=
  str_eqb answer (js "q") || str_eqb answer (js "quit").

(** [answer === 'y' || answer === 'yes'] *)
Definition isYes (answer : jsstring) : bool :=
  str_eqb answer (js "y") || str_eqb answer (js "yes").

(** Nothing has been accepted. *)
Definition undecided (st : session) : Prop :=
  linesToRemove st = [] /\ sectionsToAdd st = [].

(** The session has not gone past question [k]. *)
Definition within (k : nat) (st : session) : Prop :=
  asked st <= k \/ quit st = true.



(** The answers [q], then [y] to everything. *)
Definition quitFirst (i : nat) : jsstring := if i =? 0 then js "q" else js "y".

(** The [ask] of [makeAsker] when the answers were read from a pipe:
    [answers[idx++] ?? ''], on lines that [readAllStdinLines] has trimmed and
    put in lower case. *)
Definition askPiped (answers : list jsstring) (i : nat) : jsstring := nth i answers [].

(** The number of fixes a session has accepted. *)
Definition accepted (st : session) : nat :=
  List.length (linesToRemove st) + List.length (sectionsToAdd st).

(** The heading [getSectionTemplate] derives from the name in a custom
    section rule: dashes become spaces, and the first letter of every word
    an upper-case one. *)
Definition customTitle (name : jsstring) : jsstring :=
  let spaced := replaceAll DASH (fun _ => js " ") name in
  replaceAll WORD_START (fun c => toUpperCaseASCII (matched spaced c)) spaced.

(** The template of a custom section. *)
Definition customTemplate (name : jsstring) : jsstring :=
  [NL] ++ js "## " ++ customTitle name ++ [NL; NL] ++ js "<!-- TODO: add " ++ customTitle name
  ++ js " content -->" ++ [NL].

(** A name [.+] matches to its end: not empty, on one line. *)
Definition singleLine (name : jsstring) : bool :=
  negb (str_eqb name []) && forallb (fun c => negb (isLineTerminator c)) name.

End FixNotions.

Module LinterNotions.
Import JSString Types Linter.
Local Open Scope list_scope.

(** The key under which [lintAll] remembers a file it has seen:
    [path.resolve(p).toLowerCase()]. *)
Definition fileKey (toLowerCase : jsstring -> jsstring) (path_absolute : jsstring -> jsstring)
  (p : jsstring) : jsstring := toLowerCase (path_absolute p).



End LinterNotions.

(* ================================================================== *)
(** * Facts about binary64 rounding (Stdlib SpecFloat) *)
(* ================================================================== *)

Module Binary64Facts.
Local Open Scope Z_scope.

Lemma digits2_size m : digits2_pos m = Pos.size m.
Proof. induction m; simpl; congruence. Qed.

Lemma digits_bounds m : 2 ^ (Zpos (digits2_pos m) - 1) <= Zpos m < 2 ^ Zpos (digits2_pos m).
Proof.
  rewrite digits2_size. split.
  - pose proof (Pos.size_le m) as H.
    assert (Zpos (2 ^ Pos.size m) <= Zpos m~0) by exact H.
    rewrite Pos2Z.inj_pow in H0.
    replace (Zpos (Pos.size m)) with (Zpos (Pos.size m) - 1 + 1) in H0 by lia.
    rewrite Z.pow_add_r in H0 by lia. lia.
  - pose proof (Pos.size_gt m) as H.
    assert (Zpos m < Zpos (2 ^ Pos.size m)) by exact H.
    now rewrite Pos2Z.inj_pow in H0.
Qed.

(* digits is determined by bounds *)
Lemma digits_unique m d : 0 < d -> 2 ^ (d - 1) <= Zpos m < 2 ^ d -> Zpos (digits2_pos m) = d.
Proof.
  intros Hd [H1 H2]. destruct (digits_bounds m) as [H3 H4].
  set (k := Zpos (digits2_pos m)) in *.
  assert (0 < k) by (unfold k; lia).
  destruct (Z.lt_trichotomy k d) as [L|[E|G]]; auto.
  - assert (2 ^ k <= 2 ^ (d - 1)) by (apply Z.pow_le_mono_r; lia). lia.
  - assert (2 ^ d <= 2 ^ (k - 1)) by (apply Z.pow_le_mono_r; lia). lia.
Qed.

Lemma iter_xO m d : Zpos (Pos.iter xO m d) = Zpos m * 2 ^ Zpos d.
Proof.
  revert m. induction d using Pos.peano_ind; intros.
  - simpl. lia.
  - rewrite Pos.iter_succ. rewrite Pos2Z.inj_xO, IHd, Pos2Z.inj_succ, Z.pow_succ_r by lia. lia.
Qed.

Lemma iter_pos_iter {A} (f : A -> A) p x : iter_pos f p x = Pos.iter f x p.
Proof.
  revert x. induction p; intros; simpl.
  - rewrite !IHp. rewrite <- Pos.iter_swap. rewrite <- Pos.iter_swap. reflexivity.
  - rewrite !IHp. reflexivity.
  - reflexivity.
Qed.

Lemma Zdigits2_bounds m : 0 <= m -> m < 2 ^ Zdigits2 m /\ (0 < m -> 2 ^ (Zdigits2 m - 1) <= m) /\ 0 <= Zdigits2 m.
Proof.
  intros H. destruct m as [|p|p].
  - simpl. repeat split; lia.
  - pose proof (digits_bounds p). simpl Zdigits2. repeat split; try lia.
  - lia.
Qed.

Lemma shr_1_spec r : 0 <= shr_m r ->
  shr_1 r = {| shr_m := shr_m r / 2; shr_r := Z.odd (shr_m r); shr_s := shr_r r || shr_s r |}.
Proof.
  destruct r as [m r s]. simpl. intros H.
  destruct m as [|p|p]; try lia.
  - reflexivity.
  - destruct p; simpl.
    + f_equal. rewrite Pos2Z.inj_xI. symmetry.
      replace (2 * Zpos p + 1) with (1 + Zpos p * 2) by lia.
      rewrite Z.div_add by lia. reflexivity.
    + f_equal. rewrite Pos2Z.inj_xO. symmetry.
      rewrite Z.mul_comm, Z.div_mul by lia. reflexivity.
    + reflexivity.
Qed.

Lemma shr_iter_m p r : 0 <= shr_m r ->
  shr_m (Pos.iter shr_1 r p) = shr_m r / 2 ^ Zpos p.
Proof.
  intros H. induction p using Pos.peano_ind.
  - cbn [Pos.iter]. rewrite shr_1_spec by assumption. reflexivity.
  - rewrite Pos.iter_succ.
    assert (0 <= shr_m (Pos.iter shr_1 r p)).
    { rewrite IHp. apply Z.div_pos; lia. }
    rewrite shr_1_spec by assumption. cbn [shr_m]. rewrite IHp.
    rewrite Pos2Z.inj_succ, Z.pow_succ_r by lia.
    rewrite Z.div_div by lia. f_equal. lia.
Qed.

Lemma shr_iter_exact p m : 0 <= m -> m mod 2 ^ Zpos p = 0 ->
  Pos.iter shr_1 {| shr_m := m; shr_r := false; shr_s := false |} p
  = {| shr_m := m / 2 ^ Zpos p; shr_r := false; shr_s := false |}.
Proof.
  intros H. induction p using Pos.peano_ind; intros Hm.
  - cbn [Pos.iter]. rewrite shr_1_spec by assumption. cbn [shr_m shr_r shr_s orb].
    f_equal. change (2 ^ 1) with 2 in Hm. rewrite Zodd_mod, Hm. reflexivity.
  - rewrite Pos.iter_succ.
    rewrite Pos2Z.inj_succ, Z.pow_succ_r in Hm by lia.
    assert (Hp : m mod 2 ^ Zpos p = 0).
    { apply Z.mod_divide; [lia|]. apply Z.mod_divide in Hm; [|lia].
      destruct Hm as [k Hk]. exists (k * 2). lia. }
    rewrite IHp by assumption.
    rewrite shr_1_spec by (cbn [shr_m]; apply Z.div_pos; lia). cbn [shr_m shr_r shr_s orb].
    rewrite Pos2Z.inj_succ, Z.pow_succ_r by lia.
    f_equal.
    + rewrite Z.div_div by lia. f_equal. lia.
    + apply Z.mod_divide in Hm; [|lia]. destruct Hm as [k Hk].
      subst m. replace (k * (2 * 2 ^ Zpos p)) with (k * 2 * 2 ^ Zpos p) by lia.
      rewrite Z.div_mul by lia. rewrite Z.odd_mul. simpl. apply andb_false_r.
Qed.

Lemma round_nearest_even_range m l : 0 <= m ->
  m <= round_nearest_even m l <= m + 1.
Proof.
  intros. destruct l as [|[| |]]; simpl; try lia.
  destruct (Z.even m); lia.
Qed.

Lemma fexp_eq e : fexp prec emax e = Z.max (e - 53) (-1074).
Proof. reflexivity. Qed.

Lemma shr_record_of_loc_m m l : shr_m (shr_record_of_loc m l) = m.
Proof. destruct l as [|[| |]]; reflexivity. Qed.

Lemma shr_spec mrs e n : 0 <= shr_m mrs ->
  shr_m (fst (shr mrs e n)) = shr_m mrs / 2 ^ Z.max 0 n /\ snd (shr mrs e n) = e + Z.max 0 n.
Proof.
  intros H. destruct n as [|p|p]; cbn [shr fst snd].
  - simpl. rewrite Z.div_1_r. lia.
  - rewrite iter_pos_iter, shr_iter_m by assumption.
    rewrite Z.max_r by lia. lia.
  - rewrite Z.max_l by lia. simpl. rewrite Z.div_1_r. lia.
Qed.

Lemma Zdigits2_le m k : 0 <= m -> 0 <= k -> m < 2 ^ k -> Zdigits2 m <= k.
Proof.
  intros Hm Hk H. destruct (Zdigits2_bounds m Hm) as (_ & H2 & H3).
  destruct (Z.eq_dec m 0) as [->|Hne]; [simpl; lia|].
  assert (Hpos : 0 < m) by lia. specialize (H2 Hpos).
  destruct (Z_le_gt_dec (Zdigits2 m) k); auto.
  assert (2 ^ k <= 2 ^ (Zdigits2 m - 1)) by (apply Z.pow_le_mono_r; lia). lia.
Qed.

(** Shape of the result of [binary_round_aux] on a non-negative mantissa. *)
Lemma bra_shape s m e l : 0 <= m ->
  let e1 := Z.max e (fexp prec emax (Zdigits2 m + e)) in
  let r := binary_round_aux prec emax s m e l in
  r = S754_zero s \/
  (r = S754_infinity s /\ emax - prec < e1 + 1) \/
  exists m' e', r = S754_finite s m' e' /\ Zpos m' < 2 ^ 53 /\ -1074 <= e' <= e1 + 1 /\ e' <= emax - prec.
Proof.
  intros Hm e1 r. subst r. unfold binary_round_aux, shr_fexp.
  set (E := fexp prec emax (Zdigits2 m + e)) in *.
  assert (He1def : e1 = Z.max e E) by reflexivity. clearbody e1.
  pose proof (shr_spec (shr_record_of_loc m l) e (E - e)) as H1.
  rewrite shr_record_of_loc_m in H1. specialize (H1 Hm).
  destruct (shr (shr_record_of_loc m l) e (E - e)) as [mrs1 e1'] eqn:Hs1.
  cbn [fst snd] in H1. destruct H1 as [Hm1 He1].
  assert (He1' : e1' = e1) by lia. clear He1. subst e1'.
  assert (HE : E = Z.max (Zdigits2 m + e - 53) (-1074)) by (unfold E; apply fexp_eq).
  destruct (Zdigits2_bounds m Hm) as (Hd1 & Hd2 & Hd3).
  set (k := Z.max 0 (E - e)) in *.
  assert (Hk : 0 <= k) by (unfold k; lia).
  assert (Hm1b : 0 <= shr_m mrs1 < 2 ^ 53).
  { rewrite Hm1. split; [apply Z.div_pos; lia|].
    apply Z.div_lt_upper_bound; [lia|].
    rewrite <- Z.pow_add_r by lia.
    eapply Z.lt_le_trans; [exact Hd1|]. apply Z.pow_le_mono_r; lia. }
  set (m2 := round_nearest_even (shr_m mrs1) (loc_of_shr_record mrs1)).
  assert (Hm2 : shr_m mrs1 <= m2 <= shr_m mrs1 + 1) by (apply round_nearest_even_range; lia).
  assert (Hm2' : 0 <= m2) by lia.
  pose proof (shr_spec (shr_record_of_loc m2 loc_Exact) e1 (fexp prec emax (Zdigits2 m2 + e1) - e1)) as H2.
  rewrite shr_record_of_loc_m in H2. specialize (H2 Hm2').
  destruct (shr (shr_record_of_loc m2 loc_Exact) e1 (fexp prec emax (Zdigits2 m2 + e1) - e1)) as [mrs3 e3] eqn:Hs3.
  cbn [fst snd] in H2. destruct H2 as [Hm3 He3].
  rewrite fexp_eq in Hm3, He3.
  assert (He1min : -1074 <= e1) by lia.
  assert (Hfin : 0 <= shr_m mrs3 < 2 ^ 53 /\ e1 <= e3 <= e1 + 1).
  { destruct (Z.eq_dec m2 (2 ^ 53)) as [Heq|Hne].
    - rewrite Heq in Hm3, He3. change (Zdigits2 (2 ^ 53)) with 54 in Hm3, He3.
      replace (Z.max 0 (Z.max (54 + e1 - 53) (-1074) - e1)) with 1 in Hm3, He3 by lia.
      rewrite Hm3. change (2 ^ 53 / 2 ^ 1) with (2 ^ 52). lia.
    - assert (m2 < 2 ^ 53) by lia.
      assert (Zdigits2 m2 <= 53) by (apply Zdigits2_le; lia).
      replace (Z.max 0 (Z.max (Zdigits2 m2 + e1 - 53) (-1074) - e1)) with 0 in Hm3, He3 by lia.
      rewrite Z.pow_0_r, Z.div_1_r in Hm3. lia. }
  destruct (shr_m mrs3) as [|p|p] eqn:Hp.
  - left. reflexivity.
  - right. destruct (Z.leb_spec e3 (emax - prec)).
    + right. exists p, e3. repeat split; try lia.
    + left. split; [reflexivity|]. lia.
  - lia.
Qed.

Lemma Zdigits2_unique m d : 0 < m -> 2 ^ (d - 1) <= m < 2 ^ d -> Zdigits2 m = d.
Proof.
  intros Hm H. destruct m as [|p|p]; try lia.
  simpl. apply digits_unique; [|assumption].
  destruct (Z_lt_le_dec 0 d); auto.
  assert (2 ^ d <= 2 ^ 0) by (apply Z.pow_le_mono_r; lia). simpl in *. lia.
Qed.

Lemma Zdigits2_div_pow2 m k : 0 < m -> 0 <= k -> m mod 2 ^ k = 0 ->
  0 < m / 2 ^ k /\ Zdigits2 (m / 2 ^ k) = Zdigits2 m - k.
Proof.
  intros Hm Hk Hdiv.
  assert (Hp : 0 < 2 ^ k) by lia.
  apply Z.div_exact in Hdiv; [|lia].
  set (q := m / 2 ^ k) in *.
  assert (Hq : 0 < q) by nia.
  split; [assumption|].
  destruct (Zdigits2_bounds m) as (H1 & H2 & H3); [lia|]. specialize (H2 Hm).
  set (d := Zdigits2 m) in *.
  assert (Hdk : k < d).
  { destruct (Z_lt_le_dec k d); auto.
    assert (2 ^ d <= 2 ^ k) by (apply Z.pow_le_mono_r; lia). nia. }
  apply Zdigits2_unique; [assumption|].
  replace d with (d - k + k) in H1 by lia.
  replace (d - 1) with (d - k - 1 + k) in H2 by lia.
  rewrite Z.pow_add_r in H1, H2 by lia.
  split; nia.
Qed.

Lemma shr_exact m e n : 0 < m -> 0 <= n -> m mod 2 ^ n = 0 ->
  shr (shr_record_of_loc m loc_Exact) e n
  = ({| shr_m := m / 2 ^ n; shr_r := false; shr_s := false |}, e + n).
Proof.
  intros Hm Hn Hdiv. destruct n as [|p|p]; try lia; cbn [shr shr_record_of_loc].
  - simpl. rewrite Z.div_1_r. f_equal. lia.
  - rewrite iter_pos_iter, shr_iter_exact by (assumption || lia). reflexivity.
Qed.

(** [binary_round_aux] is exact on a mantissa whose dropped bits are all zero. *)
Lemma bra_exact s m e : 0 < m ->
  let E := fexp prec emax (Zdigits2 m + e) in
  e <= E -> m mod 2 ^ (E - e) = 0 -> E <= emax - prec ->
  binary_round_aux prec emax s m e loc_Exact = S754_finite s (Z.to_pos (m / 2 ^ (E - e))) E.
Proof.
  intros Hm E HeE Hdiv Hmax.
  unfold binary_round_aux, shr_fexp. fold E.
  rewrite shr_exact by (assumption || lia).
  cbn [shr_m loc_of_shr_record round_nearest_even].
  destruct (Zdigits2_div_pow2 m (E - e)) as [Hq Hd]; try (assumption || lia).
  set (q := m / 2 ^ (E - e)) in *.
  replace (e + (E - e)) with E by lia.
  assert (HE' : fexp prec emax (Zdigits2 q + E) = E).
  { rewrite Hd. replace (Zdigits2 m - (E - e) + E) with (Zdigits2 m + e) by lia. reflexivity. }
  rewrite HE', Z.sub_diag.
  rewrite shr_exact by (try lia; rewrite Z.pow_0_r; apply Z.mod_1_r).
  cbn [shr_m]. rewrite Z.pow_0_r, Z.div_1_r, Z.add_0_r.
  destruct q as [|p|p] eqn:Hqe; try lia.
  apply Z.leb_le in Hmax. rewrite Hmax. reflexivity.
Qed.

Lemma shl_align_spec m e e' :
  shl_align m e e' = if e' <? e then (Z.to_pos (Zpos m * 2 ^ (e - e')), e') else (m, e).
Proof.
  unfold shl_align. destruct (Z.ltb_spec e' e) as [H|H].
  - destruct (e' - e) as [|p|p] eqn:Hd; try lia.
    f_equal. apply Pos2Z.inj. rewrite iter_xO.
    rewrite Z2Pos.id by lia. f_equal. f_equal. lia.
  - destruct (e' - e) as [|p|p] eqn:Hd; try lia; reflexivity.
Qed.

(** [binary_round] returns [m * 2^e] unchanged when that value fits the format. *)
Lemma binary_round_exact s m e :
  let E := fexp prec emax (Zpos (digits2_pos m) + e) in
  Zpos m mod 2 ^ Z.max 0 (E - e) = 0 -> E <= emax - prec ->
  exists m', binary_round prec emax s m e = S754_finite s m' E
             /\ Zpos m' * 2 ^ Z.max 0 (E - e) = Zpos m * 2 ^ Z.max 0 (e - E).
Proof.
  intros E Hdiv Hmax. unfold binary_round. fold E. rewrite shl_align_spec.
  destruct (Z.ltb_spec E e) as [H|H].
  - set (mz := Zpos m * 2 ^ (e - E)).
    assert (Hmz : 0 < mz) by (unfold mz; lia).
    rewrite Z2Pos.id by assumption.
    assert (Hd : Zdigits2 mz = Zpos (digits2_pos m) + (e - E)).
    { apply Zdigits2_unique; [assumption|].
      pose proof (digits_bounds m) as [H1 H2].
      replace (Zpos (digits2_pos m) + (e - E) - 1) with (Zpos (digits2_pos m) - 1 + (e - E)) by lia.
      unfold mz. rewrite !Z.pow_add_r by lia. split; nia. }
    assert (HE : fexp prec emax (Zdigits2 mz + E) = E).
    { rewrite Hd. replace (Zpos (digits2_pos m) + (e - E) + E) with (Zpos (digits2_pos m) + e) by lia. reflexivity. }
    rewrite bra_exact; rewrite ?HE; try lia.
    + rewrite Z.sub_diag, Z.pow_0_r, Z.div_1_r.
      exists (Z.to_pos mz). split; [reflexivity|].
      rewrite Z2Pos.id by assumption. rewrite Z.max_l by lia. rewrite Z.max_r by lia.
      unfold mz. lia.
    + rewrite Z.sub_diag, Z.pow_0_r. apply Z.mod_1_r.
  - rewrite Z.max_r in Hdiv by lia.
    change (Zpos (digits2_pos m)) with (Zdigits2 (Zpos m)) in E.
    rewrite bra_exact; fold E; try lia.
    destruct (Zdigits2_div_pow2 (Zpos m) (E - e)) as [Hq _]; try lia.
    exists (Z.to_pos (Zpos m / 2 ^ (E - e))). split; [reflexivity|].
    rewrite Z2Pos.id by assumption.
    rewrite Z.max_r by lia. rewrite Z.max_l by lia. rewrite Z.pow_0_r.
    apply Z.div_exact in Hdiv; lia.
Qed.

End Binary64Facts.

(* ================================================================== *)
(** * Facts about JavaScript numbers *)
(* ================================================================== *)

Module NumberFacts.
Import Binary64Facts.
Import JSNumber Types Reporter.
Local Open Scope Z_scope.

Lemma Qpower2_neg k : 0 <= k -> ((2 ^ (- k))%Q == / inject_Z (2 ^ k))%Q.
Proof.
  intros Hk. rewrite Qpower_opp. apply Qinv_comp.
  rewrite Zpower_Qpower by assumption. reflexivity.
Qed.

Lemma round_dyadic M k : 0 <= k ->
  round (inject_Z M * 2 ^ (- k))%Q = rhu M k.
Proof.
  intros Hk. unfold round, rhu.
  rewrite Zdiv_Qdiv. apply Qfloor_comp.
  rewrite Qpower2_neg by assumption.
  assert (Hp : 0 < 2 ^ k) by lia.
  rewrite Z.pow_add_r by lia. change (2 ^ 1) with 2.
  rewrite !inject_Z_plus, !inject_Z_mult.
  assert (Hq : ~ (inject_Z (2 ^ k) == 0)%Q).
  { intros E. assert (Hlt : (inject_Z 0 < inject_Z (2 ^ k))%Q) by (rewrite <- Zlt_Qlt; exact Hp).
    rewrite E in Hlt. revert Hlt. apply Qlt_irrefl. }
  field. exact Hq.
Qed.

Lemma rhu_scale M k j : 0 <= k -> 0 <= j -> rhu (M * 2 ^ j) (k + j) = rhu M k.
Proof.
  intros Hk Hj. unfold rhu.
  replace (k + j + 1) with (k + 1 + j) by lia.
  rewrite !Z.pow_add_r by lia.
  replace (2 * (M * 2 ^ j) + 2 ^ k * 2 ^ j) with ((2 * M + 2 ^ k) * 2 ^ j) by lia.
  apply Z.div_mul_cancel_r; lia.
Qed.

Lemma rhu_nonpos M k : 0 <= k -> M <= 0 -> rhu M k <= 0.
Proof.
  intros Hk HM. unfold rhu.
  rewrite Z.pow_add_r by lia. change (2 ^ 1) with 2.
  assert (0 < 2 ^ k) by lia.
  assert ((2 * M + 2 ^ k) / (2 ^ k * 2) < 1); [|lia].
  apply Z.div_lt_upper_bound; lia.
Qed.

Lemma rhu_mono M N k : 0 <= k -> M <= N -> rhu M k <= rhu N k.
Proof.
  intros Hk H. unfold rhu. apply Z.div_le_mono; lia.
Qed.

Lemma toQ_finite s m e :
  toQ (S754_finite s m e) = (inject_Z (cond_Zopp s (Zpos m)) * 2 ^ e)%Q.
Proof. reflexivity. Qed.

Lemma Math_round_finite_neg s m e : e <= 0 ->
  Math_round (S754_finite s m e) = IInt (rhu (cond_Zopp s (Zpos m)) (- e)).
Proof.
  intros He. cbn [Math_round]. f_equal.
  rewrite toQ_finite. replace e with (- - e) at 1 by lia.
  apply round_dyadic. lia.
Qed.

(** A negative double rounds to a non-positive integer. *)
Lemma Math_round_negative m e : exists z, Math_round (S754_finite true m e) = IInt z /\ z <= 0.
Proof.
  eexists. split; [reflexivity|].
  rewrite toQ_finite. cbn [cond_Zopp].
  assert (H : (inject_Z (- Zpos m) * 2 ^ e + (1 # 2) < 1)%Q).
  { assert (0 < 2 ^ e)%Q by (apply Qpower_0_lt; reflexivity).
    assert (inject_Z (- Zpos m) <= -1)%Q.
    { change (-1)%Q with (inject_Z (-1)). rewrite <- Zle_Qle. lia. }
    assert (Hle : (inject_Z (- Zpos m) * 2 ^ e <= 0 * 2 ^ e)%Q).
    { apply Qmult_le_compat_r; [lra|]. apply Qlt_le_weak. assumption. }
    rewrite Qmult_0_l in Hle.
    set (x := (inject_Z (- Zpos m) * 2 ^ e)%Q) in *. lra. }
  set (x := (inject_Z (- Zpos m) * 2 ^ e + (1 # 2))%Q) in *.
  pose proof (Qfloor_le x) as Hf.
  assert (Hlt : (inject_Z (Qfloor x) < inject_Z 1)%Q) by (change (inject_Z 1) with 1%Q; lra).
  rewrite <- Zlt_Qlt in Hlt. lia.
Qed.

Lemma Zdigits2_mul_pow2 m j : 0 < m -> 0 <= j -> Zdigits2 (m * 2 ^ j) = Zdigits2 m + j.
Proof.
  intros Hm Hj.
  destruct (Zdigits2_bounds m) as (H1 & H2 & H3); [lia|]. specialize (H2 Hm).
  assert (0 < Zdigits2 m).
  { destruct (Z_lt_le_dec 0 (Zdigits2 m)); auto.
    assert (Zdigits2 m = 0) by lia. rewrite H in H1. simpl in H1. lia. }
  apply Zdigits2_unique; [nia|].
  replace (Zdigits2 m + j - 1) with (Zdigits2 m - 1 + j) by lia.
  rewrite !Z.pow_add_r by lia. split; nia.
Qed.

(** A positive integer below [2^53] converts to itself, with the mantissa
    normalised to 53 bits. *)
Lemma ofZ_pos z : 0 < z < 2 ^ 53 ->
  exists m, ofZ z = S754_finite false m (Zdigits2 z - 53)
            /\ Zpos m = z * 2 ^ (53 - Zdigits2 z)
            /\ Zdigits2 (Zpos m) = 53.
Proof.
  intros [Hz1 Hz2]. destruct z as [|p|p]; try lia.
  unfold ofZ, binary_normalize.
  assert (Hd : 0 < Zdigits2 (Zpos p) <= 53).
  { split; [simpl; lia|]. apply Zdigits2_le; lia. }
  simpl Zdigits2 in *.
  pose proof (binary_round_exact false p 0) as H. cbv zeta in H.
  rewrite fexp_eq in H. rewrite Z.add_0_r in H.
  replace (Z.max (Zpos (digits2_pos p) - 53) (-1074)) with (Zpos (digits2_pos p) - 53) in H by lia.
  destruct H as (m' & Hr & Hm').
  - replace (Z.max 0 (Zpos (digits2_pos p) - 53 - 0)) with 0 by lia.
    rewrite Z.pow_0_r. apply Z.mod_1_r.
  - unfold emax, prec. lia.
  - exists m'. split; [exact Hr|].
    replace (Z.max 0 (Zpos (digits2_pos p) - 53 - 0)) with 0 in Hm' by lia.
    replace (Z.max 0 (0 - (Zpos (digits2_pos p) - 53))) with (53 - Zpos (digits2_pos p)) in Hm' by lia.
    rewrite Z.pow_0_r, Z.mul_1_r in Hm'. split; [exact Hm'|].
    pose proof (Zdigits2_mul_pow2 (Zpos p) (53 - Zpos (digits2_pos p))) as Hd'.
    rewrite <- Hm' in Hd'. change (Zdigits2 (Zpos m') = 53). rewrite Hd' by lia. simpl Zdigits2. lia.
Qed.

Lemma ofZ_0 : ofZ 0 = S754_zero false.
Proof. reflexivity. Qed.

Lemma shl_align_fst m e ez : ez <= e ->
  Zpos (fst (shl_align m e ez)) = Zpos m * 2 ^ (e - ez).
Proof.
  intros H. rewrite shl_align_spec. destruct (Z.ltb_spec ez e).
  - cbn [fst]. rewrite Z2Pos.id; lia.
  - cbn [fst]. replace (e - ez) with 0 by lia. lia.
Qed.

Lemma score_of_int z : score_of (IInt z) = IInt (clamp 0 100 z).
Proof. reflexivity. Qed.

Lemma score_of_nonpos x :
  (x = IInf true \/ exists z, x = IInt z /\ z <= 0) -> score_of x = IInt 0.
Proof.
  intros [->|(z & -> & Hz)]; [reflexivity|].
  rewrite score_of_int. unfold clamp. f_equal. lia.
Qed.

(** The result of rounding a negative integer mantissa is negative. *)
Lemma binary_round_sign s m e :
  let r := binary_round prec emax s m e in
  r = S754_zero s \/ r = S754_infinity s \/ exists m' e', r = S754_finite s m' e'.
Proof.
  unfold binary_round. destruct (shl_align _ _ _) as [mz ez].
  destruct (bra_shape s (Zpos mz) ez loc_Exact) as [H|[[H _]|(m' & e' & H & _)]]; [lia| | |]; eauto.
Qed.

(** Subtracting an integer penalty from a finite non-negative double and
    rounding is exact up to the clamp. *)
Lemma sub_round_closed mB eB pen :
  Zpos mB < 2 ^ 53 -> -1074 <= eB <= 0 -> 0 <= pen < 2 ^ 53 ->
  score_of (Math_round (sub (S754_finite false mB eB) (ofZ pen)))
  = IInt (clamp 0 100 (rhu (Zpos mB - pen * 2 ^ (- eB)) (- eB))).
Proof.
  intros HmB HeB Hpen.
  destruct (Z.eq_dec pen 0) as [->|Hne].
  - rewrite ofZ_0. cbn [sub SF64sub SFsub].
    rewrite Math_round_finite_neg by lia. rewrite score_of_int. cbn [cond_Zopp].
    do 3 f_equal; lia.
  - destruct (ofZ_pos pen) as (mP & HP & HmP & HdP); [lia|].
    rewrite HP. set (eP := Zdigits2 pen - 53) in *.
    assert (HeP : -52 <= eP <= 0).
    { unfold eP. split.
      - destruct (Zdigits2_bounds pen) as (H1 & H2 & H3); [lia|].
        destruct (Z.eq_dec (Zdigits2 pen) 0) as [E|E]; [rewrite E in H1; simpl in H1; lia|lia].
      - assert (Zdigits2 pen <= 53) by (apply Zdigits2_le; lia). lia. }
    unfold sub, SF64sub, SFsub. cbn [cond_Zopp].
    set (ez := Z.min eB eP).
    rewrite !shl_align_fst by (unfold ez; lia).
    set (K := 2 ^ (- eB)).
    set (U := Zpos mB - pen * K).
    assert (HK : 0 < K) by (unfold K; lia).
    assert (HM : Zpos mB * 2 ^ (eB - ez) - Zpos mP * 2 ^ (eP - ez) = U * 2 ^ (eB - ez)).
    { rewrite HmP. replace (53 - Zdigits2 pen) with (- eP) by (unfold eP; lia).
      unfold U, K. rewrite Z.mul_sub_distr_r.
      f_equal. rewrite <- !Z.mul_assoc, <- !Z.pow_add_r by (unfold ez; lia).
      f_equal. f_equal. lia. }
    rewrite HM.
    assert (Hj : 0 <= eB - ez) by (unfold ez; lia).
    assert (Hpj : 0 < 2 ^ (eB - ez)) by lia.
    destruct (Z.lt_trichotomy U 0) as [Hneg|[Hz|Hpos]].
    + (* the penalty exceeds the base: a negative double, clamped to 0 *)
      destruct (U * 2 ^ (eB - ez)) as [|p|p] eqn:HU; try nia.
      cbn [binary_normalize].
      rewrite score_of_nonpos.
      * f_equal. unfold clamp. pose proof (rhu_nonpos U (- eB)). lia.
      * destruct (binary_round_sign true p ez) as [H|[H|(m' & e' & H)]]; rewrite H.
        -- right. exists 0. split; [reflexivity|lia].
        -- left. reflexivity.
        -- right. apply Math_round_negative.
    + rewrite Hz. cbn [Z.mul binary_normalize Math_round]. rewrite score_of_int.
      do 2 f_equal. unfold rhu. rewrite Z.mul_0_r, Z.add_0_l.
      symmetry. apply Z.div_small. rewrite Z.pow_add_r by lia. change (2 ^ 1) with 2. lia.
    + (* the difference is representable: no rounding happens *)
      destruct (U * 2 ^ (eB - ez)) as [|p|p] eqn:HU; try nia.
      cbn [binary_normalize].
      assert (HdU : Zdigits2 U <= 53) by (apply Zdigits2_le; unfold U; nia).
      assert (Hdp : Zpos (digits2_pos p) = Zdigits2 U + (eB - ez)).
      { change (Zpos (digits2_pos p)) with (Zdigits2 (Zpos p)). rewrite <- HU.
        apply Zdigits2_mul_pow2; lia. }
      pose proof (binary_round_exact false p ez) as H. cbv zeta in H.
      rewrite fexp_eq in H.
      set (E := Z.max (Zpos (digits2_pos p) + ez - 53) (-1074)) in *.
      assert (HE : E <= eB) by (unfold E; clear - Hdp HdU HeB; lia).
      destruct H as (m' & Hr & Hm').
      * rewrite <- HU.
        destruct (Z.max_spec 0 (E - ez)) as [[Hlt ->]|[Hlt ->]].
        -- replace (eB - ez) with (eB - E + (E - ez)) by (clear - HE; lia).
           rewrite Z.pow_add_r by (clear - HE Hlt; lia). rewrite Z.mul_assoc. apply Z.mod_mul. lia.
        -- rewrite Z.pow_0_r. apply Z.mod_1_r.
      * unfold emax, prec. lia.
      * rewrite Hr. rewrite Math_round_finite_neg by lia. rewrite score_of_int.
        cbn [cond_Zopp]. do 2 f_equal.
        assert (Hm'' : Zpos m' = U * 2 ^ (eB - E)).
        { rewrite <- HU in Hm'.
          destruct (Z_le_gt_dec ez E).
          - rewrite (Z.max_r 0 (E - ez)) in Hm' by lia.
            rewrite (Z.max_l 0 (ez - E)) in Hm' by lia.
            rewrite Z.pow_0_r, Z.mul_1_r in Hm'.
            replace (eB - ez) with (eB - E + (E - ez)) in Hm' by lia.
            rewrite Z.pow_add_r in Hm' by lia.
            assert (0 < 2 ^ (E - ez)) by lia. nia.
          - rewrite (Z.max_l 0 (E - ez)) in Hm' by lia.
            rewrite (Z.max_r 0 (ez - E)) in Hm' by lia.
            rewrite Z.pow_0_r, Z.mul_1_r in Hm'.
            rewrite Hm'. rewrite <- Z.mul_assoc, <- Z.pow_add_r by lia.
            f_equal. f_equal. lia. }
        rewrite Hm''. replace (- E) with (- eB + (eB - E)) by lia.
        apply rhu_scale; lia.
Qed.

Lemma Zdigits2_mono a b : 0 <= a <= b -> Zdigits2 a <= Zdigits2 b.
Proof.
  intros [Ha Hab].
  destruct (Zdigits2_bounds b) as (H1 & _ & H3); [lia|].
  apply Zdigits2_le; lia.
Qed.

Lemma ofZ_100 : ofZ 100 = S754_finite false 7036874417766400 (-46).
Proof. reflexivity. Qed.

Lemma div_core_53 m1 e1 m2 e2 :
  Zdigits2 (Zpos m1) = 53 -> Zdigits2 (Zpos m2) = 53 -> -1000 <= e1 - e2 ->
  SFdiv_core_binary prec emax (Zpos m1) e1 (Zpos m2) e2
  = (Zpos m1 * 2 ^ 53 / Zpos m2, e1 - e2 - 53, new_location (Zpos m2) (Zpos m1 * 2 ^ 53 mod Zpos m2)).
Proof.
  intros H1 H2 He. unfold SFdiv_core_binary.
  rewrite H1, H2, fexp_eq.
  replace (Z.min (Z.max (53 + e1 - (53 + e2) - 53) (-1074)) (e1 - e2)) with (e1 - e2 - 53) by lia.
  replace (e1 - e2 - (e1 - e2 - 53)) with 53 by lia.
  rewrite Z.shiftl_mul_pow2 by lia.
  unfold Z.div, Z.modulo.
  destruct (Z.div_eucl (Zpos m1 * 2 ^ 53) (Zpos m2)) as [q r]. reflexivity.
Qed.

(** The double pass rate is a finite, non-negative double below [2^53]. *)
Lemma baseScoreOf_shape p t : 0 <= p <= t -> 0 < t < 2 ^ 53 ->
  baseScoreOf p t = S754_zero false \/
  exists mB eB, baseScoreOf p t = S754_finite false mB eB
                /\ Zpos mB < 2 ^ 53 /\ -1074 <= eB <= 0.
Proof.
  intros Hp Ht. unfold baseScoreOf.
  destruct (ofZ_pos t) as (mt & Hot & Hmt & Hdt); [lia|]. rewrite Hot, ofZ_100.
  destruct (Z.eq_dec p 0) as [->|Hne].
  - left. reflexivity.
  - destruct (ofZ_pos p) as (mp & Hop & Hmp & Hdp); [lia|]. rewrite Hop.
    set (ep := Zdigits2 p - 53) in *. set (et := Zdigits2 t - 53) in *.
    assert (Hpt : ep <= et) by (pose proof (Zdigits2_mono p t); unfold ep, et; lia).
    assert (Hep : -52 <= ep).
    { unfold ep. destruct (Zdigits2_bounds p) as (H1 & H2 & H3); [lia|].
      destruct (Z.eq_dec (Zdigits2 p) 0) as [E|E]; [rewrite E in H1; simpl in H1; lia|lia]. }
    assert (Het : et <= 0).
    { unfold et. assert (Zdigits2 t <= 53) by (apply Zdigits2_le; lia). lia. }
    unfold div, SF64div, SFdiv.
    rewrite div_core_53 by (assumption || lia). cbn [xorb].
    set (q := Zpos mp * 2 ^ 53 / Zpos mt).
    assert (Hmt52 : 2 ^ 52 <= Zpos mt < 2 ^ 53).
    { destruct (Zdigits2_bounds (Zpos mt)) as (H1 & H2 & _); [lia|].
      rewrite Hdt in H1, H2. specialize (H2 ltac:(lia)). simpl in H2. lia. }
    assert (Hmp53 : Zpos mp < 2 ^ 53).
    { destruct (Zdigits2_bounds (Zpos mp)) as (H1 & _ & _); [lia|].
      rewrite Hdp in H1. exact H1. }
    assert (Hq : 0 <= q < 2 ^ 54).
    { unfold q. split; [apply Z.div_pos; lia|].
      apply Z.div_lt_upper_bound; [lia|]. change (2 ^ 54) with (2 * 2 ^ 53). nia. }
    assert (Hdq : Zdigits2 q <= 54) by (apply Zdigits2_le; lia).
    pose proof (bra_shape false q (ep - et - 53)
                 (new_location (Zpos mt) (Zpos mp * 2 ^ 53 mod Zpos mt)) (proj1 Hq)) as Hs.
    cbv zeta in Hs. rewrite fexp_eq in Hs.
    destruct Hs as [Hs|[[Hs Hbig]|(m0 & e0 & Hs & Hm0 & He0 & _)]].
    + rewrite Hs. left. reflexivity.
    + exfalso. unfold emax, prec in Hbig. clear - Hbig Hdq Hpt Hep Het. lia.
    + rewrite Hs. unfold mul, SF64mul, SFmul. cbn [xorb].
      assert (He0' : e0 <= -51) by (clear - He0 Hdq Hpt Hep Het; lia).
      set (M := Zpos (m0 * 7036874417766400)).
      assert (HM : 0 <= M < 2 ^ 106).
      { unfold M. rewrite Pos2Z.inj_mul. split; [lia|].
        change (2 ^ 106) with (2 ^ 53 * 2 ^ 53).
        assert (7036874417766400 < 2 ^ 53) by reflexivity. nia. }
      assert (HdM : Zdigits2 M <= 106) by (apply Zdigits2_le; lia).
      pose proof (bra_shape false M (e0 + -46) loc_Exact (proj1 HM)) as Hs2.
      cbv zeta in Hs2. rewrite fexp_eq in Hs2.
      destruct Hs2 as [Hs2|[[Hs2 Hbig]|(mB & eB & Hs2 & HmB & HeB & _)]].
      * left. exact Hs2.
      * exfalso. unfold emax, prec in Hbig. clear - Hbig HdM He0 He0'. lia.
      * right. exists mB, eB. split; [exact Hs2|]. split; [exact HmB|].
        clear - HeB HdM He0 He0'. lia.
Qed.

Lemma round_comp x y : (x == y)%Q -> round x = round y.
Proof. intros H. unfold round. apply Qfloor_comp. rewrite H. reflexivity. Qed.


Lemma round_int z : round (inject_Z z) = z.
Proof.
  unfold round, Qfloor, Qplus, inject_Z. cbn [Qnum Qden Pos.mul].
  rewrite Z.mul_1_l, Z.div_add_l by lia. change (1 / 2) with 0. lia.
Qed.

Lemma toQ_sub_dyadic mB eB pen : eB <= 0 ->
  (toQ (S754_finite false mB eB) - inject_Z pen
   == inject_Z (Zpos mB - pen * 2 ^ (- eB)) * 2 ^ (- - eB))%Q.
Proof.
  intros He. rewrite toQ_finite. cbn [cond_Zopp].
  rewrite Z.opp_involutive.
  unfold Z.sub at 1. rewrite inject_Z_plus, inject_Z_opp, inject_Z_mult.
  assert (Hk : (inject_Z (2 ^ (- eB)) * 2 ^ eB == 1)%Q).
  { replace eB with (- - eB) at 2 by lia. rewrite Qpower2_neg by lia.
    apply Qmult_inv_r. intros E.
    assert (Hlt : (inject_Z 0 < inject_Z (2 ^ (- eB)))%Q) by (rewrite <- Zlt_Qlt; lia).
    rewrite E in Hlt. revert Hlt. apply Qlt_irrefl. }
  set (x := (2 ^ eB)%Q) in *. set (k := inject_Z (2 ^ (- eB))) in *.
  setoid_replace ((inject_Z (Zpos mB) + - (inject_Z pen * k)) * x)%Q
    with (inject_Z (Zpos mB) * x - inject_Z pen * (k * x))%Q by ring.
  rewrite Hk. ring.
Qed.

Lemma sub_round_finite mB eB pen :
  Zpos mB < 2 ^ 53 -> -1074 <= eB <= 0 -> 0 <= pen < 2 ^ 53 ->
  score_of (Math_round (sub (S754_finite false mB eB) (ofZ pen)))
  = IInt (clamp 0 100 (round (toQ (S754_finite false mB eB) - inject_Z pen))).
Proof.
  intros. rewrite sub_round_closed by assumption. do 2 f_equal.
  rewrite (round_comp _ _ (toQ_sub_dyadic mB eB pen (proj2 H0))).
  symmetry. apply round_dyadic. lia.
Qed.

Lemma sub_round_zero pen : 0 <= pen < 2 ^ 53 ->
  score_of (Math_round (sub (S754_zero false) (ofZ pen)))
  = IInt (clamp 0 100 (round (toQ (S754_zero false) - inject_Z pen))).
Proof.
  intros Hpen. cbn [toQ].
  assert (Hr : round (0 - inject_Z pen) = - pen).
  { rewrite <- (round_int (- pen)). apply round_comp. rewrite inject_Z_opp. ring. }
  rewrite Hr.
  destruct (Z.eq_dec pen 0) as [->|Hne].
  - reflexivity.
  - destruct (ofZ_pos pen) as (mP & HP & _); [lia|]. rewrite HP.
    cbn [sub SF64sub SFsub negb].
    rewrite score_of_nonpos by (right; apply Math_round_negative).
    f_equal. unfold clamp. lia.
Qed.

Lemma Zdigits2_pos z : 0 < z -> 0 < Zdigits2 z.
Proof.
  intros Hz. destruct (Zdigits2_bounds z) as (H1 & H2 & H3); [lia|].
  destruct (Z.eq_dec (Zdigits2 z) 0) as [E|E]; [rewrite E in H1; simpl in H1; lia|lia].
Qed.

(** Rounding a mantissa that is an integer below [2^53], scaled by a power of
    two, gives that integer. *)
Lemma binary_round_int p e z :
  e <= 0 -> Zpos p = z * 2 ^ (- e) -> 0 < z < 2 ^ 53 ->
  binary_round prec emax false p e = ofZ z.
Proof.
  intros He Hp Hz.
  destruct (ofZ_pos z Hz) as (m & Hm & Hmz & _). rewrite Hm.
  assert (Hd1 : 0 < Zdigits2 z) by (apply Zdigits2_pos; lia).
  assert (Hd2 : Zdigits2 z <= 53) by (apply Zdigits2_le; lia).
  assert (Hdp : Zpos (digits2_pos p) = Zdigits2 z + (- e)).
  { change (Zpos (digits2_pos p)) with (Zdigits2 (Zpos p)). rewrite Hp.
    apply Zdigits2_mul_pow2; lia. }
  pose proof (binary_round_exact false p e) as H. cbv zeta in H.
  rewrite fexp_eq in H.
  replace (Z.max (Zpos (digits2_pos p) + e - 53) (-1074)) with (Zdigits2 z - 53) in H
    by (clear - Hdp Hd1; lia).
  set (E := Zdigits2 z - 53) in *.
  destruct H as (m' & Hr & Hm').
  - rewrite Hp. destruct (Z.max_spec 0 (E - e)) as [[Hlt ->]|[Hlt ->]].
    + replace (- e) with (- E + (E - e)) by lia.
      rewrite Z.pow_add_r by (unfold E; lia). rewrite Z.mul_assoc. apply Z.mod_mul.
      assert (0 < 2 ^ (E - e)) by (apply Z.pow_pos_nonneg; lia). lia.
    + rewrite Z.pow_0_r. apply Z.mod_1_r.
  - unfold emax, prec, E. lia.
  - rewrite Hr. f_equal. apply Pos2Z.inj. rewrite Hmz.
    replace (53 - Zdigits2 z) with (- E) by (unfold E; lia).
    rewrite Hp in Hm'.
    destruct (Z_le_gt_dec e E).
    + rewrite (Z.max_r 0 (E - e)) in Hm' by lia.
      rewrite (Z.max_l 0 (e - E)) in Hm' by lia.
      rewrite Z.pow_0_r, Z.mul_1_r in Hm'.
      replace (- e) with (- E + (E - e)) in Hm' by lia.
      rewrite Z.pow_add_r in Hm' by (unfold E; lia).
      assert (0 < 2 ^ (E - e)) by (apply Z.pow_pos_nonneg; lia). nia.
    + rewrite (Z.max_l 0 (E - e)) in Hm' by lia.
      rewrite (Z.max_r 0 (e - E)) in Hm' by lia.
      rewrite Z.pow_0_r, Z.mul_1_r in Hm'. rewrite Hm'.
      rewrite <- Z.mul_assoc, <- Z.pow_add_r by lia. f_equal. f_equal. lia.
Qed.

(** The sum of two non-negative integers is exact as long as it stays below
    [2^53]. *)
Lemma add_ofZ a b :
  0 <= a -> 0 <= b -> a + b < 2 ^ 53 -> add (ofZ a) (ofZ b) = ofZ (a + b).
Proof.
  intros Ha Hb Hab.
  destruct (Z.eq_dec a 0) as [->|Hna].
  - rewrite ofZ_0, Z.add_0_l.
    destruct (Z.eq_dec b 0) as [->|Hnb]; [reflexivity|].
    destruct (ofZ_pos b) as (m & Hm & _); [lia|]. rewrite Hm. reflexivity.
  - destruct (ofZ_pos a) as (ma & Hma & Hza & _); [lia|].
    destruct (Z.eq_dec b 0) as [->|Hnb].
    + rewrite ofZ_0, Z.add_0_r, Hma. reflexivity.
    + destruct (ofZ_pos b) as (mb & Hmb & Hzb & _); [lia|].
      rewrite Hma, Hmb.
      assert (Hda1 : 0 < Zdigits2 a) by (apply Zdigits2_pos; lia).
      assert (Hda2 : Zdigits2 a <= 53) by (apply Zdigits2_le; lia).
      assert (Hdb1 : 0 < Zdigits2 b) by (apply Zdigits2_pos; lia).
      assert (Hdb2 : Zdigits2 b <= 53) by (apply Zdigits2_le; lia).
      set (ea := Zdigits2 a - 53) in *. set (eb := Zdigits2 b - 53) in *.
      unfold add, SF64add, SFadd. cbn [cond_Zopp].
      set (ez := Z.min ea eb).
      rewrite !shl_align_fst by (unfold ez; lia).
      assert (HM : Zpos ma * 2 ^ (ea - ez) + Zpos mb * 2 ^ (eb - ez) = (a + b) * 2 ^ (- ez)).
      { rewrite Hza, Hzb.
        replace (53 - Zdigits2 a) with (- ea) by (unfold ea; lia).
        replace (53 - Zdigits2 b) with (- eb) by (unfold eb; lia).
        rewrite Z.mul_add_distr_r.
        rewrite <- !Z.mul_assoc, <- !Z.pow_add_r by (unfold ez, ea, eb; lia).
        f_equal; f_equal; f_equal; lia. }
      rewrite HM.
      assert (Hpz : 0 < 2 ^ (- ez)) by (apply Z.pow_pos_nonneg; unfold ez, ea, eb; lia).
      destruct ((a + b) * 2 ^ (- ez)) as [|p|p] eqn:HU; try nia.
      cbn [binary_normalize].
      apply binary_round_int; [unfold ez, ea, eb; lia|symmetry; exact HU|lia].
Qed.

End NumberFacts.

(* ================================================================== *)
(** * The scoring engine: claims C1 and C4 *)
(* ================================================================== *)

Module ReporterFacts.
Import Binary64Facts NumberFacts.
Import JSNumber Types Reporter.
Local Open Scope Z_scope.

Lemma fold_addIssuePenalty iss w :
  fold_left addIssuePenalty iss w = w + issuesPenalty iss.
Proof.
  revert w. induction iss as [|i iss IH]; intros w; simpl.
  - lia.
  - rewrite IH. unfold addIssuePenalty. lia.
Qed.

Lemma issuesPenalty_count iss :
  issuesPenalty iss
  = 15 * Z.of_nat (List.length (filter (fun i => Severity_eqb (severity i) error) iss))
    + 7 * Z.of_nat (List.length (filter (fun i => Severity_eqb (severity i) warn) iss))
    + 2 * Z.of_nat (List.length (filter (fun i => Severity_eqb (severity i) info) iss)).
Proof.
  induction iss as [|i iss IH]; [reflexivity|].
  cbn [issuesPenalty fold_right filter]. fold (issuesPenalty iss). rewrite IH.
  destruct (severity i); cbn [Severity_eqb severityPenalty List.length]; lia.
Qed.

Lemma penalty_resultsPenalty results : penalty results = resultsPenalty results.
Proof.
  unfold penalty. induction results as [|r rs IH]; [reflexivity|].
  cbn [countSeverity resultsPenalty fold_right] in *.
  fold (countSeverity error rs) (countSeverity warn rs) (countSeverity info rs) (resultsPenalty rs) in *.
  rewrite <- IH, issuesPenalty_count. lia.
Qed.

Lemma fold_addResult results acc :
  fold_left addResult results acc
  = {| totalChecks := totalChecks acc + sumChecks results;
       totalPassed := totalPassed acc + sumPassed results;
       weightedPenalty := weightedPenalty acc + resultsPenalty results |}.
Proof.
  revert acc. induction results as [|r rs IH]; intros acc.
  - destruct acc. cbn. f_equal; lia.
  - cbn [fold_left]. rewrite IH. unfold addResult. cbn [totalChecks totalPassed weightedPenalty].
    rewrite fold_addIssuePenalty.
    cbn [sumChecks sumPassed resultsPenalty fold_right].
    fold (sumChecks rs) (sumPassed rs) (resultsPenalty rs). f_equal; lia.
Qed.

Lemma accumulate_spec results :
  accumulate results
  = {| totalChecks := sumChecks results; totalPassed := sumPassed results;
       weightedPenalty := penalty results |}.
Proof.
  unfold accumulate. rewrite fold_addResult, penalty_resultsPenalty. reflexivity.
Qed.

Lemma issuesPenalty_nonneg iss : 0 <= issuesPenalty iss.
Proof.
  induction iss as [|i iss IH]; [cbn; lia|].
  cbn [issuesPenalty fold_right]. fold (issuesPenalty iss).
  destruct (severity i); cbn [severityPenalty]; lia.
Qed.

Lemma sums_bounds results :
  0 <= sumPassed results <= sumChecks results /\ 0 <= penalty results.
Proof.
  rewrite penalty_resultsPenalty.
  induction results as [|r rs IH]; [cbn; lia|].
  cbn [sumChecks sumPassed resultsPenalty fold_right].
  fold (sumChecks rs) (sumPassed rs) (resultsPenalty rs).
  pose proof (issuesPenalty_nonneg (issues r)). lia.
Qed.

(** The score in closed form: the only inexact steps are the division and the
    multiplication that produce the base score. *)
Lemma computeScore_closed results :
  safeIntegers results -> sumChecks results <> 0 ->
  computeScore results
  = IInt (clamp 0 100 (round (toQ (baseScore results) - inject_Z (penalty results)))).
Proof.
  intros [Hc Hp] Hne. unfold computeScore. rewrite accumulate_spec.
  cbn [totalChecks totalPassed weightedPenalty].
  destruct (sums_bounds results) as [Hs Hpen].
  destruct (Z.eqb_spec (sumChecks results) 0) as [E|_]; [contradiction|].
  destruct (Z.ltb_spec 0 (sumChecks results)) as [Hpos|Hle]; [|lia].
  fold (baseScore results). fold (score_of (Math_round (sub (baseScore results) (ofZ (penalty results))))).
  unfold baseScore.
  destruct (baseScoreOf_shape (sumPassed results) (sumChecks results)) as [Hz|(mB & eB & Hb & HmB & HeB)];
    try lia.
  - rewrite Hz. apply sub_round_zero. lia.
  - rewrite Hb. apply sub_round_finite; lia.
Qed.


Lemma scoreGrade_bands z : gradeBands z (scoreGrade (IInt z)).
Proof.
  unfold gradeBands, scoreGrade, geb.
  destruct (Z.leb_spec 90 z); [repeat split; intros; (discriminate || lia || reflexivity)|].
  destruct (Z.leb_spec 80 z); [repeat split; intros; (discriminate || lia || reflexivity)|].
  destruct (Z.leb_spec 70 z); [repeat split; intros; (discriminate || lia || reflexivity)|].
  destruct (Z.leb_spec 50 z); repeat split; intros; (discriminate || lia || reflexivity).
Qed.

Lemma clamp_range lo hi z : lo <= hi -> lo <= clamp lo hi z <= hi.
Proof. unfold clamp. lia. Qed.


Lemma computeScore_no_checks results :
  sumChecks results = 0 -> computeScore results = IInt 100.
Proof.
  intros E. unfold computeScore. rewrite accumulate_spec. cbn [totalChecks].
  rewrite E. reflexivity.
Qed.

Lemma computeScore_percentage results :
  safeIntegers results -> exists z, computeScore results = IInt z /\ 0 <= z <= 100.
Proof.
  intros Hs. destruct (Z.eq_dec (sumChecks results) 0) as [E|E].
  - exists 100. split; [now apply computeScore_no_checks|lia].
  - eexists. split; [now apply computeScore_closed|]. apply clamp_range. lia.
Qed.

(** C1 (as amended).  [computeScore] returns 100 when no check was counted.
    Otherwise it returns [clamp(round(b - penalty), 0, 100)], where [b] is the
    double the code computes for the pass rate, [(totalPassed / totalChecks) *
    100] with each operation rounded to binary64; the subtraction and the final
    rounding lose nothing more.  The result is an integer in [0, 100]; it is
    the value of the specification's exact formula whenever [b] is the exact
    pass rate; and the grade follows the bands A >= 90, B >= 80, C >= 70,
    D >= 50, else F. *)
Theorem computeScore_formula results :
  safeIntegers results ->
  (sumChecks results = 0 -> computeScore results = IInt 100)
  /\ (sumChecks results <> 0 ->
      computeScore results
      = IInt (clamp 0 100 (round (toQ (baseScore results) - inject_Z (penalty results)))))
  /\ ((toQ (baseScore results) == passRate results)%Q ->
      computeScore results = IInt (specScore results))
  /\ exists z, computeScore results = IInt z /\ 0 <= z <= 100
               /\ gradeBands z (scoreGrade (computeScore results)).
Proof.
  intros Hsafe.
  assert (H0 := computeScore_no_checks results).
  split; [exact H0|]. split; [apply computeScore_closed; assumption|].
  split.
  - intros Hb. unfold specScore.
    destruct (Z.eqb_spec (sumChecks results) 0) as [E|E]; [auto|].
    rewrite computeScore_closed by assumption. do 2 f_equal.
    apply round_comp. rewrite Hb. reflexivity.
  - destruct (Z.eq_dec (sumChecks results) 0) as [E|E].
    + exists 100. rewrite (H0 E). repeat split; try lia; intros; (discriminate || lia).
    + rewrite computeScore_closed by assumption.
      eexists. split; [reflexivity|]. split; [apply clamp_range; lia|].
      apply scoreGrade_bands.
Qed.

(** The batch of 23 of 40 is within the safe integers, and its score is an
    integer of [0, 100] with its grade. *)
Lemma computeScore_formula_witness :
  safeIntegers batch23of40
  /\ exists z, computeScore batch23of40 = IInt z /\ 0 <= z <= 100
               /\ gradeBands z (scoreGrade (computeScore batch23of40)).
Proof.
  assert (H : safeIntegers batch23of40) by (split; reflexivity).
  split; [exact H|]. exact (proj2 (proj2 (proj2 (computeScore_formula batch23of40 H)))).
Defined.

(** C1 as stated fails: on 23 passed and 17 failed checks with 17 informational
    issues the exact formula gives [round(57.5 - 34) = 24], while the code,
    whose double pass rate is 57.49999999999999, returns 23. *)
Lemma computeScore_differs_from_exact_formula :
  computeScore batch23of40 = IInt 23 /\ specScore batch23of40 = 24.
Proof. split; vm_compute; reflexivity. Qed.





End ReporterFacts.

(* ================================================================== *)
(** * The extractor: claims C2, C3, C5 and C9 *)
(* ================================================================== *)

Module ParserFacts.
Import JSString JSRegExp Types Parser.
Local Open Scope list_scope.

Lemma runLength_le (p : codeUnit -> bool) (s : jsstring) : forall hi,
  runLength p hi s <= List.length s.
Proof.
  induction s as [|x s IH]; intros hi; cbn [runLength List.length]; [lia|].
  destruct (p x); [|lia]. destruct hi as [[|h]|]; [lia| |].
  - specialize (IH (Some h)). lia.
  - specialize (IH None). lia.
Qed.

Lemma consume_ahead (n : nat) : forall st,
  n <= List.length (rest st) -> ahead n st (consume n st) /\ pos (consume n st) = pos st + n.
Proof.
  unfold ahead. induction n as [|n IH]; intros st Hn; cbn [consume]; [lia|].
  destruct (rest st) as [|x xs] eqn:E; cbn [List.length] in Hn; [lia|].
  destruct (IH (advance st x xs)) as [[H1 H2] H3]; [cbn; lia|].
  cbn [advance pos rest] in H1, H2, H3. cbn [List.length]. lia.
Qed.

Lemma repTry_inv (lo : nat) (k : mstate -> option mstate) (st res : mstate) : forall n,
  repTry lo n st k = Some res ->
  exists m, lo <= m <= n /\ k (consume m st) = Some res.
Proof.
  induction n as [|n IH]; cbn [repTry]; intros H.
  - destruct (0 <? lo) eqn:E; [discriminate|]. apply Nat.ltb_ge in E.
    destruct (k (consume 0 st)) eqn:Ek; [|discriminate].
    exists 0. split; [lia|]. congruence.
  - destruct (S n <? lo) eqn:E; [discriminate|]. apply Nat.ltb_ge in E.
    destruct (k (consume (S n) st)) eqn:Ek.
    + exists (S n). split; [lia|]. congruence.
    + destruct (IH H) as [m [Hm Hk]]. exists m. split; [lia|assumption].
Qed.

Lemma run_ahead (ic : bool) (r : regex) : forall st k res,
  run ic r st k = Some res ->
  exists st1, k st1 = Some res /\ ahead (minLength r) st st1.
Proof.
  unfold ahead.
  induction r as [c|p|r1 IH1 r2 IH2|r1 IH1 r2 IH2|n r IH|p lo hi| | | |];
    intros st k res H; cbn [run minLength] in H |- *.
  - destruct (rest st) as [|x xs] eqn:E; [discriminate|].
    destruct (cu_eqb _ _); [|discriminate].
    exists (advance st x xs). split; [assumption|]. cbn. lia.
  - destruct (rest st) as [|x xs] eqn:E; [discriminate|].
    destruct (p x); [|discriminate].
    exists (advance st x xs). split; [assumption|]. cbn. lia.
  - apply IH1 in H. destruct H as [st1 [H [Ha Hb]]].
    apply IH2 in H. destruct H as [st2 [H [Hc Hd]]].
    exists st2. split; [assumption|]. lia.
  - destruct (run ic r1 st k) as [res1|] eqn:E1.
    + injection H as <-. apply IH1 in E1. destruct E1 as [st1 [H [Ha Hb]]].
      exists st1. split; [assumption|]. lia.
    + apply IH2 in H. destruct H as [st1 [H [Ha Hb]]].
      exists st1. split; [assumption|]. lia.
  - apply IH in H. destruct H as [st1 [H [Ha Hb]]].
    eexists. split; [exact H|]. cbn. lia.
  - apply repTry_inv in H. destruct H as [m [Hm Hk]].
    assert (Hle := runLength_le p (rest st) hi).
    destruct (consume_ahead m st) as [[Ha Hb] Hc]; [lia|].
    exists (consume m st). split; [assumption|]. lia.
  - destruct (pos st =? 0); [|discriminate]. exists st. split; [assumption|lia].
  - destruct (rest st) eqn:E; [|discriminate]. exists st. rewrite E.
    split; [assumption|cbn; lia].
  - destruct (xorb _ _); [|discriminate]. exists st. split; [assumption|lia].
  - exists st. split; [assumption|lia].
Qed.

Lemma search_bounds (ic : bool) (r : regex) (rs : jsstring) : forall pv i m,
  search ic r pv rs i = Some m ->
  i <= index m /\ index m + minLength r <= endIndex m
  /\ endIndex m <= i + List.length rs.
Proof.
  induction rs as [|x rs IH]; intros pv i m; cbn [search].
  - destruct (run ic r _ Some) as [st'|] eqn:E; [|discriminate].
    intros [= <-]. cbn [index endIndex].
    apply run_ahead in E. destruct E as [st1 [[= ->] [Ha Hb]]]. cbn in Ha, Hb. cbn. lia.
  - destruct (run ic r _ Some) as [st'|] eqn:E.
    + intros [= <-]. cbn [index endIndex].
      apply run_ahead in E. destruct E as [st1 [[= ->] [Ha Hb]]].
      cbn [pos rest] in Ha, Hb. cbn [List.length] in *. lia.
    + intros H. apply IH in H. cbn [List.length]. lia.
Qed.

Lemma execAt_bounds (re : RegExp) (s : jsstring) (lastIndex : nat) (m : match_result) :
  execAt re s lastIndex = Some m ->
  lastIndex <= index m /\ index m + minLength (source re) <= endIndex m
  /\ endIndex m <= List.length s.
Proof.
  unfold execAt. destruct (List.length s <? lastIndex) eqn:E; [discriminate|].
  apply Nat.ltb_ge in E. intros H. apply search_bounds in H.
  rewrite length_skipn in H. lia.
Qed.

(** With a pattern that matches no empty string the loop ends before its
    fuel: more fuel changes nothing. *)
Lemma execLoop_fuel (re : RegExp) (s : jsstring) :
  0 < minLength (source re) ->
  forall fuel fuel' lastIndex,
    S (List.length s) - lastIndex <= fuel -> S (List.length s) - lastIndex <= fuel' ->
    execLoop fuel re s lastIndex = execLoop fuel' re s lastIndex.
Proof.
  intros Hmin. induction fuel as [|fuel IH]; intros fuel' lastIndex H H'.
  - assert (Hn : execAt re s lastIndex = None).
    { unfold execAt. replace (List.length s <? lastIndex) with true; [reflexivity|].
      symmetry. apply Nat.ltb_lt. lia. }
    destruct fuel'; cbn [execLoop]; [reflexivity|]. now rewrite Hn.
  - destruct fuel' as [|fuel'].
    + assert (Hn : execAt re s lastIndex = None).
      { unfold execAt. replace (List.length s <? lastIndex) with true; [reflexivity|].
        symmetry. apply Nat.ltb_lt. lia. }
      cbn [execLoop]. now rewrite Hn.
    + cbn [execLoop]. destruct (execAt re s lastIndex) as [m|] eqn:E; [|reflexivity].
      apply execAt_bounds in E. f_equal. apply IH; lia.
Qed.

Lemma execAll_fuel (re : RegExp) (s : jsstring) (fuel : nat) :
  0 < minLength (source re) -> S (List.length s) <= fuel ->
  execLoop fuel re s 0 = execAll re s.
Proof.
  intros Hmin Hf. unfold execAll. apply execLoop_fuel; [assumption|lia|lia].
Qed.

Lemma PATH_PATTERNS_progress : Forall (fun re => 0 < minLength (source re)) PATH_PATTERNS.
Proof. repeat constructor. Qed.

Lemma SCRIPT_PATTERNS_progress : Forall (fun re => 0 < minLength (source re)) SCRIPT_PATTERNS.
Proof. repeat constructor. Qed.

Lemma DEPENDENCY_PATTERNS_progress :
  Forall (fun re => 0 < minLength (source re)) DEPENDENCY_PATTERNS.
Proof. repeat constructor. Qed.

Lemma str_eqb_eq a b : str_eqb a b = true <-> a = b.
Proof.
  revert b. induction a as [|x a IH]; intros [|y b]; cbn; try (split; (discriminate || reflexivity)).
  unfold cu_eqb. rewrite andb_true_iff, N.eqb_eq, IH.
  split; [intros [-> ->]; reflexivity|intros H; injection H; auto].
Qed.

Lemma set_has_In x s : set_has x s = true <-> In x s.
Proof.
  unfold set_has. rewrite existsb_exists. split.
  - intros (y & Hy & E). apply str_eqb_eq in E. subst. assumption.
  - intros H. exists x. split; [assumption|]. apply str_eqb_eq. reflexivity.
Qed.

Lemma set_add_In s y x : In x (set_add s y) <-> In x s \/ x = y.
Proof.
  unfold set_add. destruct (set_has y s) eqn:E.
  - apply set_has_In in E. split; [auto|]. intros [H| ->]; assumption.
  - rewrite in_app_iff. cbn. split; intros [H|H]; auto.
    destruct H as [H|[]]; auto.
Qed.

Lemma fold_addAccepted_In f ms acc x :
  In x (fold_left (addAccepted f) ms acc)
  <-> In x acc \/ exists m, In m ms /\ f m = Some x.
Proof.
  revert acc. induction ms as [|m ms IH]; intros acc; cbn [fold_left].
  - split; [auto|]. intros [H|(m & [] & _)]. assumption.
  - rewrite IH. unfold addAccepted at 1. split.
    + intros [H|(m' & Hm' & Hf)].
      * destruct (f m) as [y|] eqn:E; [|auto].
        apply set_add_In in H. destruct H as [H| ->]; [auto|].
        right. exists m. split; [left; reflexivity|assumption].
      * right. exists m'. split; [right; assumption|assumption].
    + intros [H|(m' & [<-|Hm'] & Hf)].
      * left. destruct (f m); [apply set_add_In; auto|assumption].
      * left. rewrite Hf. apply set_add_In. auto.
      * right. exists m'. auto.
Qed.

Lemma extractWith_In patterns f content x :
  In x (extractWith patterns f content)
  <-> exists pattern m, In pattern patterns /\ In m (execAll pattern content) /\ f m = Some x.
Proof.
  unfold extractWith.
  assert (H : forall acc,
    In x (fold_left (fun acc pattern => fold_left (addAccepted f) (execAll pattern content) acc)
            patterns acc)
    <-> In x acc \/ exists pattern m, In pattern patterns /\ In m (execAll pattern content)
                                      /\ f m = Some x).
  { induction patterns as [|p ps IH]; intros acc; cbn [fold_left].
    - split; [auto|]. intros [H|(p & m & [] & _)]. assumption.
    - rewrite IH, fold_addAccepted_In. split.
      + intros [[H|(m & Hm & Hf)]|(p' & m & Hp & Hm & Hf)]; [auto| |].
        * right. exists p, m. cbn. auto.
        * right. exists p', m. cbn. auto.
      + intros [H|(p' & m & [<-|Hp] & Hm & Hf)]; [auto| |].
        * left. right. exists m. auto.
        * right. exists p', m. auto. }
  rewrite H. cbn. split; [intros [[]|H']; assumption|auto].
Qed.

Lemma acceptedPath_not_negated content m x :
  acceptedPath content m = Some x -> isInNegatingContext content (index m) = false.
Proof.
  unfold acceptedPath. destruct (group 1 m); [|discriminate].
  destruct (_ && _); [|discriminate].
  destruct (isInNegatingContext content (index m)); [discriminate|reflexivity].
Qed.

Lemma isInNegatingContext_line content i :
  isInNegatingContext content i = existsb (fun p => test p (lineOf content i)) NEGATING_PHRASES.
Proof. reflexivity. Qed.

(** ** Literal patterns *)

Lemma run_lit ic p st k : p <> [] ->
  run ic (lit p) st k
  = if startsWith (foldCase ic p) (foldCase ic (rest st))
    then k (consume (List.length p) st) else None.
Proof.
  revert st k. induction p as [|c p IH]; intros st k Hne; [contradiction|].
  destruct p as [|c' p'].
  - cbn [lit run List.length consume].
    destruct (rest st) as [|x xs]; [reflexivity|].
    cbn [foldCase List.map startsWith]. destruct (cu_eqb (canon ic c) (canon ic x)); reflexivity.
  - change (lit (c :: c' :: p')) with (Cat (Chr c) (lit (c' :: p'))).
    cbn [run]. destruct (rest st) as [|x xs] eqn:Hr.
    + cbn. reflexivity.
    + cbn [foldCase List.map startsWith].
      destruct (cu_eqb (canon ic c) (canon ic x)); [|reflexivity].
      rewrite IH by discriminate. cbn [andb advance rest].
      change (List.length (c :: c' :: p')) with (S (List.length (c' :: p'))).
      cbn [consume]. rewrite Hr. reflexivity.
Qed.

Lemma search_lit ic p pv rs i : p <> [] ->
  match search ic (lit p) pv rs i with Some _ => true | None => false end
  = includes (foldCase ic p) (foldCase ic rs).
Proof.
  intros Hne. revert pv i. induction rs as [|x rs IH]; intros pv i.
  - cbn [search]. rewrite run_lit by assumption. cbn [rest foldCase List.map includes].
    destruct (startsWith _ _); reflexivity.
  - cbn [search]. rewrite run_lit by assumption. cbn [rest foldCase List.map includes].
    fold (foldCase ic p). fold (foldCase ic rs).
    change (canon ic x :: foldCase ic rs) with (foldCase ic (x :: rs)).
    destruct (startsWith (foldCase ic p) (foldCase ic (x :: rs))); [reflexivity|].
    cbn [orb]. apply IH.
Qed.

(** A literal pattern tests for a substring, compared in upper case under
    the [i] flag. *)
Lemma test_lit ic g p s : p <> [] ->
  test {| source := lit p; ignoreCase := ic; global := g |} s
  = includes (foldCase ic p) (foldCase ic s).
Proof.
  intros Hne. unfold test, matchOnce, execAt. cbn [ignoreCase source skipn prevAt].
  apply search_lit. assumption.
Qed.

(** ** Stripping trailing punctuation *)

Lemma dropLastIf_cons p x s : s <> [] -> dropLastIf p (x :: s) = x :: dropLastIf p s.
Proof. destruct s; [contradiction|reflexivity]. Qed.

Lemma dropLastIf_snoc p pre c :
  dropLastIf p (pre ++ [c]) = if p c then pre else pre ++ [c].
Proof.
  induction pre as [|x pre IH]; [cbn; destruct (p c); reflexivity|].
  change ((x :: pre) ++ [c]) with (x :: (pre ++ [c])).
  rewrite dropLastIf_cons by (destruct pre; discriminate).
  rewrite IH. destruct (p c); reflexivity.
Qed.

Lemma search_trailing p pv rs i :
  match search false (Cat (Cls p) Eol) pv rs i with
  | Some m => exists pre c, rs = pre ++ [c] /\ p c = true
                            /\ index m = i + List.length pre
                            /\ endIndex m = i + List.length pre + 1
  | None => rs = [] \/ exists pre c, rs = pre ++ [c] /\ p c = false
  end.
Proof.
  revert pv i. induction rs as [|x rs IH]; intros pv i.
  - cbn. left. reflexivity.
  - cbn [search run rest].
    destruct (p x) eqn:Hp.
    + cbn [advance rest]. destruct rs as [|y rs'].
      * cbn [pos]. exists [], x. cbn. repeat split; (assumption || lia).
      * specialize (IH (Some x) (S i)).
        destruct (search false (Cat (Cls p) Eol) (Some x) (y :: rs') (S i)) as [m|].
        -- destruct IH as (pre & c & E & Hc & Hi & He).
           exists (x :: pre), c. rewrite E. cbn. repeat split; (assumption || lia).
        -- destruct IH as [E|(pre & c & E & Hc)]; [discriminate|].
           right. exists (x :: pre), c. rewrite E. auto.
    + specialize (IH (Some x) (S i)).
      destruct (search false (Cat (Cls p) Eol) (Some x) rs (S i)) as [m|].
      * destruct IH as (pre & c & E & Hc & Hi & He).
        exists (x :: pre), c. rewrite E. cbn. repeat split; (assumption || lia).
      * destruct IH as [E|(pre & c & E & Hc)].
        -- subst rs. right. exists [], x. auto.
        -- right. exists (x :: pre), c. rewrite E. auto.
Qed.

(** [candidate.replace(/[,;:.]$/, '')] drops one trailing punctuation mark. *)
Lemma strip_trailing_punctuation s :
  replaceFirst TRAILING_PUNCTUATION (fun _ => []) s = dropLastIf (oneOf ",;:.") s.
Proof.
  unfold replaceFirst, matchOnce, execAt, TRAILING_PUNCTUATION.
  cbn [ignoreCase source skipn prevAt List.length Nat.ltb Nat.leb].
  pose proof (search_trailing (oneOf ",;:.") None s 0) as H.
  destruct (search false (Cat (Cls (oneOf ",;:.")) Eol) None s 0) as [m|].
  - destruct H as (pre & c & -> & Hc & Hi & He).
    rewrite dropLastIf_snoc, Hc, Hi, He. cbn [Nat.add app].
    rewrite firstn_app, firstn_all, Nat.sub_diag. cbn [firstn].
    rewrite skipn_all2 by (rewrite length_app; cbn; lia).
    rewrite !app_nil_r. reflexivity.
  - destruct H as [->|(pre & c & -> & Hc)]; [reflexivity|].
    rewrite dropLastIf_snoc, Hc. reflexivity.
Qed.

Lemma dropLastIf_keeps p c s : In c s -> p c = false -> In c (dropLastIf p s).
Proof.
  intros Hin Hp. induction s as [|x s IH]; [contradiction|].
  cbn [dropLastIf]. destruct s as [|y s'].
  - destruct Hin as [->|[]]. rewrite Hp. left. reflexivity.
  - destruct Hin as [->|Hin]; [left; reflexivity|]. right. apply IH. assumption.
Qed.

Lemma startsWith_In c p s : In c p -> startsWith p s = true -> In c s.
Proof.
  revert s. induction p as [|x p IH]; intros s Hin H; [contradiction|].
  destruct s as [|y s]; [discriminate|]. cbn in H.
  apply andb_true_iff in H. destruct H as [E H]. apply N.eqb_eq in E. subst y.
  destruct Hin as [->|Hin]; [left; reflexivity|right; eauto].
Qed.

Lemma includes_In c p s : In c p -> includes p s = true -> In c s.
Proof.
  intros Hin. induction s as [|y s IH]; cbn [includes]; intros H.
  - apply orb_true_iff in H. destruct H as [H|H]; [|discriminate].
    eapply startsWith_In; eassumption.
  - apply orb_true_iff in H. destruct H as [H|H].
    + eapply startsWith_In; eassumption.
    + right. auto.
Qed.

Lemma looksLikePath_slash candidate : looksLikePath candidate = true -> In SLASH candidate.
Proof.
  unfold looksLikePath. rewrite !orb_true_iff.
  intros [[[H|H]|H]|H].
  - eapply startsWith_In; [|exact H]. cbn. auto.
  - eapply startsWith_In; [|exact H]. cbn. auto.
  - eapply startsWith_In; [|exact H]. cbn. auto.
  - eapply includes_In; [|exact H]. cbn. auto.
Qed.

Local Open Scope Z_scope.

Lemma tiles_snoc secs s lo hi :
  tiles (secs ++ [s]) lo hi
  <-> tiles secs lo (startLine s) /\ startLine s <= endLine s /\ endLine s + 1 = hi.
Proof.
  revert lo. induction secs as [|x secs IH]; intros lo; cbn [app tiles].
  - split; [intros (H1 & H2 & H3)|intros (H1 & H2 & H3)]; repeat split; lia.
  - rewrite IH. tauto.
Qed.

Lemma firstHeading_range lns : 0 <= firstHeading lns <= Z.of_nat (List.length lns).
Proof.
  induction lns as [|ln lns IH]; cbn [firstHeading List.length]; [lia|].
  destruct (isHeading ln); lia.
Qed.

Lemma firstHeading_snoc pre ln :
  firstHeading (pre ++ [ln])
  = if firstHeading pre <? Z.of_nat (List.length pre) then firstHeading pre
    else if isHeading ln then Z.of_nat (List.length pre)
         else Z.of_nat (List.length pre) + 1.
Proof.
  induction pre as [|x pre IH]; cbn [app firstHeading List.length].
  - destruct (isHeading ln); reflexivity.
  - pose proof (firstHeading_range pre).
    destruct (isHeading x).
    + destruct (Z.ltb_spec 0 (Z.of_nat (S (List.length pre)))); [reflexivity|lia].
    + rewrite IH.
      destruct (Z.ltb_spec (firstHeading pre) (Z.of_nat (List.length pre)));
        destruct (Z.ltb_spec (1 + firstHeading pre) (Z.of_nat (S (List.length pre))));
        try lia.
      destruct (isHeading ln); lia.
Qed.

Lemma lineAt_app pre post i ln : lineAt pre i = Some ln -> lineAt (pre ++ post) i = Some ln.
Proof.
  unfold lineAt. destruct (i <? 0); [discriminate|]. intros H.
  rewrite nth_error_app1; [assumption|]. apply nth_error_Some. congruence.
Qed.

Lemma lineAt_last pre ln : lineAt (pre ++ [ln]) (Z.of_nat (List.length pre)) = Some ln.
Proof.
  unfold lineAt. destruct (Z.ltb_spec (Z.of_nat (List.length pre)) 0); [lia|].
  rewrite Nat2Z.id, nth_error_app2, Nat.sub_diag by lia. reflexivity.
Qed.

Lemma titledByHeading_app pre post s : titledByHeading pre s -> titledByHeading (pre ++ post) s.
Proof. intros (ln & H1 & H2). exists ln. split; [apply lineAt_app|]; assumption. Qed.

Lemma isHeading_title ln : isHeading ln = match headingTitle ln with Some _ => true | None => false end.
Proof. reflexivity. Qed.

(** One step of the scan keeps the invariant. *)
Lemma sectionStep_scanned pre st ln :
  scanned pre st -> scanned (pre ++ [ln]) (sectionStep st ln (Z.of_nat (List.length pre))).
Proof.
  destruct st as [secs cur]. unfold scanned, sectionStep. cbn [fst snd].
  rewrite length_app, Nat2Z.inj_add. cbn [List.length]. rewrite firstHeading_snoc, isHeading_title.
  set (n := Z.of_nat (List.length pre)).
  destruct (headingTitle ln) as [t|] eqn:Ht; destruct cur as [cs|]; cbn [fst snd startLine].
  - intros (Ht1 & Hr & Hf).
    destruct (Z.ltb_spec (firstHeading pre) n); [|lia].
    split; [|split; [lia|]].
    + apply tiles_snoc. cbn [closeSection startLine endLine]. repeat split; try lia. assumption.
    + rewrite Forall_app in Hf. destruct Hf as [Hf1 Hf2].
      rewrite !Forall_app. repeat split.
      * eapply Forall_impl; [|exact Hf1]. intros s. apply titledByHeading_app.
      * constructor; [|constructor]. inversion Hf2 as [|? ? Hcs _]; subst.
        apply (titledByHeading_app pre [ln]) in Hcs. exact Hcs.
      * constructor; [|constructor]. exists ln. cbn [startLine title].
        split; [apply lineAt_last|assumption].
  - intros (-> & Hfirst).
    destruct (Z.ltb_spec (firstHeading pre) n); [lia|].
    split; [cbn; reflexivity|]. split; [lia|].
    constructor; [|constructor]. exists ln. cbn [startLine title].
    split; [apply lineAt_last|assumption].
  - intros (Ht1 & Hr & Hf).
    destruct (Z.ltb_spec (firstHeading pre) n); [|lia].
    cbn [appendContent startLine]. split; [assumption|]. split; [lia|].
    rewrite Forall_app in Hf. destruct Hf as [Hf1 Hf2]. rewrite Forall_app. split.
    + eapply Forall_impl; [|exact Hf1]. intros s. apply titledByHeading_app.
    + constructor; [|constructor]. inversion Hf2 as [|? ? Hcs _]; subst.
      apply (titledByHeading_app pre [ln]) in Hcs. exact Hcs.
  - intros (-> & Hfirst).
    destruct (Z.ltb_spec (firstHeading pre) n); [lia|]. split; [reflexivity|lia].
Qed.

Lemma forEachLine_scanned lns pre st :
  scanned pre st ->
  scanned (pre ++ lns) (forEachLine lns (Z.of_nat (List.length pre)) st).
Proof.
  revert pre st. induction lns as [|ln lns IH]; intros pre st H; cbn [forEachLine].
  - rewrite app_nil_r. assumption.
  - apply sectionStep_scanned with (ln := ln) in H.
    apply IH in H. rewrite <- app_assoc in H. cbn [app] in H.
    rewrite length_app, Nat2Z.inj_add in H. exact H.
Qed.

(** C3 (as amended).  The sections produced for a document tile, without gap
    or overlap, the line range that starts at its first heading line and ends
    with the document (no section at all when there is no heading): the lines
    before the first heading belong to no section.  In particular they
    partition [[0, lines.length)] when the first line is a heading.  Each
    section starts at a heading line, and its title is the trimmed text that
    follows the marker on that line. *)
Theorem parseSections_tiles lns :
  tiles (parseSections lns) (firstHeading lns) (Z.of_nat (List.length lns))
  /\ Forall (titledByHeading lns) (parseSections lns)
  /\ (firstHeading lns = 0 <-> partitionsLines (parseSections lns) lns).
Proof.
  assert (H : scanned ([] ++ lns) (forEachLine lns (Z.of_nat (List.length (@nil jsstring))) ([], None))).
  { apply forEachLine_scanned. split; reflexivity. }
  cbn [app List.length] in H. change (Z.of_nat 0) with 0 in H.
  unfold parseSections.
  destruct (forEachLine lns 0 ([], None)) as [secs cur]. unfold scanned in H. cbn [fst snd] in H.
  assert (Hmain :
    tiles (match cur with
           | Some cs => secs ++ [closeSection cs (Z.of_nat (List.length lns) - 1)]
           | None => secs end) (firstHeading lns) (Z.of_nat (List.length lns))
    /\ Forall (titledByHeading lns)
         (match cur with
          | Some cs => secs ++ [closeSection cs (Z.of_nat (List.length lns) - 1)]
          | None => secs end)).
  { destruct cur as [cs|].
    - destruct H as (Ht & Hr & Hf). split.
      + apply tiles_snoc. cbn [closeSection startLine endLine]. repeat split; (assumption || lia).
      + rewrite Forall_app in *. destruct Hf as [Hf1 Hf2]. split; [assumption|].
        constructor; [|constructor]. inversion Hf2; subst. assumption.
    - destruct H as (-> & Hfirst). split; [exact Hfirst|constructor]. }
  destruct Hmain as [Ht Hf]. split; [exact Ht|]. split; [exact Hf|].
  unfold partitionsLines. split.
  - intros E. rewrite E in Ht. exact Ht.
  - intros Hp. set (secs' := match cur with Some cs => _ | None => secs end) in *.
    destruct secs' as [|s secs'']; cbn [tiles] in *; [lia|].
    destruct Ht as [Ha _], Hp as [Hb _]. lia.
Qed.

Lemma isInNegatingContext_spec content i :
  isInNegatingContext content i = hasNegatingPhrase (lineOf content i).
Proof.
  unfold isInNegatingContext. fold (lineOf content i).
  unfold NEGATING_PHRASES, hasNegatingPhrase, negatingPhrases, word.
  cbn [List.map existsb]. rewrite !test_lit by discriminate. reflexivity.
Qed.

(** Membership in [mentionedPaths], match by match. *)
Lemma extractPaths_In content x :
  In x (extractPaths content)
  <-> exists pattern m candidate,
        In pattern PATH_PATTERNS /\ In m (execAll pattern content)
        /\ group 1%nat m = Some candidate /\ looksLikePath candidate = true
        /\ hasNegatingPhrase (lineOf content (index m)) = false
        /\ x = dropLastIf (oneOf ",;:.") candidate.
Proof.
  unfold extractPaths. rewrite extractWith_In. split.
  - intros (pattern & m & Hp & Hm & Ha). exists pattern, m.
    unfold acceptedPath in Ha. destruct (group 1 m) as [candidate|]; [|discriminate].
    exists candidate.
    destruct (negb (str_eqb candidate [])); [|discriminate]. cbn [andb] in Ha.
    destruct (looksLikePath candidate); [|discriminate].
    rewrite isInNegatingContext_spec in Ha.
    destruct (hasNegatingPhrase (lineOf content (index m))); [discriminate|].
    rewrite strip_trailing_punctuation in Ha. injection Ha as <-. auto 10.
  - intros (pattern & m & candidate & Hp & Hm & Hg & Hl & Hn & ->).
    exists pattern, m. split; [assumption|]. split; [assumption|].
    unfold acceptedPath. rewrite Hg, Hl, isInNegatingContext_spec, Hn, strip_trailing_punctuation.
    destruct candidate; [discriminate Hl|reflexivity].
Qed.



(** C3 as stated fails: a line before the first heading belongs to no
    section, so the sections do not cover [[0, lines.length)]. *)
Lemma sections_leave_gap :
  parseSections introThenHeading
  = [{| title := js "A"; content := []; startLine := 1; endLine := 1 |}]
  /\ (partitionsLines (parseSections introThenHeading) introThenHeading -> False).
Proof.
  split; [reflexivity|]. intros H. vm_compute in H. destruct H as [H _]. discriminate H.
Qed.

(** C5 fails on the code: the regular expressions of [FRAMEWORK_PATTERNS]
    carry the [g] flag and live at module level, so [test] resumes at the
    [lastIndex] the previous call left.  Parsing the text "NgModule" twice
    finds the framework the first time and not the second. *)
Lemma extraction_not_repeatable :
  let text := js "NgModule" in
  let first := parseAgentsMd initialFrameworkState text in
  let second := parseAgentsMd (snd first) text in
  mentionedFrameworks (fst first) = [js "angular"]
  /\ mentionedFrameworks (fst second) = []
  /\ mentionedPaths (fst first) = mentionedPaths (fst second)
  /\ mentionedScripts (fst first) = mentionedScripts (fst second)
  /\ mentionedDependencies (fst first) = mentionedDependencies (fst second)
  /\ sections (fst first) = sections (fst second).
Proof. vm_compute. repeat split. Qed.

(** C9 fails on the code: for a scoped package, [split('@')[0]] is the empty
    string. *)
Lemma scoped_dependency_is_empty :
  mentionedDependencies (fst (parseAgentsMd initialFrameworkState (js "`@angular/core@17.0.0`")))
  = [ []; js "angular" ].
Proof. vm_compute. reflexivity. Qed.

Lemma extractFrameworksFrom_In (content : jsstring) (x : jsstring) :
  forall table st,
    In x (fst (extractFrameworksFrom table st content)) -> In x (List.map fst table).
Proof.
  induction table as [|[framework patterns] table IH]; intros st; cbn [extractFrameworksFrom].
  - intros [].
  - destruct st as [|lis st]; [intros []|].
    destruct (testPatterns patterns lis content) as [found lis'].
    specialize (IH st). destruct (extractFrameworksFrom table st content) as [frameworks st''].
    cbn [fst List.map] in *. intros H. apply in_app_or in H. destruct H as [H|H].
    + destruct found; [|contradiction]. destruct H as [<-|[]]. now left.
    + right. now apply IH.
Qed.

Lemma lowerCU_AT (c : codeUnit) : lowerCU c = AT -> c = AT.
Proof.
  unfold lowerCU, isUpper, between, AT.
  destruct (N.leb_spec 65 c); destruct (N.leb_spec c 90); cbn [andb]; lia.
Qed.

Lemma split_head_empty (c : codeUnit) (s : jsstring) :
  hd [] (split c s) = [] <-> s = [] \/ exists s', s = c :: s'.
Proof.
  destruct s as [|x s]; cbn [split hd].
  - split; auto.
  - destruct (cu_eqb x c) eqn:E.
    + apply N.eqb_eq in E. subst x. cbn [hd]. split; [eauto|reflexivity].
    + assert (Hx : x <> c) by (apply N.eqb_neq; exact E).
      destruct (split c s); cbn [hd]; split; try discriminate;
        intros [H|[s' H]]; try discriminate; injection H as -> _; contradiction.
Qed.

(** The package name [acceptedDependency] keeps is empty exactly for a name
    that starts with [@]. *)
Lemma acceptedDependency_empty (m : match_result) :
  acceptedDependency m = Some []
  <-> exists name, group 1 m = Some name /\ startsWith [AT] name = true.
Proof.
  unfold acceptedDependency. destruct (group 1 m) as [name|].
  - destruct name as [|c name]; cbn [str_eqb negb].
    + split; [discriminate|]. intros (n & [= <-] & H). discriminate.
    + split.
      * intros H0.
        assert (H : hd [] (split AT (toLowerCaseASCII (c :: name))) = []) by congruence.
        clear H0. apply split_head_empty in H. destruct H as [H|[s' H]]; [discriminate|].
        cbn [toLowerCaseASCII List.map] in H. injection H as H _.
        apply lowerCU_AT in H. subst c. exists (AT :: name). split; reflexivity.
      * intros (n & [= <-] & H). cbn [startsWith] in H.
        apply andb_true_iff in H. destruct H as [H _]. apply N.eqb_eq in H. subst c.
        reflexivity.
  - split; [discriminate|]. intros (n & [= ] & _).
Qed.

(** C9.  What holds of the extracted strings: a path contains [/], and is a
    candidate that looks like a path without one trailing [,], [;], [:] or
    [.]; a script name is not empty; a framework is one of the four names of
    the table.  A dependency name, however, is the empty string exactly when
    a match captures a name that starts with [@], as every scoped package
    does; and every loop over the matches ends within its fuel. *)
Theorem extracted_strings (content : jsstring) (st : FrameworkState) :
  (forall x, In x (extractPaths content) ->
     x <> [] /\ In SLASH x
     /\ exists candidate, looksLikePath candidate = true
                          /\ x = dropLastIf (oneOf ",;:.") candidate)
  /\ (forall x, In x (extractScripts content) -> x <> [])
  /\ (forall x, In x (fst (extractFrameworks st content)) ->
        In x [js "angular"; js "react"; js "vue"; js "node"])
  /\ (In [] (extractDependencies content)
      <-> exists pattern m name,
            In pattern DEPENDENCY_PATTERNS /\ In m (execAll pattern content)
            /\ group 1 m = Some name /\ startsWith [AT] name = true)
  /\ (forall (pattern : RegExp) (fuel : nat),
        In pattern (PATH_PATTERNS ++ SCRIPT_PATTERNS ++ DEPENDENCY_PATTERNS) ->
        (S (List.length content) <= fuel)%nat ->
        execLoop fuel pattern content 0 = execAll pattern content).
Proof.
  split; [|split; [|split; [|split]]].
  - intros x Hx. apply extractPaths_In in Hx.
    destruct Hx as (pattern & m & candidate & _ & _ & _ & Hl & _ & ->).
    assert (Hs : In SLASH (dropLastIf (oneOf ",;:.") candidate)).
    { apply dropLastIf_keeps; [now apply looksLikePath_slash|reflexivity]. }
    split; [|split; [exact Hs|eauto]].
    intros E. rewrite E in Hs. destruct Hs.
  - intros x Hx. unfold extractScripts in Hx. apply extractWith_In in Hx.
    destruct Hx as (pattern & m & _ & _ & Ha). unfold acceptedScript in Ha.
    destruct (group 1 m) as [name|]; [|discriminate].
    destruct name as [|c name]; [discriminate|].
    destruct (_ && _); [|discriminate]. injection Ha as <-. discriminate.
  - intros x Hx. apply extractFrameworksFrom_In in Hx. exact Hx.
  - unfold extractDependencies. rewrite extractWith_In. split.
    + intros (pattern & m & Hp & Hm & Ha). apply acceptedDependency_empty in Ha.
      destruct Ha as (name & Hg & Hs). eauto 10.
    + intros (pattern & m & name & Hp & Hm & Hg & Hs). exists pattern, m.
      split; [assumption|]. split; [assumption|].
      apply acceptedDependency_empty. eauto.
  - intros pattern fuel Hin Hf. apply execAll_fuel; [|assumption].
    assert (Hall : Forall (fun re => (0 < minLength (source re))%nat)
                     (PATH_PATTERNS ++ SCRIPT_PATTERNS ++ DEPENDENCY_PATTERNS)).
    { repeat (apply Forall_app; split);
        [apply PATH_PATTERNS_progress|apply SCRIPT_PATTERNS_progress
        |apply DEPENDENCY_PATTERNS_progress]. }
    rewrite Forall_forall in Hall. now apply Hall.
Qed.

(** C5.  Four of the five results never depend on what was parsed before:
    whatever the state of the framework patterns, the same text gives the
    same paths, scripts, dependencies and sections.  The frameworks are
    found from the [lastIndex] each pattern object was left with. *)
Theorem extraction_repeatable_fields (text : jsstring) (st st' : FrameworkState) :
  mentionedPaths (fst (parseAgentsMd st text)) = mentionedPaths (fst (parseAgentsMd st' text))
  /\ mentionedScripts (fst (parseAgentsMd st text))
     = mentionedScripts (fst (parseAgentsMd st' text))
  /\ mentionedDependencies (fst (parseAgentsMd st text))
     = mentionedDependencies (fst (parseAgentsMd st' text))
  /\ sections (fst (parseAgentsMd st text)) = sections (fst (parseAgentsMd st' text))
  /\ mentionedFrameworks (fst (parseAgentsMd st text)) = fst (extractFrameworks st text)
  /\ snd (parseAgentsMd st text) = snd (extractFrameworks st text).
Proof.
  unfold parseAgentsMd.
  destruct (extractFrameworks st text) as [f s], (extractFrameworks st' text) as [f' s'].
  cbn. repeat split.
Qed.

End ParserFacts.

(* ================================================================== *)
(** * The validators: claims C7 and C8 *)
(* ================================================================== *)

Module CheckerFacts.
Import ParserFacts.
Import JSString JSRegExp Types Checkers.
Local Open Scope list_scope.

Lemma setOf_In l x : In x (setOf l) <-> In x l.
Proof.
  unfold setOf.
  assert (H : forall acc, In x (fold_left set_add l acc) <-> In x acc \/ In x l).
  { induction l as [|y l IH]; intros acc; cbn [fold_left].
    - cbn. tauto.
    - rewrite IH, set_add_In. cbn. intuition congruence. }
  rewrite H. cbn. tauto.
Qed.

Lemma countRule_app r a b : countRule r (a ++ b) = countRule r a + countRule r b.
Proof. unfold countRule. rewrite filter_app, length_app. reflexivity. Qed.

Lemma countRule_le r iss : countRule r iss <= List.length iss.
Proof. unfold countRule. apply filter_length_le. Qed.

Section Facts.

Variable toLowerCase : jsstring -> jsstring.

Variable path_join : jsstring -> jsstring -> jsstring.

Variable path_resolve : jsstring -> jsstring -> jsstring.

Variable existsSync : jsstring -> bool.

Variable readJson : jsstring -> option PackageJson.

Local Abbreviation checkDependencies := (checkDependencies toLowerCase path_join existsSync readJson).

Local Abbreviation checkStructure := (checkStructure toLowerCase).

Local Abbreviation checkFrameworkStaleness := (checkFrameworkStaleness path_join existsSync readJson).

Local Abbreviation checkFilesystem := (checkFilesystem path_join path_resolve existsSync).

Local Abbreviation checkNpmScripts := (checkNpmScripts path_join existsSync readJson).

Lemma tallied_fold {A} (r : string) (step : tally -> A -> tally) (l : list A) acc :
  (forall acc x, tallied r acc -> tallied r (step acc x)) ->
  tallied r acc -> tallied r (fold_left step l acc).
Proof.
  intros Hstep. revert acc. induction l as [|x l IH]; intros acc H; cbn [fold_left]; auto.
Qed.

Lemma tallied_empty r : tallied r {| t_issues := []; t_passed := 0; t_failed := 0 |}.
Proof. split; [reflexivity|constructor]. Qed.

Lemma tallied_push r acc i p :
  tallied r acc -> hasRule r i = true ->
  tallied r {| t_issues := t_issues acc ++ [i]; t_passed := p; t_failed := S (t_failed acc) |}.
Proof.
  intros [H1 H2] Hi. split; cbn [t_issues t_failed].
  - rewrite length_app. cbn. lia.
  - apply Forall_app. split; [assumption|]. constructor; [assumption|constructor].
Qed.

Lemma tallied_pass r acc p :
  tallied r acc ->
  tallied r {| t_issues := t_issues acc; t_passed := p; t_failed := t_failed acc |}.
Proof. intros H. exact H. Qed.

Lemma tallied_count r acc : tallied r acc -> countRule r (t_issues acc) = t_failed acc.
Proof.
  intros [H1 H2]. rewrite H1. clear H1. unfold countRule.
  induction H2 as [|i l Hi _ IH]; [reflexivity|]. cbn [filter]. rewrite Hi. cbn [List.length].
  f_equal. exact IH.
Qed.

Lemma mentionedDependencyStep_tallied parsed config allDeps acc dep :
  tallied "no-missing-dependency" acc ->
  tallied "no-missing-dependency"
    (mentionedDependencyStep toLowerCase parsed config allDeps acc dep).
Proof.
  intros H. unfold mentionedDependencyStep.
  destruct (existsb _ _); [assumption|].
  destruct (_ || _); [apply tallied_pass; assumption|].
  destruct (negb _); [|assumption].
  apply tallied_push; [assumption|reflexivity].
Qed.

Lemma fold_deprecatedStep parsed config allDeps table iss :
  fold_left (deprecatedStep parsed config allDeps) table iss
  = iss ++ List.map (deprecatedDependencyIssue parsed config)
             (filter (fun e => set_has (fst e) allDeps) table).
Proof.
  revert iss. induction table as [|e table IH]; intros iss; cbn [fold_left filter].
  - cbn. rewrite app_nil_r. reflexivity.
  - rewrite IH. unfold deprecatedStep. destruct (set_has (fst e) allDeps).
    + cbn [List.map]. rewrite <- app_assoc. reflexivity.
    + reflexivity.
Qed.

Lemma deprecatedIssue_rule parsed config e :
  rule (deprecatedDependencyIssue parsed config e) = js "deprecated-dependency".
Proof. destruct e. reflexivity. Qed.

Lemma countRule_deprecated_fresh parsed config l :
  countRule "no-missing-dependency" (List.map (deprecatedDependencyIssue parsed config) l) = 0.
Proof.
  induction l as [|e l IH]; [reflexivity|].
  unfold countRule in *. cbn [List.map filter]. unfold hasRule at 1.
  rewrite deprecatedIssue_rule. exact IH.
Qed.

Lemma countRule_deprecated_all parsed config l :
  countRule "deprecated-dependency" (List.map (deprecatedDependencyIssue parsed config) l)
  = List.length l.
Proof.
  induction l as [|e l IH]; [reflexivity|].
  unfold countRule in *. cbn [List.map filter]. unfold hasRule at 1.
  rewrite deprecatedIssue_rule. cbn [str_eqb]. cbn. f_equal. exact IH.
Qed.

Lemma countRule_other r r' l :
  str_eqb (js r) (js r') = false -> Forall (fun i => hasRule r i = true) l ->
  countRule r' l = 0.
Proof.
  intros Hne H. unfold countRule. induction H as [|i l Hi _ IH]; [reflexivity|].
  cbn [filter]. unfold hasRule in *. apply str_eqb_eq in Hi. rewrite Hi, Hne. exact IH.
Qed.

(** The dependency validator counts as failed exactly its
    [no-missing-dependency] issues. *)
Lemma checkDependencies_failed parsed repoRoot config :
  let r := checkDependencies parsed repoRoot config in
  failed r = countRule "no-missing-dependency" (issues r)
  /\ List.length (issues r) = failed r + countRule "deprecated-dependency" (issues r).
Proof.
  unfold Checkers.checkDependencies.
  destruct (negb _); [split; reflexivity|].
  destruct (readJson _) as [pkg|]; [|split; reflexivity].
  cbn [failed issues].
  set (acc := fold_left _ (mentionedDependencies parsed) _).
  assert (Hacc : tallied "no-missing-dependency" acc).
  { apply tallied_fold; [|apply tallied_empty].
    intros. apply mentionedDependencyStep_tallied. assumption. }
  rewrite fold_deprecatedStep, !countRule_app, length_app, length_map.
  rewrite countRule_deprecated_fresh, countRule_deprecated_all.
  rewrite (tallied_count _ _ Hacc). destruct Hacc as [H1 H2]. split; [lia|].
  rewrite (countRule_other "no-missing-dependency" "deprecated-dependency") by (reflexivity || assumption).
  lia.
Qed.

Lemma checkStructure_failed parsed config :
  failed (checkStructure parsed config) = List.length (issues (checkStructure parsed config)).
Proof.
  unfold Checkers.checkStructure. destruct (fold_left _ QUALITY_CHECKS _). reflexivity.
Qed.

Lemma checkFrameworkStaleness_failed parsed repoRoot :
  failed (checkFrameworkStaleness parsed repoRoot)
  = List.length (issues (checkFrameworkStaleness parsed repoRoot)).
Proof.
  unfold Checkers.checkFrameworkStaleness. destruct (fold_left _ _ _). reflexivity.
Qed.

End Facts.

Lemma filter_filter_comm {A} (p q : A -> bool) l :
  filter p (filter q l) = filter q (filter p l).
Proof.
  induction l as [|x l IH]; [reflexivity|]. cbn [filter].
  destruct (q x) eqn:Hq, (p x) eqn:Hp; cbn [filter]; rewrite ?Hq, ?Hp, IH; reflexivity.
Qed.

Lemma filter_map_swap {A B} (f : A -> B) (p : B -> bool) l :
  filter p (List.map f l) = List.map f (filter (fun x => p (f x)) l).
Proof.
  induction l as [|x l IH]; [reflexivity|]. cbn [List.map filter].
  destruct (p (f x)); cbn [List.map]; rewrite IH; reflexivity.
Qed.

Lemma filter_none {A} (p : A -> bool) l : Forall (fun x => p x = false) l -> filter p l = [].
Proof.
  induction 1 as [|x l Hx _ IH]; [reflexivity|]. cbn [filter]. rewrite Hx. exact IH.
Qed.

Lemma str_eqb_refl s : str_eqb s s = true.
Proof. apply str_eqb_eq. reflexivity. Qed.

Lemma deprecatedMessage_eqb a b :
  str_eqb (deprecatedMessage a) (deprecatedMessage b) = str_eqb a b.
Proof.
  apply eq_true_iff_eq. rewrite !str_eqb_eq. split; [|intros ->; reflexivity].
  unfold deprecatedMessage, quoted. intros H.
  apply app_inv_head in H. apply app_inv_tail in H.
  apply app_inv_head in H. apply app_inv_tail in H. exact H.
Qed.

Section Facts.

Variable toLowerCase : jsstring -> jsstring.

Variable path_join : jsstring -> jsstring -> jsstring.

Variable path_resolve : jsstring -> jsstring -> jsstring.

Variable existsSync : jsstring -> bool.

Variable readJson : jsstring -> option PackageJson.

Local Abbreviation checkDependencies := (checkDependencies toLowerCase path_join existsSync readJson).

Local Abbreviation checkStructure := (checkStructure toLowerCase).

Local Abbreviation checkFrameworkStaleness := (checkFrameworkStaleness path_join existsSync readJson).

Local Abbreviation checkFilesystem := (checkFilesystem path_join path_resolve existsSync).

Local Abbreviation checkNpmScripts := (checkNpmScripts path_join existsSync readJson).

Lemma mentionedPathStep_tallied parsed repoRoot acc p :
  tallied "no-missing-path" acc ->
  tallied "no-missing-path" (mentionedPathStep path_resolve existsSync parsed repoRoot acc p).
Proof.
  intros H. unfold mentionedPathStep.
  destruct (_ || _); [assumption|].
  destruct (existsSync _); [apply tallied_pass; assumption|].
  apply tallied_push; [assumption|reflexivity].
Qed.

Lemma fold_commonDirStep parsed repoRoot dirs iss :
  exists extra,
    fold_left (commonDirStep path_join existsSync parsed repoRoot) dirs iss = iss ++ extra
    /\ Forall (fun i => hasRule "no-missing-directory" i = true) extra.
Proof.
  revert iss. induction dirs as [|d dirs IH]; intros iss; cbn [fold_left].
  - exists []. rewrite app_nil_r. split; [reflexivity|constructor].
  - unfold commonDirStep at 2.
    destruct (_ && _); [destruct (negb _)|]; try apply IH.
    match goal with |- context [fold_left _ dirs (iss ++ [?i])] =>
      destruct (IH (iss ++ [i])) as (extra & -> & Hx); exists (i :: extra) end.
    rewrite <- app_assoc. split; [reflexivity|]. constructor; [reflexivity|assumption].
Qed.

Lemma countRule_all r l : Forall (fun i => hasRule r i = true) l -> countRule r l = List.length l.
Proof.
  intros H. unfold countRule. induction H as [|i l Hi _ IH]; [reflexivity|].
  cbn [filter]. rewrite Hi. cbn [List.length]. f_equal. exact IH.
Qed.

Lemma checkFilesystem_failed parsed repoRoot :
  let r := checkFilesystem parsed repoRoot in
  failed r = countRule "no-missing-path" (issues r)
  /\ List.length (issues r) = failed r + countRule "no-missing-directory" (issues r).
Proof.
  unfold Checkers.checkFilesystem. cbn [failed issues].
  set (acc := fold_left _ (mentionedPaths parsed) _).
  assert (Hacc : tallied "no-missing-path" acc).
  { apply tallied_fold; [|apply tallied_empty].
    intros. apply mentionedPathStep_tallied. assumption. }
  destruct (fold_commonDirStep parsed repoRoot commonDirs (t_issues acc)) as (extra & -> & Hx).
  rewrite !countRule_app, length_app.
  rewrite (tallied_count _ _ Hacc). destruct Hacc as [H1 H2].
  rewrite (countRule_other "no-missing-directory" "no-missing-path") by (reflexivity || assumption).
  rewrite (countRule_other "no-missing-path" "no-missing-directory") by (reflexivity || assumption).
  rewrite (countRule_all _ _ Hx). lia.
Qed.

Lemma mentionedScriptStep_tallied parsed allScripts acc s :
  tallied "no-missing-script" acc ->
  tallied "no-missing-script" (mentionedScriptStep parsed allScripts acc s).
Proof.
  intros H. unfold mentionedScriptStep.
  destruct (set_has _ _); [apply tallied_pass; assumption|].
  apply tallied_push; [assumption|reflexivity].
Qed.

Lemma checkNpmScripts_failed parsed repoRoot :
  let r := checkNpmScripts parsed repoRoot in
  failed r = countRule "no-missing-script" (issues r)
  /\ List.length (issues r) = failed r + countRule "missing-test-script" (issues r).
Proof.
  unfold Checkers.checkNpmScripts.
  destruct (findPackageJsonFiles _ _ _ _) as [|p ps]; [split; reflexivity|].
  set (allScripts := fold_left _ (p :: ps) []).
  set (acc := fold_left _ (mentionedScripts parsed) _).
  assert (Hacc : tallied "no-missing-script" acc).
  { apply tallied_fold; [|apply tallied_empty].
    intros. apply mentionedScriptStep_tallied. assumption. }
  pose proof (tallied_count _ _ Hacc) as Hc. destruct Hacc as [H1 H2].
  pose proof (countRule_other "no-missing-script" "missing-test-script" _ eq_refl H2) as H0.
  destruct (_ && _); cbn [failed issues].
  - rewrite !countRule_app, length_app, Hc, H0. cbn. lia.
  - rewrite Hc, H0. lia.
Qed.

(** C8 (as amended).  [failed == issues.length] holds of the structure and
    framework-staleness validators.  The filesystem, script and dependency
    validators count as failed only the issues of their per-mention rule
    ([no-missing-path], [no-missing-script], [no-missing-dependency]); the
    issues of their second check ([no-missing-directory],
    [missing-test-script], [deprecated-dependency]) are raised without
    counting, so for these three [failed <= issues.length], the difference
    being the number of such issues. *)
Theorem failed_counts parsed repoRoot config :
  failed (checkStructure parsed config) = List.length (issues (checkStructure parsed config))
  /\ failed (checkFrameworkStaleness parsed repoRoot)
     = List.length (issues (checkFrameworkStaleness parsed repoRoot))
  /\ (let r := checkDependencies parsed repoRoot config in
      failed r = countRule "no-missing-dependency" (issues r)
      /\ List.length (issues r) = failed r + countRule "deprecated-dependency" (issues r))
  /\ (let r := checkFilesystem parsed repoRoot in
      failed r = countRule "no-missing-path" (issues r)
      /\ List.length (issues r) = failed r + countRule "no-missing-directory" (issues r))
  /\ (let r := checkNpmScripts parsed repoRoot in
      failed r = countRule "no-missing-script" (issues r)
      /\ List.length (issues r) = failed r + countRule "missing-test-script" (issues r)).
Proof.
  split; [apply checkStructure_failed|].
  split; [apply checkFrameworkStaleness_failed|].
  split; [apply checkDependencies_failed|].
  split; [apply checkFilesystem_failed|apply checkNpmScripts_failed].
Qed.

(** C7.  When the root manifest is readable and declares, among its
    dependencies, devDependencies or peerDependencies, a package of the
    deprecated-package table, the dependency validator raises exactly one
    [deprecated-dependency] issue for that package, whatever the document
    says; its suggestion names the table's replacement, and its severity is
    the configured one, [info] by default. *)
Theorem deprecated_dependency_reported parsed repoRoot config pkg deprecated replacement :
  existsSync (path_join repoRoot (js "package.json")) = true ->
  readJson (path_join repoRoot (js "package.json")) = Some pkg ->
  In (deprecated, replacement) DEPRECATED_PACKAGES ->
  In deprecated (keysOf (pkgDependencies pkg) ++ keysOf (pkgDevDependencies pkg)
                 ++ keysOf (pkgPeerDependencies pkg)) ->
  exists issue,
    filter (isDeprecatedIssueFor deprecated) (issues (checkDependencies parsed repoRoot config))
    = [issue]
    /\ suggestion issue = Some (js "Consider migrating to: " ++ replacement)
    /\ severity issue = staleDependencySeverity config
    /\ staleDependencySeverity emptyConfig = info.
Proof.
  intros Hex Hread Hin Hdecl.
  exists (deprecatedDependencyIssue parsed config (deprecated, replacement)).
  split; [|repeat split].
  unfold Checkers.checkDependencies. rewrite Hex, Hread. cbn [negb issues].
  set (acc := fold_left _ (mentionedDependencies parsed) _).
  assert (Hacc : tallied "no-missing-dependency" acc).
  { apply tallied_fold; [|apply tallied_empty].
    intros. apply mentionedDependencyStep_tallied. assumption. }
  rewrite fold_deprecatedStep, filter_app.
  rewrite (filter_none (isDeprecatedIssueFor deprecated) (t_issues acc)).
  2:{ destruct Hacc as [_ H]. eapply Forall_impl; [|exact H].
      intros i Hi. unfold isDeprecatedIssueFor, hasRule in *.
      apply str_eqb_eq in Hi. rewrite Hi. reflexivity. }
  cbn [app]. rewrite filter_map_swap.
  assert (Hinst : set_has deprecated (allDepsOf pkg) = true).
  { apply set_has_In. unfold allDepsOf. apply setOf_In. exact Hdecl. }
  assert (Hp : forall e, isDeprecatedIssueFor deprecated (deprecatedDependencyIssue parsed config e)
                         = str_eqb (fst e) deprecated).
  { intros [d r]. unfold isDeprecatedIssueFor, hasRule. cbn [rule message deprecatedDependencyIssue fst].
    rewrite deprecatedMessage_eqb. reflexivity. }
  rewrite (filter_ext _ _ Hp), filter_filter_comm.
  cbn in Hin.
  repeat (destruct Hin as [E|Hin];
          [injection E as <- <-;
           match goal with |- context [filter ?p DEPRECATED_PACKAGES] =>
             let v := eval vm_compute in (filter p DEPRECATED_PACKAGES) in
             change (filter p DEPRECATED_PACKAGES) with v
           end;
           cbn [filter fst];
           match goal with |- context [set_has ?d (allDepsOf pkg)] =>
             replace (set_has d (allDepsOf pkg)) with true by (symmetry; exact Hinst)
           end; reflexivity|]).
  contradiction.
Qed.

End Facts.

(** With [moment] in the manifest and an empty document, the one issue for
    [moment] is raised, at severity [info]. *)
Lemma deprecated_dependency_reported_witness :
  In (js "moment", js "date-fns or dayjs") DEPRECATED_PACKAGES
  /\ exists issue,
       filter (isDeprecatedIssueFor (js "moment")) (issues momentResult) = [issue]
       /\ suggestion issue = Some (js "Consider migrating to: " ++ js "date-fns or dayjs")
       /\ severity issue = staleDependencySeverity emptyConfig
       /\ staleDependencySeverity emptyConfig = info.
Proof.
  assert (H : In (js "moment", js "date-fns or dayjs") DEPRECATED_PACKAGES)
    by (right; left; reflexivity).
  split; [exact H|].
  apply (deprecated_dependency_reported toLowerCaseASCII joinPath (fun _ => true)
           (fun _ => Some momentManifest) emptyDocument (js "/repo") emptyConfig
           momentManifest (js "moment") (js "date-fns or dayjs") eq_refl eq_refl H).
  left. reflexivity.
Defined.

(** C8 as stated fails: the dependency validator is a third exception.  With
    [moment] installed and nothing mentioned it returns one issue and
    [failed = 0]. *)
Lemma dependencies_failed_differs :
  failed momentResult = 0 /\ List.length (issues momentResult) = 1.
Proof. split; reflexivity. Qed.

End CheckerFacts.

(* ================================================================== *)
(** * The fix mode: claim C6 *)
(* ================================================================== *)

Module FixFacts.
Import JSString JSRegExp Types Fix.

Lemma splice1_in_range (a : list jsstring) (k : nat) :
  (k < List.length a)%nat ->
  splice1 a (Z.of_nat k) = firstn k a ++ skipn (S k) a.
Proof.
  intros Hk. unfold splice1.
  replace (Z.of_nat k <? 0)%Z with false by (symmetry; apply Z.ltb_ge; lia).
  rewrite Z.min_l by lia. now rewrite Nat2Z.id.
Qed.

Lemma keepFrom_above (i : nat) (removed : list nat) (lns : list jsstring) :
  (forall m, In m removed -> (m < i)%nat) -> keepFrom i removed lns = lns.
Proof.
  revert i. induction lns as [|x lns IH]; intros i H; cbn; [reflexivity|].
  destruct (existsb (Nat.eqb i) removed) eqn:E.
  - apply existsb_exists in E. destruct E as [m [Hm E]].
    apply Nat.eqb_eq in E. subst m. apply H in Hm. lia.
  - f_equal. apply IH. intros m Hm. apply H in Hm. lia.
Qed.

Lemma keepFrom_removed (lns : list jsstring) : forall (i k : nat) (removed : list nat),
  (forall m, In m removed -> (m < i + k)%nat) ->
  (k < List.length lns)%nat ->
  keepFrom i removed (firstn k lns ++ skipn (S k) lns) = keepFrom i (i + k :: removed)%nat lns.
Proof.
  induction lns as [|x lns IH]; intros i k removed Hlt Hk; [cbn in Hk; lia|].
  destruct k as [|k].
  - cbn [firstn skipn app keepFrom existsb]. rewrite Nat.add_0_r, Nat.eqb_refl. cbn [orb].
    rewrite Nat.add_0_r in Hlt.
    rewrite !keepFrom_above; [reflexivity| |assumption].
    intros m [<-|Hm]; [lia|]. apply Hlt in Hm. lia.
  - change (skipn (S (S k)) (x :: lns)) with (skipn (S k) lns).
    cbn [firstn app keepFrom existsb].
    replace (i =? i + S k)%nat with false by (symmetry; apply Nat.eqb_neq; lia).
    cbn [orb]. cbn in Hk.
    rewrite (IH (S i) k removed) by (try lia; intros m Hm; apply Hlt in Hm; lia).
    replace (S i + k)%nat with (i + S k)%nat by lia. reflexivity.
Qed.

Lemma fold_splice_keepLines (removed : list nat) : forall lns : list jsstring,
  descending removed ->
  (forall m, In m removed -> (1 <= m <= List.length lns)%nat) ->
  fold_left (fun nl lineNum => splice1 nl (Z.of_nat lineNum - 1)) removed lns
  = keepLines removed lns.
Proof.
  induction removed as [|n removed IH]; intros lns Hs Hr.
  - cbn. unfold keepLines. symmetry. apply keepFrom_above. intros m [].
  - inversion Hs as [|? ? Hs' Hall]; subst.
    rewrite Forall_forall in Hall.
    assert (Hn := Hr n (or_introl eq_refl)).
    cbn [fold_left].
    replace (Z.of_nat n - 1)%Z with (Z.of_nat (n - 1)) by lia.
    rewrite splice1_in_range by lia.
    rewrite IH; [|assumption|].
    + unfold keepLines.
      rewrite keepFrom_removed.
      * replace (1 + (n - 1))%nat with n by lia. reflexivity.
      * intros m Hm. assert (Hm' := Hr m (or_intror Hm)). apply Hall in Hm. lia.
      * lia.
    + intros m Hm. assert (Hm' := Hr m (or_intror Hm)). apply Hall in Hm.
      rewrite length_app, length_firstn, length_skipn. lia.
Qed.

Lemma insertDescending_In (n : nat) (l : list nat) (m : nat) :
  In m (insertDescending n l) <-> m = n \/ In m l.
Proof.
  induction l as [|x l IH]; cbn [insertDescending In].
  - split; intros H; decompose [or] H; subst; auto; contradiction.
  - destruct (x <? n)%nat; cbn [In]; rewrite ?IH;
      split; intros H; decompose [or] H; subst; auto.
Qed.

Lemma sortDescending_In (l : list nat) (m : nat) : In m (sortDescending l) <-> In m l.
Proof.
  induction l as [|x l IH]; cbn; [tauto|].
  rewrite insertDescending_In, IH. split; intros H; decompose [or] H; subst; auto.
Qed.

Lemma insertDescending_sorted (n : nat) (l : list nat) :
  descending l -> ~ In n l -> descending (insertDescending n l).
Proof.
  unfold descending. induction 1 as [|x l Hs IH Hall]; intros Hn; cbn [insertDescending].
  - constructor; constructor.
  - destruct (x <? n)%nat eqn:E.
    + apply Nat.ltb_lt in E. constructor; [constructor; assumption|].
      constructor; [assumption|].
      rewrite Forall_forall in Hall |- *. intros m Hm. apply Hall in Hm. lia.
    + apply Nat.ltb_ge in E. constructor.
      * apply IH. intros H. apply Hn. now right.
      * rewrite Forall_forall in Hall |- *. intros m Hm.
        apply insertDescending_In in Hm. destruct Hm as [->|Hm]; [|now apply Hall].
        assert (x <> n) by (intros ->; apply Hn; now left). lia.
Qed.

Lemma sortDescending_sorted (l : list nat) : NoDup l -> descending (sortDescending l).
Proof.
  induction 1 as [|x l Hx Hnd IH]; cbn; [constructor|].
  apply insertDescending_sorted; [assumption|]. now rewrite sortDescending_In.
Qed.

Lemma existsb_eqb_In (i : nat) (l : list nat) : existsb (Nat.eqb i) l = true <-> In i l.
Proof.
  rewrite existsb_exists. split.
  - intros [m [Hm E]]. apply Nat.eqb_eq in E. now subst.
  - intros H. exists i. split; [assumption|apply Nat.eqb_refl].
Qed.

Lemma keepFrom_ext (l l' : list nat) (lns : list jsstring) :
  (forall m, In m l <-> In m l') -> forall i, keepFrom i l lns = keepFrom i l' lns.
Proof.
  intros H. induction lns as [|x lns IH]; intros i; cbn; [reflexivity|].
  assert (E : existsb (Nat.eqb i) l = existsb (Nat.eqb i) l').
  { apply eq_true_iff_eq. rewrite !existsb_eqb_In. apply H. }
  rewrite E, !IH. reflexivity.
Qed.

Lemma addLine_In (s : list nat) (n m : nat) : In m (addLine s n) <-> In m s \/ m = n.
Proof.
  unfold addLine. destruct (existsb (Nat.eqb n) s) eqn:E.
  - apply existsb_eqb_In in E. split; [tauto|]. intros [H| ->]; assumption.
  - rewrite in_app_iff. cbn. split; intros H; decompose [or] H; subst; auto; contradiction.
Qed.

Lemma addLine_NoDup (s : list nat) (n : nat) : NoDup s -> NoDup (addLine s n).
Proof.
  intros H. unfold addLine. destruct (existsb (Nat.eqb n) s) eqn:E; [assumption|].
  assert (Hn : ~ In n s).
  { intros Hin. apply existsb_eqb_In in Hin. congruence. }
  clear E. induction H as [|x l Hx Hnd IH]; cbn.
  - constructor; [intros []|constructor].
  - constructor.
    + rewrite in_app_iff. cbn. intros [H|[H|[]]]; [contradiction|].
      subst. apply Hn. now left.
    + apply IH. intros H. apply Hn. now right.
Qed.

Lemma buildFixAction_RemoveLine (issue : LintIssue) (fileLines : list jsstring) (n : nat) :
  buildFixAction issue fileLines = Some (RemoveLine n) ->
  (1 <= n <= List.length fileLines)%nat.
Proof.
  unfold buildFixAction. destruct (line issue) as [k|].
  - destruct ((1 <=? k)%nat && (k <=? List.length fileLines)%nat) eqn:E.
    + intros [= <-]. apply andb_true_iff in E. destruct E as [E1 E2].
      apply Nat.leb_le in E1, E2. lia.
    + destruct (getSectionTemplate (rule issue)); discriminate.
  - destruct (getSectionTemplate (rule issue)); discriminate.
Qed.

Lemma issueStep_wellFormed ask fileLines st issue :
  wellFormed fileLines st -> wellFormed fileLines (issueStep ask fileLines st issue).
Proof.
  intros [Hnd Hr]. unfold issueStep.
  destruct (quit st); [now split|].
  destruct (buildFixAction issue fileLines) as [action|] eqn:Ea; [|now split].
  destruct (str_eqb _ (js "q") || _); [now split|].
  destruct (str_eqb _ (js "y") || _); [|now split].
  destruct action as [n|content]; [|now split].
  split; cbn.
  - now apply addLine_NoDup.
  - intros m Hm. apply addLine_In in Hm. destruct Hm as [Hm| ->]; [now apply Hr|].
    eapply buildFixAction_RemoveLine; eassumption.
Qed.

Lemma interactiveLoop_wellFormed ask report fileLines :
  wellFormed fileLines (interactiveLoop ask report fileLines).
Proof.
  unfold interactiveLoop.
  assert (H0 : wellFormed fileLines
            {| linesToRemove := []; sectionsToAdd := []; asked := 0; quit := false |}).
  { split; cbn; [constructor|intros m []]. }
  revert H0. generalize {| linesToRemove := []; sectionsToAdd := []; asked := 0; quit := false |}.
  induction (results report) as [|r rs IH]; intros st Hst; cbn; [assumption|].
  apply IH. unfold resultStep. destruct (quit st); [assumption|].
  revert st Hst. induction (issues r) as [|i iss IHi]; intros st Hst; cbn; [assumption|].
  apply IHi. now apply issueStep_wellFormed.
Qed.

(** Without issues nothing is decided. *)
Lemma interactiveLoop_no_issues ask report fileLines :
  flat_map issues (results report) = [] ->
  interactiveLoop ask report fileLines
  = {| linesToRemove := []; sectionsToAdd := []; asked := 0; quit := false |}.
Proof.
  unfold interactiveLoop.
  generalize {| linesToRemove := []; sectionsToAdd := []; asked := 0; quit := false |}.
  induction (results report) as [|r rs IH]; intros st H; cbn; [reflexivity|].
  cbn in H. apply app_eq_nil in H. destruct H as [H1 H2].
  unfold resultStep. rewrite H1. cbn. destruct (quit st); now apply IH.
Qed.

Lemma applyFixes_keepLines fileLines st :
  wellFormed fileLines st ->
  applyFixes fileLines st
  = keepLines (linesToRemove st) fileLines
    ++ match sectionsToAdd st with
       | [] => []
       | _ :: _ => split NL (join [NL] (sectionsToAdd st))
       end.
Proof.
  intros [Hnd Hr]. unfold applyFixes.
  rewrite fold_splice_keepLines.
  - unfold keepLines. rewrite (keepFrom_ext (sortDescending (linesToRemove st)) (linesToRemove st))
      by (intros m; apply sortDescending_In).
    destruct (sectionsToAdd st); [now rewrite app_nil_r|reflexivity].
  - now apply sortDescending_sorted.
  - intros m Hm. apply Hr. now apply (proj1 (sortDescending_In _ _)).
Qed.








End FixFacts.

(* ================================================================== *)
(** * All the documents of a repository: claim C10 *)
(* ================================================================== *)

Module LinterFacts.
Import Binary64Facts NumberFacts ReporterFacts.
Import JSString JSNumber Types Reporter Parser Checkers Linter.
Local Open Scope Z_scope.

Lemma integral_same_eq (x y : integral) : integral_same x y = true -> x = y.
Proof.
  destruct x, y; cbn; try discriminate. intros H. apply Z.eqb_eq in H. now subst.
Qed.

Lemma upTo_In (n : nat) (z : Z) : (0 <= z <= Z.of_nat n)%Z -> In z (upTo n).
Proof.
  intros H. unfold upTo. apply in_map_iff. exists (Z.to_nat z). split; [lia|].
  apply in_seq. lia.
Qed.

Lemma forallb_upTo (f : Z -> bool) (n : nat) :
  forallb f (upTo n) = true -> forall z, (0 <= z <= Z.of_nat n)%Z -> f z = true.
Proof.
  intros H z Hz. rewrite forallb_forall in H. apply H. now apply upTo_In.
Qed.

Lemma meansExact : forallb meanExact (List.seq 1 10) = true.
Proof. vm_compute. reflexivity. Qed.

Lemma round_mean (n : nat) (t : Z) :
  (1 <= n <= 10)%nat -> (0 <= t <= 100 * Z.of_nat n)%Z ->
  Math_round (div (ofZ t) (ofZ (Z.of_nat n)))
  = IInt (round (inject_Z t / inject_Z (Z.of_nat n))%Q).
Proof.
  intros Hn Ht. apply integral_same_eq.
  assert (H : meanExact n = true).
  { apply (proj1 (forallb_forall meanExact (List.seq 1 10)) meansExact).
    apply in_seq. lia. }
  apply (forallb_upTo _ (100 * n) H). lia.
Qed.

Lemma sumScoreZ_bounds (reports : list LintReport) :
  Forall percentage reports ->
  (0 <= sumScoreZ reports <= 100 * Z.of_nat (List.length reports))%Z.
Proof.
  induction 1 as [|r rs [z [Hz Hr]] _ IH]; cbn [sumScoreZ fold_right List.length]; [lia|].
  fold (sumScoreZ rs). unfold scoreZ. rewrite Hz. lia.
Qed.

Lemma sumScores_exact (reports : list LintReport) :
  Forall percentage reports -> (List.length reports <= 10)%nat ->
  sumScores reports = ofZ (sumScoreZ reports).
Proof.
  intros Hp Hlen. unfold sumScores.
  enough (G : forall acc, (0 <= acc)%Z ->
            (acc + 100 * Z.of_nat (List.length reports) <= 1000)%Z ->
            fold_left (fun sum r => add sum (ofIntegral (score r))) reports (ofZ acc)
            = ofZ (acc + sumScoreZ reports)).
  { apply (G 0%Z); lia. }
  clear Hlen. induction Hp as [|r rs [z [Hz Hr]] Hrs IH]; intros acc H0 H1.
  - cbn. now rewrite Z.add_0_r.
  - cbn [fold_left sumScoreZ fold_right]. fold (sumScoreZ rs).
    cbn [List.length] in H1. rewrite Hz. cbn [ofIntegral].
    rewrite add_ofZ by lia.
    rewrite IH by lia. unfold scoreZ. rewrite Hz. f_equal. lia.
Qed.

Lemma aggregate_mean (reports : list LintReport) (crossCheck : CheckResult) :
  Forall percentage reports -> (1 <= List.length reports <= 10)%nat ->
  overallScore (aggregate reports crossCheck) = IInt (round (meanScore reports)).
Proof.
  intros Hp Hlen. cbn [aggregate overallScore].
  rewrite sumScores_exact by (try assumption; lia).
  assert (Hb := sumScoreZ_bounds reports Hp).
  now rewrite round_mean.
Qed.

Section Facts.

Variable toLowerCase : jsstring -> jsstring.

Variable path_join : jsstring -> jsstring -> jsstring.

Variable path_resolve : jsstring -> jsstring -> jsstring.

Variable path_absolute : jsstring -> jsstring.

Variable path_relative : jsstring -> jsstring -> jsstring.

Variable existsSync : jsstring -> bool.

Variable readJson : jsstring -> option PackageJson.

Variable readFileSync : jsstring -> jsstring.

Variable loadConfig : jsstring -> LintConfig.

Variable now : jsstring.

Local Abbreviation lint :=
  (lint toLowerCase path_join path_resolve path_relative existsSync readJson readFileSync
     loadConfig now).

Local Abbreviation lintEach :=
  (lintEach toLowerCase path_join path_resolve path_relative existsSync readJson readFileSync
     loadConfig now).

Local Abbreviation foundPaths := (foundPaths toLowerCase path_join path_absolute existsSync).

Local Abbreviation foundStep := (foundStep toLowerCase path_absolute existsSync).

Local Abbreviation fileContextsOf := (fileContextsOf path_relative readFileSync).

Local Abbreviation lintAll :=
  (lintAll toLowerCase path_join path_resolve path_absolute path_relative existsSync readJson
     readFileSync loadConfig now).

Lemma lint_scored st filePath repoRoot r st' :
  lint st filePath repoRoot = Some (r, st') -> scored r.
Proof.
  unfold Linter.lint.
  destruct (resolveFilePath path_join existsSync filePath repoRoot) as [p|]; [|discriminate].
  destruct p as [|c p]; [discriminate|].
  destruct (negb _); [discriminate|].
  unfold lintFile. destruct (parseAgentsMd st _) as [parsed st1].
  intros [= <- _]. reflexivity.
Qed.

Lemma lintEach_scored paths : forall st repoRoot rs st',
  lintEach st paths repoRoot = Some (rs, st') ->
  List.length rs = List.length paths /\ Forall scored rs.
Proof.
  induction paths as [|fp paths IH]; intros st repoRoot rs st'; cbn [Linter.lintEach].
  - intros [= <- _]. split; [reflexivity|constructor].
  - destruct (lint st (Some fp) repoRoot) as [[r st1]|] eqn:El; [|discriminate].
    destruct (lintEach st1 paths repoRoot) as [[rs' st2]|] eqn:Ee; [|discriminate].
    intros [= <- _]. destruct (IH _ _ _ _ Ee) as [Hl Hf].
    split; [cbn; now rewrite Hl|]. constructor; [|assumption].
    eapply lint_scored; eassumption.
Qed.

Lemma foundStep_length (l : list jsstring) : forall acc,
  (List.length (fst (fold_left foundStep l acc)) <= List.length (fst acc) + List.length l)%nat.
Proof.
  induction l as [|p l IH]; intros [found seen]; cbn [fold_left List.length fst]; [lia|].
  etransitivity; [apply IH|].
  unfold Linter.foundStep. destruct (negb (existsSync p)); cbn [fst]; [lia|].
  destruct (set_has _ seen); cbn [fst]; [lia|]. rewrite length_app. cbn. lia.
Qed.

Lemma foundPaths_length (repoRoot : jsstring) :
  (List.length (foundPaths repoRoot) <= 10)%nat.
Proof.
  unfold Linter.foundPaths.
  etransitivity; [apply foundStep_length|]. rewrite length_map. cbn. lia.
Qed.

(** C10.  When [lintAll] returns, between one and ten documents were linted,
    and the overall score is [Math.round] of the sum of their scores divided
    by their number, computed in doubles.  Provided every document's counters
    and penalty are below [2^53], this is the exact mean of the scores
    rounded to the nearest integer, ties upwards.  The result of the
    cross-document check does not enter it: with any other cross-document
    check the same documents get the same reports and the same overall
    score.  The issues of that check are counted, by severity, in the three
    totals, next to the sums of the documents' own counts. *)
Theorem lintAll_overallScore
  (checkCrossConsistency checkCrossConsistency' : list FileContext -> CheckResult)
  (st : FrameworkState) (repoRoot : jsstring) (report : MultiLintReport)
  (st' : FrameworkState) :
  lintAll checkCrossConsistency st repoRoot = Some (report, st') ->
  (1 <= List.length (reports report) <= 10)%nat
  /\ overallScore report
     = Math_round (div (sumScores (reports report))
                       (ofZ (Z.of_nat (List.length (reports report)))))
  /\ (Forall (fun r => safeIntegers (results r)) (reports report) ->
      overallScore report = IInt (round (meanScore (reports report))))
  /\ (exists report',
        lintAll checkCrossConsistency' st repoRoot = Some (report', st')
        /\ reports report' = reports report
        /\ overallScore report' = overallScore report)
  /\ totalErrors report
     = (sumOf errors (reports report) + countIssues error (issues (crossCheck report)))%nat
  /\ totalWarnings report
     = (sumOf warnings (reports report) + countIssues warn (issues (crossCheck report)))%nat
  /\ totalInfos report
     = (sumOf infos (reports report) + countIssues info (issues (crossCheck report)))%nat.
Proof.
  unfold Linter.lintAll.
  assert (Hlen := foundPaths_length repoRoot).
  destruct (foundPaths repoRoot) as [|fp found] eqn:Ef; [discriminate|].
  destruct (lintEach st (fp :: found) repoRoot) as [[rs st1]|] eqn:Ee; [|discriminate].
  destruct (fileContextsOf st1 (fp :: found) repoRoot) as [fileContexts st2].
  intros [= <- <-].
  destruct (lintEach_scored _ _ _ _ _ Ee) as [Hl Hsc].
  cbn [reports aggregate overallScore totalErrors totalWarnings totalInfos crossCheck].
  assert (Hn : (1 <= List.length rs <= 10)%nat) by (rewrite Hl; cbn in Hlen |- *; lia).
  split; [exact Hn|]. split; [reflexivity|]. split.
  { intros Hsafe.
    apply (aggregate_mean rs (checkCrossConsistency fileContexts)); [|exact Hn].
    rewrite Forall_forall in Hsafe, Hsc |- *. intros r Hr.
    destruct (computeScore_percentage (results r) (Hsafe r Hr)) as [z [Hz Hb]].
    exists z. split; [|assumption]. now rewrite (Hsc r Hr). }
  split; [|repeat split].
  eexists. split; [reflexivity|]. split; reflexivity.
Qed.

End Facts.

(** On the sample repository the scores are 57 and 36, the overall score is
    47, and the error of the cross-document check is in the total. *)
Lemma lintAll_overallScore_witness :
  sampleLintAll (fun _ => pmConflict) = Some (sampleReport, sampleState)
  /\ map score (reports sampleReport) = [IInt 57; IInt 36]
  /\ overallScore sampleReport = IInt (round (meanScore (reports sampleReport)))
  /\ overallScore sampleReport = IInt 47
  /\ totalErrors sampleReport = (sumOf errors (reports sampleReport) + 1)%nat.
Proof.
  assert (H : sampleLintAll (fun _ => pmConflict) = Some (sampleReport, sampleState))
    by (vm_compute; reflexivity).
  assert (Hsafe : Forall (fun r => safeIntegers (results r)) (reports sampleReport))
    by (repeat constructor).
  pose proof (lintAll_overallScore toLowerCaseASCII samplePath samplePath (fun p => p)
                (fun _ p => p) sampleExists (fun _ => None) sampleRead
                (fun _ => emptyConfig) (js "2024-01-01T00:00:00.000Z")
                (fun _ => pmConflict) (fun _ => emptyResult "cross-consistency")
                initialFrameworkState (js "/repo") sampleReport sampleState H)
    as (_ & _ & Hmean & _ & Herr & _).
  split; [exact H|]. split; [vm_compute; reflexivity|].
  split; [exact (Hmean Hsafe)|]. split; [vm_compute; reflexivity|exact Herr].
Defined.

End LinterFacts.

(* ================================================================== *)
(** * Further facts about the parser *)
(* ================================================================== *)

Module ParserProps.
Import JSString JSRegExp Types Parser ParserFacts ParserNotions.
Local Open Scope list_scope.

Lemma set_add_NoDup (s : list jsstring) (x : jsstring) : NoDup s -> NoDup (set_add s x).
Proof.
  intros H. unfold set_add. destruct (set_has x s) eqn:E; [assumption|].
  assert (Hn : ~ In x s).
  { intros Hin. apply set_has_In in Hin. congruence. }
  clear E. induction H as [|y l Hy Hnd IH]; cbn.
  - constructor; [intros []|constructor].
  - constructor.
    + rewrite in_app_iff. cbn. intros [H|[H|[]]]; [contradiction|].
      subst. apply Hn. now left.
    + apply IH. intros H. apply Hn. now right.
Qed.

Lemma extractWith_NoDup patterns f content : NoDup (extractWith patterns f content).
Proof.
  unfold extractWith.
  assert (H0 : NoDup (@nil jsstring)) by constructor.
  revert H0. generalize (@nil jsstring).
  induction patterns as [|p ps IH]; intros acc Hacc; cbn [fold_left]; [assumption|].
  apply IH. revert acc Hacc.
  induction (execAll p content) as [|m ms IHm]; intros acc Hacc; cbn [fold_left]; [assumption|].
  apply IHm. unfold addAccepted. destruct (f m); [now apply set_add_NoDup|assumption].
Qed.

Lemma extractFrameworksFrom_NoDup (content : jsstring) : forall table st,
  NoDup (List.map fst table) -> NoDup (fst (extractFrameworksFrom table st content)).
Proof.
  induction table as [|[framework patterns] table IH]; intros st Hnd; cbn [extractFrameworksFrom].
  - constructor.
  - destruct st as [|lis st]; [constructor|].
    destruct (testPatterns patterns lis content) as [found lis'].
    cbn [List.map fst] in Hnd. inversion Hnd as [|? ? Hx Hrest]; subst.
    specialize (IH st Hrest).
    pose proof (fun x => extractFrameworksFrom_In content x table st) as Hin.
    destruct (extractFrameworksFrom table st content) as [frameworks st''].
    cbn [fst] in *. destruct found; cbn [app]; [|assumption].
    constructor; [|assumption]. intros H. apply Hx. now apply Hin.
Qed.

(** X1.  Whatever the state of the framework patterns, none of the four
    lists of references that [parseAgentsMd] extracts (paths, scripts,
    dependencies, frameworks) holds a string twice. *)
Theorem extracted_lists_NoDup (st : FrameworkState) (content : jsstring) :
  NoDup (mentionedPaths (fst (parseAgentsMd st content)))
  /\ NoDup (mentionedScripts (fst (parseAgentsMd st content)))
  /\ NoDup (mentionedDependencies (fst (parseAgentsMd st content)))
  /\ NoDup (mentionedFrameworks (fst (parseAgentsMd st content))).
Proof.
  unfold parseAgentsMd.
  pose proof (extractFrameworksFrom_NoDup content FRAMEWORK_PATTERNS st) as Hf.
  unfold extractFrameworks. destruct (extractFrameworksFrom FRAMEWORK_PATTERNS st content) as [f s].
  cbn [fst mentionedPaths mentionedScripts mentionedDependencies mentionedFrameworks].
  repeat split; try apply extractWith_NoDup.
  apply Hf. cbn. repeat constructor; cbn; intros H;
    repeat (destruct H as [H|H]; [discriminate H|]); exact H.
Qed.

(* ----- captures ----- *)

Lemma runLength_firstn (p : codeUnit -> bool) (s : jsstring) : forall hi n,
  n <= runLength p hi s -> forallb p (firstn n s) = true.
Proof.
  induction s as [|x s IH]; intros hi n Hn; cbn [runLength] in Hn.
  - assert (n = 0) by lia. subst. reflexivity.
  - destruct n as [|n]; [reflexivity|]. cbn [firstn forallb].
    destruct (p x) eqn:Ep; [|lia]. cbn [andb].
    destruct hi as [[|h]|]; [lia| |]; eapply IH with (n := n); [instantiate (1 := Some h)|instantiate (1 := None)]; lia.
Qed.

Lemma forallb_impl (p P : codeUnit -> bool) (s : jsstring) :
  (forall c, p c = true -> P c = true) -> forallb p s = true -> forallb P s = true.
Proof.
  intros H. rewrite !forallb_forall. auto.
Qed.

Lemma consume_caps (n : nat) : forall st, caps (consume n st) = caps st.
Proof.
  induction n as [|n IH]; intros st; cbn [consume]; [reflexivity|].
  destruct (rest st) as [|x xs]; [reflexivity|]. rewrite IH. reflexivity.
Qed.

Lemma run_capsIn (P : codeUnit -> bool) (ic : bool) (r : regex) : forall st k res,
  groupsIn P r -> capsIn P (caps st) -> run ic r st k = Some res ->
  exists st1, k st1 = Some res /\ capsIn P (caps st1).
Proof.
  induction r as [c|p|r1 IH1 r2 IH2|r1 IH1 r2 IH2|n r IH|p lo hi| | | |];
    intros st k res Hg Hc H; cbn [run] in H.
  - destruct (rest st) as [|x xs]; [discriminate|].
    destruct (cu_eqb _ _); [|discriminate]. exists (advance st x xs). split; assumption.
  - destruct (rest st) as [|x xs]; [discriminate|].
    destruct (p x); [|discriminate]. exists (advance st x xs). split; assumption.
  - destruct Hg as [Hg1 Hg2].
    apply IH1 in H; [|assumption|assumption]. destruct H as [st1 [H Hc1]].
    apply IH2 in H; assumption.
  - destruct Hg as [Hg1 Hg2]. destruct (run ic r1 st k) as [res1|] eqn:E1.
    + injection H as <-. eapply IH1; eassumption.
    + eapply IH2; eassumption.
  - destruct r as [| | | | |p lo hi| | | |]; cbn [groupsIn] in Hg; try contradiction.
    cbn [run] in H. apply repTry_inv in H. destruct H as [m [Hm Hk]].
    eexists. split; [exact Hk|]. cbn [setCap caps].
    pose proof (runLength_le p (rest st) hi) as Hle.
    destruct (consume_ahead m st) as [_ Hpos]; [lia|].
    destruct Hg as [Hlo Hg].
    constructor.
    + cbn [snd]. rewrite Hpos. replace (pos st + m - pos st) with m by lia. split.
      * intros E. apply (f_equal (@List.length codeUnit)) in E.
        rewrite length_firstn in E. cbn in E. lia.
      * apply (forallb_impl p P); [exact Hg|]. apply (runLength_firstn p (rest st) hi). lia.
    + rewrite consume_caps. assumption.
  - apply repTry_inv in H. destruct H as [m [Hm Hk]].
    exists (consume m st). split; [assumption|]. rewrite consume_caps. assumption.
  - destruct (pos st =? 0); [|discriminate]. exists st. split; assumption.
  - destruct (rest st); [|discriminate]. exists st. split; assumption.
  - destruct (xorb _ _); [|discriminate]. exists st. split; assumption.
  - exists st. split; assumption.
Qed.

Lemma search_capsIn (P : codeUnit -> bool) (ic : bool) (r : regex) (rs : jsstring) :
  groupsIn P r -> forall pv i m,
  search ic r pv rs i = Some m -> capsIn P (groups m).
Proof.
  intros Hg. induction rs as [|x rs IH]; intros pv i m; cbn [search].
  - destruct (run ic r _ Some) as [st'|] eqn:E; [|discriminate].
    intros [= <-]. cbn [groups].
    apply (run_capsIn P) in E; [|assumption|constructor].
    destruct E as [st1 [[= ->] Hc]]. exact Hc.
  - destruct (run ic r _ Some) as [st'|] eqn:E.
    + intros [= <-]. cbn [groups].
      apply (run_capsIn P) in E; [|assumption|constructor].
      destruct E as [st1 [[= ->] Hc]]. exact Hc.
    + apply IH.
Qed.

Lemma execLoop_capsIn (P : codeUnit -> bool) (re : RegExp) (s : jsstring) :
  groupsIn P (source re) -> forall fuel lastIndex m,
  In m (execLoop fuel re s lastIndex) -> capsIn P (groups m).
Proof.
  intros Hg. induction fuel as [|fuel IH]; intros lastIndex m; cbn [execLoop]; [intros []|].
  destruct (execAt re s lastIndex) as [m0|] eqn:E; [|intros []].
  intros [<-|H]; [|eapply IH; exact H].
  unfold execAt in E. destruct (List.length s <? lastIndex); [discriminate|].
  eapply search_capsIn; eassumption.
Qed.

Lemma group_capsIn (P : codeUnit -> bool) (n : nat) (m : match_result) (x : jsstring) :
  capsIn P (groups m) -> group n m = Some x -> x <> [] /\ forallb P x = true.
Proof.
  unfold group, capsIn. induction (groups m) as [|[i t] g IH]; cbn [lookupGroup]; [discriminate|].
  intros Hc. inversion Hc as [|? ? Ht Hg]; subst.
  destruct (i =? n); [intros [= <-]; exact Ht|now apply IH].
Qed.

Lemma SCRIPT_PATTERNS_groups :
  Forall (fun re => groupsIn isScriptChar (source re)) SCRIPT_PATTERNS.
Proof. repeat constructor; cbn; auto. Qed.

(** X2.  A script name is listed by [extractScripts] exactly when one of
    the six script patterns has a match in the content whose first group is
    that name, and the name is neither [install] nor [init].  Every listed
    name is non-empty and consists of word characters, colons and dashes. *)
Theorem extractScripts_spec (content : jsstring) :
  (forall x : jsstring,
     In x (extractScripts content)
     <-> exists pattern m,
           In pattern SCRIPT_PATTERNS /\ In m (execAll pattern content)
           /\ group 1 m = Some x /\ x <> js "install" /\ x <> js "init")
  /\ (forall x : jsstring,
        In x (extractScripts content) ->
        x <> [] /\ forallb isScriptChar x = true /\ x <> js "install" /\ x <> js "init").
Proof.
  assert (Hchars : forall pattern m x,
             In pattern SCRIPT_PATTERNS -> In m (execAll pattern content) ->
             group 1 m = Some x -> forallb isScriptChar x = true /\ x <> []).
  { intros pattern m x Hp Hm Hg.
    pose proof SCRIPT_PATTERNS_groups as Hall. rewrite Forall_forall in Hall.
    pose proof (execLoop_capsIn isScriptChar pattern content (Hall _ Hp) _ _ _ Hm) as Hc.
    destruct (group_capsIn _ _ _ _ Hc Hg). auto. }
  assert (Hiff : forall x : jsstring,
     In x (extractScripts content)
     <-> exists pattern m,
           In pattern SCRIPT_PATTERNS /\ In m (execAll pattern content)
           /\ group 1 m = Some x /\ x <> js "install" /\ x <> js "init").
  { intros x. unfold extractScripts. rewrite extractWith_In. split.
    - intros (pattern & m & Hp & Hm & Ha). exists pattern, m.
      unfold acceptedScript in Ha. destruct (group 1 m) as [name|]; [|discriminate].
      destruct (negb (str_eqb name [])); [|discriminate]. cbn [andb] in Ha.
      destruct (str_eqb name (js "install")) eqn:E1; [discriminate|].
      destruct (str_eqb name (js "init")) eqn:E2; [discriminate|].
      cbn in Ha. injection Ha as <-.
      repeat split; try assumption; intros E; apply str_eqb_eq in E; congruence.
    - intros (pattern & m & Hp & Hm & Hg & H1 & H2). exists pattern, m.
      split; [assumption|]. split; [assumption|].
      destruct (Hchars _ _ _ Hp Hm Hg) as [_ Hne].
      unfold acceptedScript. rewrite Hg.
      destruct x as [|c x]; [congruence|].
      change (str_eqb (c :: x) []) with false.
      destruct (str_eqb (c :: x) (js "install")) eqn:E1;
        [apply str_eqb_eq in E1; congruence|].
      destruct (str_eqb (c :: x) (js "init")) eqn:E2;
        [apply str_eqb_eq in E2; congruence|]. reflexivity. }
  split; [exact Hiff|].
  intros x Hx. apply Hiff in Hx. destruct Hx as (pattern & m & Hp & Hm & Hg & H1 & H2).
  destruct (Hchars _ _ _ Hp Hm Hg) as [Hc Hne]. auto.
Qed.

(* ----- frameworks, from the initial state ----- *)

Lemma foldCase_false (s : jsstring) : foldCase false s = s.
Proof. unfold foldCase. induction s as [|c s IH]; cbn; [reflexivity|now rewrite IH]. Qed.

Lemma testGlobal_word (w : string) (content : jsstring) :
  js w <> [] ->
  fst (testGlobal {| source := word w; ignoreCase := false; global := true |} content 0)
  = includes (js w) content.
Proof.
  intros Hne. unfold testGlobal, execAt. cbn [ignoreCase source skipn prevAt List.length].
  change (List.length content <? 0) with false. cbv iota.
  pose proof (search_lit false (js w) None content 0 Hne) as H.
  rewrite !foldCase_false in H. unfold word.
  destruct (search false (lit (js w)) None content 0); cbn [fst]; exact H.
Qed.

Lemma testPatterns_fresh (content : jsstring) (ws : list string) :
  Forall (fun w => js w <> []) ws ->
  fst (testPatterns (List.map literal ws) (List.map (fun _ => 0) ws) content)
  = mentionsAny content ws.
Proof.
  induction 1 as [|w ws Hw _ IH]; cbn [List.map testPatterns mentionsAny existsb]; [reflexivity|].
  pose proof (testGlobal_word w content Hw) as Hg. unfold literal at 1.
  destruct (testGlobal _ content 0) as [hit li']. cbn [fst] in Hg. subst hit.
  destruct (includes (js w) content); cbn [orb fst]; [reflexivity|].
  fold (mentionsAny content ws). rewrite <- IH.
  destruct (testPatterns _ _ content) as [found lis']. reflexivity.
Qed.

Lemma extractFrameworksFrom_fresh (content : jsstring) (table : list (jsstring * list string)) :
  Forall (fun e => Forall (fun w => js w <> []) (snd e)) table ->
  fst (extractFrameworksFrom
         (List.map (fun e => (fst e, List.map literal (snd e))) table)
         (List.map (fun e => List.map (fun _ => 0) (snd e)) table) content)
  = List.map fst (filter (fun e => mentionsAny content (snd e)) table).
Proof.
  induction 1 as [|[f ws] table Hws _ IH]; cbn [List.map extractFrameworksFrom filter fst snd];
    [reflexivity|].
  pose proof (testPatterns_fresh content ws Hws) as Ht.
  destruct (testPatterns _ _ content) as [found lis']. cbn [fst] in Ht. subst found.
  destruct (extractFrameworksFrom _ _ content) as [frameworks st'']. cbn [fst] in *.
  destruct (mentionsAny content ws); cbn [app List.map fst]; now rewrite IH.
Qed.

(** X3.  On framework patterns that have not been used yet (every
    [lastIndex] is 0), the frameworks [parseAgentsMd] lists are exactly the
    keys of [FRAMEWORK_PATTERNS], in table order, one of whose literal texts
    occurs in the content. *)
Theorem extractFrameworks_fresh (content : jsstring) :
  mentionedFrameworks (fst (parseAgentsMd initialFrameworkState content))
  = List.map fst (filter (fun e => mentionsAny content (snd e)) FRAMEWORK_WORDS).
Proof.
  unfold parseAgentsMd, extractFrameworks.
  pose proof (extractFrameworksFrom_fresh content FRAMEWORK_WORDS) as H.
  change (List.map (fun e => (fst e, List.map literal (snd e))) FRAMEWORK_WORDS)
    with FRAMEWORK_PATTERNS in H.
  change (List.map (fun e => List.map (fun _ => 0) (snd e)) FRAMEWORK_WORDS)
    with initialFrameworkState in H.
  destruct (extractFrameworksFrom FRAMEWORK_PATTERNS initialFrameworkState content) as [f s].
  cbn [fst mentionedFrameworks] in *. apply H.
  repeat constructor; discriminate.
Qed.

(* ----- sections: count and bodies ----- *)
Local Open Scope Z_scope.

Lemma bodyLines_app (pre post : list jsstring) (s : ParsedSection) :
  0 <= startLine s <= endLine s -> endLine s < Z.of_nat (List.length pre) ->
  bodyLines (pre ++ post) s = bodyLines pre s.
Proof.
  intros H1 H2. unfold bodyLines.
  rewrite skipn_app, firstn_app.
  replace (Z.to_nat (endLine s - startLine s)
           - List.length (skipn (S (Z.to_nat (startLine s))) pre))%nat with 0%nat
    by (rewrite length_skipn; lia).
  rewrite firstn_0, app_nil_r. reflexivity.
Qed.

Lemma wellBodied_app (pre post : list jsstring) (s : ParsedSection) :
  wellBodied pre s -> wellBodied (pre ++ post) s.
Proof.
  intros (H1 & H2 & H3 & H4). unfold wellBodied.
  rewrite bodyLines_app by assumption. rewrite length_app.
  repeat split; try assumption; lia.
Qed.

Lemma withNewlines_app (a b : list jsstring) :
  withNewlines (a ++ b) = (withNewlines a ++ withNewlines b)%list.
Proof. unfold withNewlines. now rewrite List.map_app, concat_app. Qed.

Lemma filter_isHeading_snoc (pre : list jsstring) (ln : jsstring) :
  List.length (filter isHeading (pre ++ [ln]))
  = (List.length (filter isHeading pre) + (if isHeading ln then 1 else 0))%nat.
Proof.
  rewrite filter_app, length_app. cbn [filter]. destruct (isHeading ln); reflexivity.
Qed.

Lemma closeSection_wellBodied (pre : list jsstring) (ln : jsstring) (cs : ParsedSection) :
  0 <= startLine cs < Z.of_nat (List.length pre) ->
  content cs = withNewlines (skipn (S (Z.to_nat (startLine cs))) pre) ->
  Forall (fun l => isHeading l = false) (skipn (S (Z.to_nat (startLine cs))) pre) ->
  wellBodied (pre ++ [ln]) (closeSection cs (Z.of_nat (List.length pre) - 1)).
Proof.
  intros Hr Hc Hn. unfold wellBodied, bodyLines. cbn [closeSection startLine endLine content].
  rewrite length_app. cbn [List.length].
  assert (E : firstn (Z.to_nat (Z.of_nat (List.length pre) - 1 - startLine cs))
                (skipn (S (Z.to_nat (startLine cs))) (pre ++ [ln]))
              = skipn (S (Z.to_nat (startLine cs))) pre).
  { rewrite skipn_app, firstn_app.
    rewrite firstn_all2 by (rewrite length_skipn; lia).
    replace (Z.to_nat (Z.of_nat (List.length pre) - 1 - startLine cs)
             - List.length (skipn (S (Z.to_nat (startLine cs))) pre))%nat with 0%nat
      by (rewrite length_skipn; lia).
    now rewrite firstn_0, app_nil_r. }
  rewrite E. repeat split; try assumption; lia.
Qed.

Lemma sectionStep_bodied (pre : list jsstring) (st : scan) (ln : jsstring) :
  bodied pre st -> bodied (pre ++ [ln]) (sectionStep st ln (Z.of_nat (List.length pre))).
Proof.
  destruct st as [secs cur]. unfold bodied, sectionStep. cbn [fst snd].
  rewrite filter_isHeading_snoc, isHeading_title.
  destruct (headingTitle ln) as [t|] eqn:Ht; destruct cur as [cs|]; cbn [fst snd];
    intros (Hf & Hn & Hcur).
  - destruct Hcur as (Hr & Hc & Hnh). split; [|split].
    + rewrite Forall_app. split.
      * eapply Forall_impl; [|exact Hf]. intros s. apply wellBodied_app.
      * constructor; [|constructor]. now apply closeSection_wellBodied.
    + rewrite length_app. cbn [List.length]. lia.
    + cbn [startLine content]. rewrite length_app. cbn [List.length].
      rewrite Nat2Z.id.
      replace (skipn (S (List.length pre)) (pre ++ [ln])) with (@nil jsstring)
        by (symmetry; apply skipn_all2; rewrite length_app; cbn; lia).
      repeat split; try lia. constructor.
  - split; [|split].
    + eapply Forall_impl; [|exact Hf]. intros s. apply wellBodied_app.
    + lia.
    + cbn [startLine content]. rewrite length_app. cbn [List.length].
      rewrite Nat2Z.id.
      replace (skipn (S (List.length pre)) (pre ++ [ln])) with (@nil jsstring)
        by (symmetry; apply skipn_all2; rewrite length_app; cbn; lia).
      repeat split; try lia. constructor.
  - destruct Hcur as (Hr & Hc & Hnh). split; [|split].
    + eapply Forall_impl; [|exact Hf]. intros s. apply wellBodied_app.
    + lia.
    + cbn [appendContent startLine content]. rewrite length_app. cbn [List.length].
      rewrite skipn_app.
      replace (S (Z.to_nat (startLine cs)) - List.length pre)%nat with 0%nat by lia.
      cbn [skipn]. rewrite withNewlines_app, Hc.
      split; [lia|]. split.
      * unfold withNewlines at 3. cbn [List.map List.concat]. now rewrite app_nil_r.
      * rewrite Forall_app. split; [assumption|]. constructor; [|constructor].
        unfold isHeading. now rewrite Ht.
  - split; [|split]; [|lia|exact I].
    eapply Forall_impl; [|exact Hf]. intros s. apply wellBodied_app.
Qed.

Lemma forEachLine_bodied (lns pre : list jsstring) (st : scan) :
  bodied pre st ->
  bodied (pre ++ lns) (forEachLine lns (Z.of_nat (List.length pre)) st).
Proof.
  revert pre st. induction lns as [|ln lns IH]; intros pre st H; cbn [forEachLine].
  - rewrite app_nil_r. assumption.
  - apply sectionStep_bodied with (ln := ln) in H.
    apply IH in H. rewrite <- app_assoc in H. cbn [app] in H.
    rewrite length_app, Nat2Z.inj_add in H. exact H.
Qed.

(** X4.  [parseSections] returns one section for every heading line of
    the document.  Each section lies within the document, and its content is
    exactly the lines after its heading line up to its last line, each
    followed by a newline; none of these lines is a heading. *)
Theorem parseSections_bodies (lns : list jsstring) :
  List.length (parseSections lns) = List.length (filter isHeading lns)
  /\ Forall (wellBodied lns) (parseSections lns).
Proof.
  assert (H : bodied ([] ++ lns)
                (forEachLine lns (Z.of_nat (List.length (@nil jsstring))) ([], None))).
  { apply forEachLine_bodied. repeat split. constructor. }
  cbn [app List.length] in H. change (Z.of_nat 0) with 0 in H.
  unfold parseSections.
  destruct (forEachLine lns 0 ([], None)) as [secs cur]. unfold bodied in H. cbn [fst snd] in H.
  destruct H as (Hf & Hn & Hcur). destruct cur as [cs|].
  - destruct Hcur as (Hr & Hc & Hnh). split.
    + rewrite length_app. cbn [List.length]. lia.
    + rewrite Forall_app. split; [assumption|]. constructor; [|constructor].
      unfold wellBodied, bodyLines. cbn [closeSection startLine endLine content].
      rewrite firstn_all2 by (rewrite length_skipn; lia).
      repeat split; try assumption; lia.
  - split; [lia|assumption].
Qed.

End ParserProps.

(* ================================================================== *)
(** * Further facts about the validators *)
(* ================================================================== *)

Module CheckerProps.
Import ParserFacts CheckerFacts.
Import JSString JSRegExp Types Checkers CheckerNotions.
Local Open Scope list_scope.

Lemma fold_triage {A : Type} (skip ok : A -> bool) (issue : A -> LintIssue) (l : list A) :
  forall acc,
    fold_left (triage skip ok issue) l acc
    = {| t_issues := t_issues acc
                     ++ List.map issue (filter (fun x => negb (skip x) && negb (ok x)) l);
         t_passed := t_passed acc
                     + List.length (filter (fun x => negb (skip x) && ok x) l);
         t_failed := t_failed acc
                     + List.length (filter (fun x => negb (skip x) && negb (ok x)) l) |}.
Proof.
  induction l as [|x l IH]; intros acc; cbn [fold_left filter List.map List.length].
  - destruct acc. cbn. now rewrite app_nil_r, !Nat.add_0_r.
  - rewrite IH. unfold triage. destruct (skip x); cbn [negb andb]; [reflexivity|].
    destruct (ok x); cbn [negb t_issues t_passed t_failed List.map List.length].
    + f_equal. lia.
    + f_equal; [now rewrite <- app_assoc|lia].
Qed.

Lemma filter_split_length {A : Type} (p q : A -> bool) (l : list A) :
  List.length (filter (fun x => p x && q x) l)
  + List.length (filter (fun x => p x && negb (q x)) l)
  = List.length (filter p l).
Proof.
  induction l as [|x l IH]; cbn [filter List.length]; [reflexivity|].
  destruct (p x), (q x); cbn [andb negb List.length]; lia.
Qed.

Lemma findIndexFrom_spec {A : Type} (p : A -> bool) (l : list A) : forall i n,
  findIndexFrom p l i = Some n ->
  i <= n < i + List.length l
  /\ (exists x, nth_error l (n - i) = Some x /\ p x = true)
  /\ forall m x, m < n - i -> nth_error l m = Some x -> p x = false.
Proof.
  induction l as [|y l IH]; intros i n; cbn [findIndexFrom]; [discriminate|].
  destruct (p y) eqn:E.
  - intros [= <-]. rewrite Nat.sub_diag. cbn [List.length nth_error].
    split; [lia|]. split; [eauto|]. intros m x Hm. lia.
  - intros H. apply IH in H. destruct H as (H1 & (x & Hx & Hp) & H3).
    cbn [List.length]. split; [lia|]. split.
    + exists x. split; [|assumption].
      replace (n - i) with (S (n - S i)) by lia. exact Hx.
    + intros m z Hm Hz. destruct m as [|m]; cbn [nth_error] in Hz.
      * injection Hz as <-. exact E.
      * apply (H3 m z); [lia|assumption].
Qed.

Lemma findIndex_spec {A : Type} (p : A -> bool) (l : list A) (n : nat) :
  findIndex p l = Some n ->
  n < List.length l
  /\ (exists x, nth_error l n = Some x /\ p x = true)
  /\ forall m x, m < n -> nth_error l m = Some x -> p x = false.
Proof.
  intros H. apply findIndexFrom_spec in H. rewrite Nat.sub_0_r in H.
  destruct H as (H1 & H2 & H3). repeat split; try assumption; lia.
Qed.

(** An issue built from [findIndex]: line [n + 1] and the trimmed line, or
    neither. *)
Lemma located_findIndex (lns : list jsstring) (p : jsstring -> bool) (i : LintIssue) :
  line i = lineOfIndex (findIndex p lns) ->
  (context i = contextOfIndex lns (findIndex p lns) \/ context i = None) ->
  located lns i.
Proof.
  intros Hl Hc. unfold located. rewrite Hl.
  destruct (findIndex p lns) as [n|] eqn:E; cbn [lineOfIndex option_map].
  - apply findIndex_spec in E. destruct E as (Hn & (x & Hx & _) & _).
    split; [lia|]. intros c Hcc. cbn [Nat.sub]. rewrite Nat.sub_0_r.
    destruct Hc as [Hc|Hc]; [|congruence].
    rewrite Hcc in Hc. cbn [contextOfIndex] in Hc. rewrite Hx in Hc. cbn in Hc.
    exists x. split; [exact Hx|congruence].
  - destruct Hc as [Hc|Hc]; [rewrite Hc; reflexivity|assumption].
Qed.

Lemma quoted_inj (a b : jsstring) : quoted a = quoted b -> a = b.
Proof.
  unfold quoted. intros H. apply app_inv_head in H. now apply app_inv_tail in H.
Qed.

Lemma In_map_inj {A B : Type} (f : A -> B) (l : list A) (x : A) :
  (forall a b, f a = f b -> a = b) -> In (f x) (List.map f l) <-> In x l.
Proof.
  intros Hinj. rewrite in_map_iff. split.
  - intros (y & E & Hy). apply Hinj in E. now subst.
  - intros H. eauto.
Qed.

Section Facts.

Variable toLowerCase : jsstring -> jsstring.

Variable path_join : jsstring -> jsstring -> jsstring.

Variable path_resolve : jsstring -> jsstring -> jsstring.

Variable existsSync : jsstring -> bool.

Variable readJson : jsstring -> option PackageJson.

Local Abbreviation checkDependencies := (checkDependencies toLowerCase path_join existsSync readJson).

Local Abbreviation checkStructure := (checkStructure toLowerCase).

Local Abbreviation checkFrameworkStaleness := (checkFrameworkStaleness path_join existsSync readJson).

Local Abbreviation checkFilesystem := (checkFilesystem path_join path_resolve existsSync).

Local Abbreviation checkNpmScripts := (checkNpmScripts path_join existsSync readJson).

Local Abbreviation findPackageJsonFiles := (findPackageJsonFiles path_join existsSync readJson).

(* ----- filesystem ----- *)

Lemma mentionedPathStep_triage parsed repoRoot acc p :
  mentionedPathStep path_resolve existsSync parsed repoRoot acc p
  = triage skippedPath (fun p => existsSync (path_resolve repoRoot p))
      (missingPathIssue parsed) acc p.
Proof. reflexivity. Qed.

Lemma fold_ext {A B : Type} (f g : A -> B -> A) (l : list B) (a : A) :
  (forall a b, f a b = g a b) -> fold_left f l a = fold_left g l a.
Proof.
  intros H. revert a. induction l as [|x l IH]; intros a; cbn; [reflexivity|].
  now rewrite H, IH.
Qed.

Lemma missingPathIssue_inj parsed a b :
  missingPathIssue parsed a = missingPathIssue parsed b -> a = b.
Proof.
  intros H. apply (f_equal message) in H. cbn [message missingPathIssue] in H.
  apply app_inv_head in H. now apply quoted_inj.
Qed.

Lemma fold_commonDirStep_bound parsed repoRoot dirs iss :
  exists extra,
    fold_left (commonDirStep path_join existsSync parsed repoRoot) dirs iss = iss ++ extra
    /\ Forall (fun i => hasRule "no-missing-directory" i = true) extra
    /\ Forall (located (lines parsed)) extra
    /\ List.length extra <= List.length dirs.
Proof.
  revert iss. induction dirs as [|d dirs IH]; intros iss; cbn [fold_left].
  - exists []. rewrite app_nil_r. repeat split; constructor.
  - unfold commonDirStep at 2.
    destruct ((0 <? _) && negb _); [|destruct (IH iss) as (e & -> & H1 & H2 & H3);
                                     exists e; cbn [List.length]; repeat split; auto].
    destruct (negb _); [|destruct (IH iss) as (e & -> & H1 & H2 & H3);
                          exists e; cbn [List.length]; repeat split; auto].
    match goal with |- context [fold_left _ dirs (iss ++ [?i])] =>
      destruct (IH (iss ++ [i])) as (e & -> & H1 & H2 & H3); exists (i :: e) end.
    rewrite <- app_assoc. cbn [app List.length]. repeat split; try lia.
    + constructor; [reflexivity|assumption].
    + constructor; [|assumption].
      apply (located_findIndex _ (mentionsDir d)); [reflexivity|left; reflexivity].
Qed.

(** X5.  [checkFilesystem] checks every mentioned path that starts
    neither with [http] nor with [$]: passed plus failed is the number of
    these paths.  A path is reported as missing exactly when it is mentioned,
    is not skipped, and does not exist under the repository root.  At most six
    issues concern the common directories. *)
Theorem checkFilesystem_spec (parsed : ParsedAgentsMd) (repoRoot : jsstring) :
  let r := checkFilesystem parsed repoRoot in
  passed r + failed r
  = List.length (filter (fun p => negb (skippedPath p)) (mentionedPaths parsed))
  /\ (forall p : jsstring,
        In (missingPathIssue parsed p) (issues r)
        <-> In p (mentionedPaths parsed) /\ skippedPath p = false
            /\ existsSync (path_resolve repoRoot p) = false)
  /\ countRule "no-missing-directory" (issues r) <= 6.
Proof.
  cbv zeta. unfold Checkers.checkFilesystem.
  rewrite (fold_ext _ _ _ _ (mentionedPathStep_triage parsed repoRoot)), fold_triage.
  cbn [t_issues t_passed t_failed app Nat.add passed failed issues].
  destruct (fold_commonDirStep_bound parsed repoRoot commonDirs
              (List.map (missingPathIssue parsed)
                 (filter (fun x => negb (skippedPath x)
                                   && negb (existsSync (path_resolve repoRoot x)))
                    (mentionedPaths parsed)))) as (extra & -> & Hextra & _ & Hlen).
  split; [|split].
  - apply filter_split_length.
  - intros p. rewrite in_app_iff. split.
    + intros [H|H].
      * apply In_map_inj in H; [|apply missingPathIssue_inj].
        apply filter_In in H. destruct H as [Hin H].
        apply andb_true_iff in H. destruct H as [H1 H2].
        apply negb_true_iff in H1, H2. auto.
      * rewrite Forall_forall in Hextra. apply Hextra in H. discriminate H.
    + intros (Hin & H1 & H2). left. apply in_map. apply filter_In.
      split; [assumption|]. now rewrite H1, H2.
  - rewrite countRule_app.
    rewrite (countRule_other "no-missing-path" "no-missing-directory"); [|reflexivity|].
    + pose proof (countRule_le "no-missing-directory" extra). cbn in Hlen. cbn. lia.
    + apply Forall_forall. intros i Hi. apply in_map_iff in Hi.
      destruct Hi as (p & <- & _). reflexivity.
Qed.

(* ----- npm scripts ----- *)

Lemma workspacePackage_exists repoRoot ws :
  Forall (fun f => existsSync f = true) (workspacePackage path_join existsSync repoRoot ws)
  /\ List.length (workspacePackage path_join existsSync repoRoot ws) <= 1.
Proof.
  unfold workspacePackage. destruct (existsSync _); [|split; [constructor|cbn; lia]].
  destruct (existsSync _) eqn:E; [|split; [constructor|cbn; lia]].
  split; [repeat constructor; exact E|cbn; lia].
Qed.

Lemma flat_map_workspaces repoRoot l :
  Forall (fun f => existsSync f = true) (flat_map (workspacePackage path_join existsSync repoRoot) l)
  /\ List.length (flat_map (workspacePackage path_join existsSync repoRoot) l) <= List.length l.
Proof.
  induction l as [|ws l [IH1 IH2]]; cbn [flat_map List.length]; [split; [constructor|lia]|].
  destruct (workspacePackage_exists repoRoot ws) as [H1 H2].
  split; [apply Forall_app; split; assumption|rewrite length_app; lia].
Qed.

Lemma findPackageJsonFiles_root (repoRoot : jsstring) :
  existsSync (path_join repoRoot (js "package.json")) = true ->
  exists workspaces,
    findPackageJsonFiles repoRoot = path_join repoRoot (js "package.json") :: workspaces.
Proof. intros E. unfold Checkers.findPackageJsonFiles. rewrite E. eauto. Qed.

(** X6.  Without a [package.json] at the repository root
    [findPackageJsonFiles] finds no manifest.  Otherwise the root manifest
    comes first, followed by the manifests of at most 20 workspaces.  Every
    file it returns exists. *)
Theorem findPackageJsonFiles_spec (repoRoot : jsstring) :
  let rootPkg := path_join repoRoot (js "package.json") in
  let files := findPackageJsonFiles repoRoot in
  (existsSync rootPkg = false -> files = [])
  /\ (existsSync rootPkg = true ->
      exists workspaces, files = rootPkg :: workspaces /\ List.length workspaces <= 20)
  /\ Forall (fun f => existsSync f = true) files.
Proof.
  cbv zeta. unfold Checkers.findPackageJsonFiles.
  destruct (existsSync (path_join repoRoot (js "package.json"))) eqn:E.
  - split; [discriminate|].
    assert (H : Forall (fun f => existsSync f = true)
                  match readJson (path_join repoRoot (js "package.json")) with
                  | Some pkg => flat_map (workspacePackage path_join existsSync repoRoot)
                                  (firstn 20 (pkgWorkspaces pkg))
                  | None => []
                  end
                /\ List.length
                     match readJson (path_join repoRoot (js "package.json")) with
                     | Some pkg => flat_map (workspacePackage path_join existsSync repoRoot)
                                     (firstn 20 (pkgWorkspaces pkg))
                     | None => []
                     end <= 20).
    { destruct (readJson _) as [pkg|]; [|split; [constructor|cbn; lia]].
      destruct (flat_map_workspaces repoRoot (firstn 20 (pkgWorkspaces pkg))) as [H1 H2].
      split; [assumption|]. rewrite length_firstn in H2. lia. }
    destruct H as [H1 H2]. split; [intros _; eauto|].
    constructor; assumption.
  - split; [reflexivity|]. split; [discriminate|constructor].
Qed.

Lemma fold_set_add_In (l acc : list jsstring) (x : jsstring) :
  In x (fold_left set_add l acc) <-> In x acc \/ In x l.
Proof.
  revert acc. induction l as [|y l IH]; intros acc; cbn [fold_left].
  - cbn. tauto.
  - rewrite IH, set_add_In. cbn. split; intros H; decompose [or] H; subst; auto.
Qed.

Lemma addScriptsOf_In (files acc : list jsstring) (s : jsstring) :
  In s (fold_left (addScriptsOf readJson) files acc)
  <-> In s acc \/ exists f pkg, In f files /\ readJson f = Some pkg
                                /\ In s (keysOf (pkgScripts pkg)).
Proof.
  revert acc. induction files as [|f files IH]; intros acc; cbn [fold_left].
  - split; [auto|]. intros [H|(f & pkg & [] & _)]. assumption.
  - rewrite IH. unfold addScriptsOf. split.
    + intros [H|(f' & pkg & Hf & Hr & Hs)]; [|right; exists f', pkg; cbn; auto].
      destruct (readJson f) as [pkg|] eqn:Er; [|auto].
      destruct (pkgScripts pkg) as [entries|] eqn:Es; [|auto].
      apply fold_set_add_In in H. destruct H as [H|H]; [auto|].
      right. exists f, pkg. rewrite Es. cbn. auto.
    + intros [H|(f' & pkg & [<-|Hf] & Hr & Hs)].
      * left. destruct (readJson f) as [pkg|]; [|assumption].
        destruct (pkgScripts pkg); [|assumption]. apply fold_set_add_In. auto.
      * left. rewrite Hr. destruct (pkgScripts pkg) as [entries|]; [|destruct Hs].
        apply fold_set_add_In. auto.
      * right. exists f', pkg. auto.
Qed.

Lemma mentionedScriptStep_triage parsed allScripts acc s :
  mentionedScriptStep parsed allScripts acc s
  = triage (fun _ => false) (fun s => set_has s allScripts)
      (missingScriptIssue parsed allScripts) acc s.
Proof. reflexivity. Qed.

Lemma missingScriptIssue_inj parsed allScripts a b :
  missingScriptIssue parsed allScripts a = missingScriptIssue parsed allScripts b -> a = b.
Proof.
  intros H. apply (f_equal message) in H. cbn [message missingScriptIssue] in H.
  apply app_inv_head in H. apply app_inv_tail in H. now apply quoted_inj.
Qed.

(** X7.  Without a root [package.json] [checkNpmScripts] checks
    nothing.  Otherwise passed plus failed is the number of mentioned scripts,
    plus one when a script [test], [test:unit] or [test:run] is declared; a
    script is reported exactly when it is mentioned and declared by none of
    the manifests found; and the missing-test-script issue is raised exactly
    when none of the three test scripts is declared.  The declared scripts are
    the keys of the [scripts] tables of the manifests that parse. *)
Theorem checkNpmScripts_spec (parsed : ParsedAgentsMd) (repoRoot : jsstring) :
  let rootPkg := path_join repoRoot (js "package.json") in
  let allScripts := fold_left (addScriptsOf readJson) (findPackageJsonFiles repoRoot) [] in
  let r := checkNpmScripts parsed repoRoot in
  (existsSync rootPkg = false -> r = emptyResult "npm-scripts")
  /\ (existsSync rootPkg = true ->
      passed r + failed r
      = List.length (mentionedScripts parsed) + (if hasTestScript allScripts then 1 else 0)
      /\ (forall s : jsstring,
            In (missingScriptIssue parsed allScripts s) (issues r)
            <-> In s (mentionedScripts parsed) /\ ~ In s allScripts)
      /\ (In missingTestScriptIssue (issues r) <-> hasTestScript allScripts = false))
  /\ (forall s : jsstring,
        In s allScripts
        <-> exists f pkg, In f (findPackageJsonFiles repoRoot) /\ readJson f = Some pkg
                          /\ In s (keysOf (pkgScripts pkg))).
Proof.
  cbv zeta. split; [|split].
  - intros E. unfold Checkers.checkNpmScripts, Checkers.findPackageJsonFiles. now rewrite E.
  - intros E. unfold Checkers.checkNpmScripts.
    destruct (findPackageJsonFiles_root repoRoot E) as (ws & Hfiles). rewrite Hfiles.
    set (allScripts := fold_left (addScriptsOf readJson) _ []).
    rewrite (fold_ext _ _ _ _ (mentionedScriptStep_triage parsed allScripts)), fold_triage.
    cbn [t_issues t_passed t_failed app Nat.add negb andb].
    assert (Hlen : List.length (filter (fun x => set_has x allScripts) (mentionedScripts parsed))
                   + List.length (filter (fun x => negb (set_has x allScripts))
                                    (mentionedScripts parsed))
                   = List.length (mentionedScripts parsed)).
    { clear. induction (mentionedScripts parsed) as [|x l IH]; cbn [filter List.length];
        [reflexivity|]. destruct (set_has x allScripts); cbn [negb List.length]; lia. }
    assert (Hiss : forall s,
               In (missingScriptIssue parsed allScripts s)
                 (List.map (missingScriptIssue parsed allScripts)
                    (filter (fun x => negb (set_has x allScripts)) (mentionedScripts parsed)))
               <-> In s (mentionedScripts parsed) /\ ~ In s allScripts).
    { intros s. rewrite In_map_inj by apply missingScriptIssue_inj.
      rewrite filter_In, negb_true_iff, <- (set_has_In s allScripts).
      split; intros [H1 H2]; (split; [assumption|]);
        [intros H'; congruence|destruct (set_has s allScripts); [exfalso; auto|reflexivity]]. }
    assert (Hnt : ~ In missingTestScriptIssue
                    (List.map (missingScriptIssue parsed allScripts)
                       (filter (fun x => negb (set_has x allScripts))
                          (mentionedScripts parsed)))).
    { intros H. apply in_map_iff in H. destruct H as (s & H & _). discriminate H. }
    unfold hasTestScript.
    destruct (set_has (js "test") allScripts); cbn [negb andb orb];
      [|destruct (set_has (js "test:unit") allScripts); cbn [negb andb orb];
        [|destruct (set_has (js "test:run") allScripts); cbn [negb andb orb]]];
      cbn [passed failed issues];
      (split; [lia|split]);
      try (intros s; rewrite ?in_app_iff; rewrite Hiss; cbn [In];
           split; [intros H; decompose [or] H; try assumption; try contradiction;
                   match goal with H' : missingTestScriptIssue = _ |- _ => discriminate H' end
                  |auto]);
      try (rewrite ?in_app_iff; cbn [In]; split;
           [intros H; try reflexivity; try (exfalso; tauto)
           |intros H; try discriminate H; auto]).
  - intros s. rewrite addScriptsOf_In. cbn [In]. tauto.
Qed.

(* ----- dependencies ----- *)

Lemma mentionedDependencyStep_triage parsed config allDeps acc dep :
  mentionedDependencyStep toLowerCase parsed config allDeps acc dep
  = triage (fun d => ignoredDependency config d
                     || negb (installedDependency toLowerCase allDeps d)
                        && commonFramework toLowerCase d)
      (installedDependency toLowerCase allDeps)
      (missingDependencyIssue toLowerCase parsed) acc dep.
Proof.
  unfold mentionedDependencyStep, triage, ignoredDependency, installedDependency,
    commonFramework.
  destruct (existsb _ _); [reflexivity|]. cbn [orb].
  destruct (_ || _ || _); cbn [negb andb]; [reflexivity|].
  destruct (set_has _ commonFrameworks); reflexivity.
Qed.



(* ----- structure ----- *)

Lemma fold_sectionStep parsed config l iss n :
  fold_left (sectionStep toLowerCase parsed config) l (iss, n)
  = (iss ++ List.map (sectionIssue config)
              (filter (fun s => negb (sectionFound toLowerCase parsed s)) l),
     n + List.length (filter (sectionFound toLowerCase parsed) l)).
Proof.
  revert iss n. induction l as [|s l IH]; intros iss n;
    cbn [fold_left filter List.map List.length].
  - now rewrite app_nil_r, Nat.add_0_r.
  - unfold sectionStep at 2. destruct (sectionFound toLowerCase parsed s); cbn [negb].
    + rewrite IH. cbn [List.length]. f_equal. lia.
    + rewrite IH. cbn [List.map]. f_equal. now rewrite <- app_assoc.
Qed.

Lemma fold_qualityStep parsed l iss n :
  fold_left (qualityStep parsed) l (iss, n)
  = (iss ++ List.map qualityIssue (filter (fun qc => qc_check qc parsed) l),
     n + List.length (filter (fun qc => negb (qc_check qc parsed)) l)).
Proof.
  revert iss n. induction l as [|qc l IH]; intros iss n;
    cbn [fold_left filter List.map List.length].
  - now rewrite app_nil_r, Nat.add_0_r.
  - unfold qualityStep at 2. destruct (qc_check qc parsed); cbn [negb].
    + rewrite IH. cbn [List.map]. f_equal. now rewrite <- app_assoc.
    + rewrite IH. cbn [List.length]. f_equal. lia.
Qed.

Lemma filter_negb_length {A : Type} (p : A -> bool) (l : list A) :
  List.length (filter p l) + List.length (filter (fun x => negb (p x)) l) = List.length l.
Proof.
  induction l as [|x l IH]; cbn [filter List.length]; [reflexivity|].
  destruct (p x); cbn [negb List.length]; lia.
Qed.

(** X9.  The issues of [checkStructure] are those of the sections
    not found (the three recommended ones, then the required ones of the
    configuration), followed by those of the quality checks that fire.  Seven
    checks plus one for each required section are counted.  No issue carries a
    line number, and every missing-section issue has the severity the
    configuration gives for missing sections ([warn] by default), whatever
    severity the table of recommended sections lists. *)
Theorem checkStructure_spec (parsed : ParsedAgentsMd) (config : LintConfig) :
  let required := match requiredSections config with Some l => l | None => [] end in
  let sectionsToCheck :=
    RECOMMENDED_SECTIONS ++ List.map (customSectionOf toLowerCase config) required in
  let r := checkStructure parsed config in
  issues r
  = List.map (sectionIssue config)
      (filter (fun s => negb (sectionFound toLowerCase parsed s)) sectionsToCheck)
    ++ List.map qualityIssue (filter (fun qc => qc_check qc parsed) QUALITY_CHECKS)
  /\ passed r + failed r = 7 + List.length required
  /\ (forall i : LintIssue,
        In i (issues r) ->
        line i = None
        /\ (severity i = missingSectionSeverity config
            \/ exists qc, In qc QUALITY_CHECKS /\ i = qualityIssue qc)).
Proof.
  cbv zeta. unfold Checkers.checkStructure.
  rewrite fold_sectionStep, fold_qualityStep. cbn [app Nat.add issues passed failed].
  split; [reflexivity|]. split.
  - rewrite length_app, !length_map.
    pose proof (filter_negb_length (sectionFound toLowerCase parsed)
                  (RECOMMENDED_SECTIONS
                   ++ List.map (customSectionOf toLowerCase config)
                        match requiredSections config with Some l => l | None => [] end)) as H1.
    pose proof (filter_negb_length (fun qc => qc_check qc parsed) QUALITY_CHECKS) as H2.
    rewrite length_app, length_map in H1.
    change (List.length RECOMMENDED_SECTIONS) with 3 in H1.
    change (List.length QUALITY_CHECKS) with 4 in H2. lia.
  - intros i Hi. apply in_app_iff in Hi. destruct Hi as [Hi|Hi]; apply in_map_iff in Hi.
    + destruct Hi as (s & <- & _). split; [reflexivity|left; reflexivity].
    + destruct Hi as (qc & <- & Hq). apply filter_In in Hq.
      split; [reflexivity|right; exists qc; tauto].
Qed.

(* ----- framework staleness ----- *)

Lemma fold_frameworkCheckStep parsed l iss n :
  exists extra,
    fold_left (frameworkCheckStep parsed) l (iss, n)
    = (iss ++ extra, n + List.length (filter (fun c => negb (fires parsed c)) l))
    /\ List.map rule extra = List.map fc_rule (filter (fires parsed) l)
    /\ Forall (fun i => severity i = warn) extra
    /\ Forall (located (lines parsed)) extra.
Proof.
  revert iss n. induction l as [|c l IH]; intros iss n; cbn [fold_left filter List.length].
  - exists []. rewrite app_nil_r, Nat.add_0_r.
    split; [reflexivity|]. split; [reflexivity|]. split; constructor.
  - unfold frameworkCheckStep at 2.
    change (test (fc_pattern c) (rawContent parsed)) with (fires parsed c).
    destruct (fires parsed c); cbn [negb].
    + match goal with |- context [fold_left _ l (iss ++ [?i], n)] =>
        destruct (IH (iss ++ [i]) n) as (e & -> & H1 & H2 & H3); exists (i :: e) end.
      rewrite <- app_assoc. cbn [app List.map rule]. split; [|split; [|split]].
      * reflexivity.
      * now rewrite H1.
      * constructor; [reflexivity|assumption].
      * constructor; [|assumption].
        apply (located_findIndex _ (fun l => test (fc_pattern c) l));
          [reflexivity|left; reflexivity].
    + destruct (IH iss (S n)) as (e & -> & H1 & H2 & H3). exists e.
      cbn [List.length]. split; [f_equal; lia|]. split; [|split]; assumption.
Qed.

Lemma fold_frameworks parsed frameworks iss n :
  exists extra,
    fold_left (fun acc framework =>
                 let checks := match assoc framework FRAMEWORK_CHECKS with
                               | Some l => l
                               | None => []
                               end in
                 fold_left (frameworkCheckStep parsed) checks acc) frameworks (iss, n)
    = (iss ++ extra,
       n + List.length (filter (fun c => negb (fires parsed c)) (flat_map checksOf frameworks)))
    /\ List.map rule extra
       = List.map fc_rule (filter (fires parsed) (flat_map checksOf frameworks))
    /\ Forall (fun i => severity i = warn) extra
    /\ Forall (located (lines parsed)) extra.
Proof.
  cbv zeta. revert iss n.
  induction frameworks as [|f fs IH]; intros iss n; cbn [fold_left flat_map].
  - exists []. rewrite app_nil_r. cbn. rewrite Nat.add_0_r.
    split; [reflexivity|]. split; [reflexivity|]. split; constructor.
  - fold (checksOf f).
    destruct (fold_frameworkCheckStep parsed (checksOf f) iss n) as (e1 & -> & A1 & A2 & A3).
    destruct (IH (iss ++ e1) (n + List.length (filter (fun c => negb (fires parsed c))
                                                 (checksOf f))))
      as (e2 & -> & B1 & B2 & B3).
    exists (e1 ++ e2). rewrite <- app_assoc, !filter_app, !length_app, !map_app, A1, B1.
    split; [f_equal; lia|]. split; [reflexivity|].
    split; apply Forall_app; split; assumption.
Qed.

Lemma fold_generalCheckStep parsed l iss :
  exists extra,
    fold_left (generalCheckStep parsed) l iss = iss ++ extra
    /\ List.map rule extra = List.map fc_rule (filter (fires parsed) l)
    /\ Forall (fun i => severity i = warn) extra
    /\ Forall (located (lines parsed)) extra.
Proof.
  revert iss. induction l as [|c l IH]; intros iss; cbn [fold_left filter].
  - exists []. rewrite app_nil_r.
    split; [reflexivity|]. split; [reflexivity|]. split; constructor.
  - unfold generalCheckStep at 2.
    change (test (fc_pattern c) (rawContent parsed)) with (fires parsed c).
    destruct (fires parsed c).
    + match goal with |- context [fold_left _ l (iss ++ [?i])] =>
        destruct (IH (iss ++ [i])) as (e & -> & H1 & H2 & H3); exists (i :: e) end.
      rewrite <- app_assoc. cbn [app List.map rule]. split; [|split; [|split]].
      * reflexivity.
      * now rewrite H1.
      * constructor; [reflexivity|assumption].
      * constructor; [|assumption].
        apply (located_findIndex _ (fun l => test (fc_pattern c) l));
          [reflexivity|right; reflexivity].
    + destruct (IH iss) as (e & -> & H1 & H2 & H3). exists e.
      split; [reflexivity|]. split; [|split]; assumption.
Qed.

Lemma checkFrameworkStaleness_shape parsed repoRoot :
  let specific := flat_map checksOf (detectFrameworks path_join existsSync readJson repoRoot) in
  let r := checkFrameworkStaleness parsed repoRoot in
  passed r = List.length (filter (fun c => negb (fires parsed c)) specific)
  /\ List.map rule (issues r)
     = List.map fc_rule (filter (fires parsed) specific ++ filter (fires parsed) generalChecks)
  /\ Forall (fun i => severity i = warn) (issues r)
  /\ Forall (located (lines parsed)) (issues r).
Proof.
  unfold Checkers.checkFrameworkStaleness. cbv zeta.
  destruct (fold_frameworks parsed (detectFrameworks path_join existsSync readJson repoRoot) [] 0)
    as (e1 & He & A1 & A2 & A3).
  cbv zeta in He. rewrite He.
  destruct (fold_generalCheckStep parsed generalChecks ([] ++ e1)) as (e2 & -> & B1 & B2 & B3).
  cbn [app passed issues Nat.add]. rewrite !map_app, A1, B1.
  split; [reflexivity|]. split; [reflexivity|].
  split; apply Forall_app; split; assumption.
Qed.

(** X10.  [checkFrameworkStaleness] runs the checks of
    the detected frameworks and the two general checks.  The passed count is
    the number of framework checks whose pattern is absent from the content;
    the issues are, in order, the framework checks and then the general checks
    whose pattern occurs, all of them warnings; a general check never counts
    as passed.  Without a readable [package.json] no framework is detected and
    nothing passes, and [node] is only ever detected alone. *)
Theorem checkFrameworkStaleness_spec (parsed : ParsedAgentsMd) (repoRoot : jsstring) :
  let pkgPath := path_join repoRoot (js "package.json") in
  let detected := detectFrameworks path_join existsSync readJson repoRoot in
  let specific := flat_map checksOf detected in
  let r := checkFrameworkStaleness parsed repoRoot in
  passed r = List.length (filter (fun c => negb (fires parsed c)) specific)
  /\ List.map rule (issues r)
     = List.map fc_rule (filter (fires parsed) specific ++ filter (fires parsed) generalChecks)
  /\ Forall (fun i => severity i = warn) (issues r)
  /\ passed r + failed r
     = List.length specific + List.length (filter (fires parsed) generalChecks)
  /\ (existsSync pkgPath = false \/ readJson pkgPath = None -> detected = [] /\ passed r = 0)
  /\ (In (js "node") detected -> detected = [js "node"]).
Proof.
  cbv zeta.
  destruct (checkFrameworkStaleness_shape parsed repoRoot) as (H1 & H2 & H3 & _).
  cbv zeta in H1, H2. split; [exact H1|]. split; [exact H2|]. split; [exact H3|].
  split; [|split].
  - rewrite H1, (checkFrameworkStaleness_failed path_join existsSync readJson parsed repoRoot).
    rewrite <- (length_map rule), H2, length_map, length_app.
    pose proof (filter_negb_length (fires parsed)
                  (flat_map checksOf (detectFrameworks path_join existsSync readJson repoRoot))).
    lia.
  - intros E.
    assert (Hd : detectFrameworks path_join existsSync readJson repoRoot = []).
    { unfold detectFrameworks. destruct E as [E|E]; rewrite E; cbn [negb]; [reflexivity|].
      destruct (existsSync _); reflexivity. }
    rewrite H1, Hd. split; reflexivity.
  - unfold detectFrameworks. destruct (negb _); [intros []|].
    destruct (readJson _) as [pkg|]; [|intros []].
    destruct (hasDep pkg "@angular/core"), (hasDep pkg "react"), (hasDep pkg "next"),
      (hasDep pkg "vue"), (hasDep pkg "nuxt"), (hasDep pkg "svelte"); cbn [app];
      try (destruct (existsSync _); [reflexivity|intros []]);
      intros H; cbn [In] in H; decompose [or] H; try contradiction;
      match goal with H' : js _ = js "node" |- _ => discriminate H' end.
Qed.

(* ----- lines ----- *)

Lemma located_map {A : Type} (lns : list jsstring) (issue : A -> LintIssue) (l : list A) :
  (forall x, located lns (issue x)) -> Forall (located lns) (List.map issue l).
Proof. intros H. apply Forall_forall. intros i Hi. apply in_map_iff in Hi.
  destruct Hi as (x & <- & _). apply H. Qed.

Lemma checkers_located parsed repoRoot config :
  Forall (located (lines parsed)) (issues (checkStructure parsed config))
  /\ Forall (located (lines parsed)) (issues (checkFilesystem parsed repoRoot))
  /\ Forall (located (lines parsed)) (issues (checkNpmScripts parsed repoRoot))
  /\ Forall (located (lines parsed)) (issues (checkDependencies parsed repoRoot config))
  /\ Forall (located (lines parsed)) (issues (checkFrameworkStaleness parsed repoRoot)).
Proof.
  repeat split.
  - unfold Checkers.checkStructure. rewrite fold_sectionStep, fold_qualityStep.
    cbn [app issues]. apply Forall_app. split; apply located_map; intros x; reflexivity.
  - unfold Checkers.checkFilesystem. cbn [issues].
    rewrite (fold_ext _ _ _ _ (mentionedPathStep_triage parsed repoRoot)), fold_triage.
    cbn [t_issues app].
    match goal with |- context [fold_left _ commonDirs ?iss] =>
      destruct (fold_commonDirStep_bound parsed repoRoot commonDirs iss)
        as (e & -> & _ & H & _) end.
    apply Forall_app. split; [|assumption]. apply located_map. intros p.
    apply (located_findIndex _ (fun l => includes p l)); [reflexivity|left; reflexivity].
  - unfold Checkers.checkNpmScripts.
    destruct (Checkers.findPackageJsonFiles path_join existsSync readJson repoRoot) eqn:E;
      [constructor|]. rewrite <- E.
    set (allScripts := fold_left (addScriptsOf readJson) _ []).
    rewrite (fold_ext _ _ _ _ (mentionedScriptStep_triage parsed allScripts)), fold_triage.
    cbn [t_issues app].
    assert (H : Forall (located (lines parsed))
                  (List.map (missingScriptIssue parsed allScripts)
                     (filter (fun x => negb false && negb (set_has x allScripts))
                        (mentionedScripts parsed)))).
    { apply located_map. intros s.
      apply (located_findIndex _ (fun l => includes (js "run " ++ s) l
                                           || includes (js "yarn " ++ s) l
                                           || includes (js "pnpm " ++ s) l));
        [reflexivity|left; reflexivity]. }
    destruct (_ && _ && _); cbn [issues]; [|exact H].
    apply Forall_app. split; [exact H|]. constructor; [reflexivity|constructor].
  - unfold Checkers.checkDependencies. destruct (negb _); [constructor|].
    destruct (readJson _) as [pkg|]; [|constructor]. cbn [issues].
    rewrite (fold_ext _ _ _ _ (mentionedDependencyStep_triage parsed config (allDepsOf pkg))),
      fold_triage, fold_deprecatedStep. cbn [t_issues app].
    apply Forall_app. split; apply located_map.
    + intros dep.
      apply (located_findIndex _ (fun l => includes (toLowerCase dep) (toLowerCase l)));
        [reflexivity|right; reflexivity].
    + intros [d rep].
      apply (located_findIndex _ (fun l => includes d l)); [reflexivity|right; reflexivity].
  - apply (checkFrameworkStaleness_shape parsed repoRoot).
Qed.

End Facts.

End CheckerProps.

(* ================================================================== *)
(** * Further facts about the fix mode *)
(* ================================================================== *)

Module FixProps.
Import ParserFacts FixFacts ParserProps.
Import JSString JSRegExp Types Fix FixNotions.
Local Open Scope list_scope.

Lemma issueStep_undecided ask fileLines st issue :
  (forall i, isYes (ask i) = false) ->
  undecided st -> undecided (issueStep ask fileLines st issue).
Proof.
  intros Hno Hst. unfold issueStep.
  destruct (quit st); [assumption|].
  destruct (buildFixAction issue fileLines) as [action|]; [|assumption].
  destruct (str_eqb _ (js "q") || _); [exact Hst|].
  specialize (Hno (asked st)). unfold isYes in Hno. rewrite Hno. exact Hst.
Qed.

Lemma interactiveLoop_fold (P : session -> Prop) ask fileLines report :
  (forall st issue, P st -> P (issueStep ask fileLines st issue)) ->
  P {| linesToRemove := []; sectionsToAdd := []; asked := 0; quit := false |} ->
  P (interactiveLoop ask report fileLines).
Proof.
  intros Hstep H0. unfold interactiveLoop. revert H0.
  generalize {| linesToRemove := []; sectionsToAdd := []; asked := 0; quit := false |}.
  induction (results report) as [|r rs IH]; intros st Hst; cbn [fold_left]; [assumption|].
  apply IH. unfold resultStep. destruct (quit st); [assumption|].
  revert st Hst. induction (issues r) as [|i iss IHi]; intros st Hst; cbn [fold_left];
    [assumption|].
  apply IHi. now apply Hstep.
Qed.

Lemma runFixMode_unfold ask report fileContent :
  runFixMode ask report fileContent
  = let st := interactiveLoop ask report (split NL fileContent) in
    if (List.length (linesToRemove st) + List.length (sectionsToAdd st) =? 0)%nat
    then [] else [join [NL] (applyFixes (split NL fileContent) st)].
Proof.
  unfold runFixMode. destruct (flat_map issues (results report)) eqn:E; [|reflexivity].
  rewrite (interactiveLoop_no_issues _ _ _ E). reflexivity.
Qed.

(** X11.  A fix session in which no answer is [y] or [yes] writes
    nothing, whatever else is answered: [n], [q], or the empty answers of an
    input that has run out. *)
Theorem runFixMode_without_yes (ask : nat -> jsstring) (report : LintReport)
  (fileContent : jsstring) :
  (forall i, isYes (ask i) = false) -> runFixMode ask report fileContent = [].
Proof.
  intros Hno. rewrite runFixMode_unfold. cbv zeta.
  assert (H : undecided (interactiveLoop ask report (split NL fileContent))).
  { apply interactiveLoop_fold; [|split; reflexivity].
    intros st issue. now apply issueStep_undecided. }
  destruct H as [-> ->]. reflexivity.
Qed.

Lemma issueStep_within ask ask' k fileLines st issue :
  (forall i, i <= k -> ask i = ask' i) -> isQuit (ask k) = true ->
  within k st ->
  issueStep ask fileLines st issue = issueStep ask' fileLines st issue
  /\ within k (issueStep ask fileLines st issue).
Proof.
  intros Hsame Hq Hw. unfold issueStep.
  destruct (quit st) eqn:Eq; [split; [reflexivity|right; assumption]|].
  destruct Hw as [Hle|Hw]; [|congruence].
  destruct (buildFixAction issue fileLines) as [action|];
    [|split; [reflexivity|left; assumption]].
  rewrite <- (Hsame (asked st) Hle).
  split; [reflexivity|].
  destruct (Nat.eq_dec (asked st) k) as [E|E].
  - rewrite E. unfold isQuit in Hq. rewrite Hq. right. reflexivity.
  - destruct (str_eqb _ (js "q") || _); [right; reflexivity|].
    destruct (str_eqb _ (js "y") || _); [destruct action|]; left; cbn [asked]; lia.
Qed.

Lemma interactiveLoop_after_quit ask ask' k report fileLines :
  (forall i, i <= k -> ask i = ask' i) -> isQuit (ask k) = true ->
  interactiveLoop ask report fileLines = interactiveLoop ask' report fileLines.
Proof.
  intros Hsame Hq. unfold interactiveLoop.
  assert (H0 : within k {| linesToRemove := []; sectionsToAdd := []; asked := 0; quit := false |})
    by (left; cbn; lia).
  revert H0.
  generalize {| linesToRemove := []; sectionsToAdd := []; asked := 0; quit := false |}.
  induction (results report) as [|r rs IH]; intros st Hst; cbn [fold_left]; [reflexivity|].
  assert (Hr : resultStep ask fileLines st r = resultStep ask' fileLines st r
               /\ within k (resultStep ask fileLines st r)).
  { unfold resultStep. destruct (quit st) eqn:Eq; [split; [reflexivity|assumption]|].
    clear Eq. revert st Hst.
    induction (issues r) as [|i iss IHi]; intros st Hst; cbn [fold_left];
      [split; [reflexivity|assumption]|].
    destruct (issueStep_within ask ask' k fileLines st i Hsame Hq Hst) as [E Hw].
    rewrite <- E. now apply IHi. }
  destruct Hr as [E Hw]. rewrite <- E. now apply IH.
Qed.

(** X12.  Once a question is answered with [q] or [quit], no later
    answer matters: two sessions whose answers agree up to and including the
    quitting one write the same. *)
Theorem runFixMode_after_quit (ask ask' : nat -> jsstring) (k : nat) (report : LintReport)
  (fileContent : jsstring) :
  (forall i, i <= k -> ask i = ask' i) -> isQuit (ask k) = true ->
  runFixMode ask report fileContent = runFixMode ask' report fileContent.
Proof.
  intros Hsame Hq. rewrite !runFixMode_unfold.
  now rewrite (interactiveLoop_after_quit ask ask' k report _ Hsame Hq).
Qed.

Lemma keepFrom_length (removed : list nat) (lns : list jsstring) : forall i,
  NoDup removed ->
  (forall m, In m removed -> i <= m < i + List.length lns) ->
  List.length (keepFrom i removed lns) + List.length removed = List.length lns.
Proof.
  revert removed. induction lns as [|x lns IH]; intros removed i Hnd Hr; cbn [keepFrom List.length].
  - destruct removed as [|m removed]; [reflexivity|].
    specialize (Hr m (or_introl eq_refl)). cbn in Hr. lia.
  - destruct (existsb (Nat.eqb i) removed) eqn:E.
    + apply existsb_eqb_In in E.
      destruct (in_split _ _ E) as (l1 & l2 & ->).
      assert (Hnd' : NoDup (l1 ++ l2)) by (eapply NoDup_remove_1; exact Hnd).
      assert (Hni : ~ In i (l1 ++ l2)) by (eapply NoDup_remove_2; exact Hnd).
      rewrite (keepFrom_ext (l1 ++ i :: l2) (i :: l1 ++ l2)).
      2:{ intros m. rewrite !in_app_iff. cbn. rewrite in_app_iff. tauto. }
      assert (Hk : keepFrom (S i) (i :: l1 ++ l2) lns = keepFrom (S i) (l1 ++ l2) lns).
      { clear - Hni. generalize (S i) (Nat.lt_succ_diag_r i).
        induction lns as [|y lns IHl]; intros j Hj; cbn [keepFrom]; [reflexivity|].
        cbn [existsb]. replace (j =? i) with false by (symmetry; apply Nat.eqb_neq; lia).
        cbn [orb]. rewrite !IHl by lia. reflexivity. }
      rewrite Hk. rewrite length_app. cbn [List.length].
      rewrite <- (IH (l1 ++ l2) (S i) Hnd'), length_app; [lia|].
      intros m Hm.
      assert (Hm' : In m (l1 ++ i :: l2)).
      { rewrite in_app_iff in *. cbn. tauto. }
      specialize (Hr m Hm'). cbn [List.length] in Hr.
      assert (m <> i) by (intros ->; contradiction). lia.
    + cbn [List.length]. rewrite <- (IH removed (S i) Hnd); [lia|].
      intros m Hm. specialize (Hr m Hm). cbn [List.length] in Hr.
      assert (m <> i).
      { intros ->. apply existsb_eqb_In in Hm. congruence. }
      lia.
Qed.

(** X13.  The line numbers accepted for removal in a session are distinct
    line numbers of the file, so each of them removes one line: the lines kept
    and the lines accepted add up to the lines of the file, and the lines
    after the fixes are those kept plus the lines of the accepted sections. *)
Theorem removal_count (ask : nat -> jsstring) (report : LintReport) (fileContent : jsstring) :
  let fileLines := split NL fileContent in
  let st := interactiveLoop ask report fileLines in
  NoDup (linesToRemove st)
  /\ Forall (fun n => 1 <= n <= List.length fileLines) (linesToRemove st)
  /\ List.length (keepLines (linesToRemove st) fileLines) + List.length (linesToRemove st)
     = List.length fileLines
  /\ List.length (applyFixes fileLines st) + List.length (linesToRemove st)
     = List.length fileLines
       + match sectionsToAdd st with
         | [] => 0
         | _ :: _ => List.length (split NL (join [NL] (sectionsToAdd st)))
         end.
Proof.
  intros fileLines st.
  assert (Hwf : wellFormed fileLines st) by apply interactiveLoop_wellFormed.
  destruct Hwf as [Hnd Hr].
  assert (Hk : List.length (keepLines (linesToRemove st) fileLines)
               + List.length (linesToRemove st) = List.length fileLines).
  { apply keepFrom_length; [assumption|]. intros m Hm. apply Hr in Hm. lia. }
  split; [assumption|]. split; [now apply Forall_forall|]. split; [exact Hk|].
  rewrite (applyFixes_keepLines fileLines st (conj Hnd Hr)).
  destruct (sectionsToAdd st); rewrite length_app; cbn [List.length]; lia.
Qed.



Lemma firstn_S_nth {A : Type} (d : A) (l : list A) : forall a,
  a < List.length l -> firstn (S a) l = firstn a l ++ [nth a l d].
Proof.
  induction l as [|x l IH]; intros a Ha; cbn [List.length] in Ha; [lia|].
  destruct a as [|a]; [reflexivity|].
  cbn [firstn nth app]. f_equal. apply IH. lia.
Qed.

Lemma countYes_firstn_S (answers : list jsstring) (a : nat) :
  List.length (filter isYes (firstn (S a) answers))
  = List.length (filter isYes (firstn a answers))
    + (if isYes (nth a answers []) then 1 else 0).
Proof.
  destruct (Nat.lt_ge_cases a (List.length answers)) as [Ha|Ha].
  - rewrite (@firstn_S_nth jsstring [] answers a Ha), filter_app, length_app. cbn [filter].
    destruct (isYes (nth a answers [])); reflexivity.
  - unfold jsstring in *. rewrite !firstn_all2 by lia. rewrite nth_overflow by lia.
    change (isYes []) with false. cbv iota. lia.
Qed.

Lemma countYes_firstn (answers : list jsstring) (a : nat) :
  List.length (filter isYes (firstn a answers)) <= List.length (filter isYes answers).
Proof.
  rewrite <- (firstn_skipn a answers) at 2. rewrite filter_app, length_app. lia.
Qed.

Lemma addLine_length (s : list nat) (n : nat) :
  List.length (addLine s n) <= S (List.length s).
Proof.
  unfold addLine. destruct (existsb (Nat.eqb n) s); [lia|].
  rewrite length_app. cbn. lia.
Qed.

Lemma issueStep_accepted (answers : list jsstring) (fileLines : list jsstring)
  (st : session) (issue : LintIssue) :
  accepted st <= List.length (filter isYes (firstn (asked st) answers)) ->
  accepted (issueStep (askPiped answers) fileLines st issue)
  <= List.length (filter isYes
                    (firstn (asked (issueStep (askPiped answers) fileLines st issue)) answers)).
Proof.
  intros H. unfold issueStep. destruct (quit st); [assumption|].
  destruct (buildFixAction issue fileLines) as [action|]; [|assumption].
  pose proof (countYes_firstn_S answers (asked st)) as HS. unfold askPiped.
  destruct (str_eqb (nth (asked st) answers []) (js "q")
            || str_eqb (nth (asked st) answers []) (js "quit")).
  - unfold accepted in *. cbn [linesToRemove sectionsToAdd asked]. lia.
  - fold (isYes (nth (asked st) answers [])).
    destruct (isYes (nth (asked st) answers [])).
    + destruct action as [lineNumber|content]; unfold accepted in *;
        cbn [linesToRemove sectionsToAdd asked].
      * pose proof (addLine_length (linesToRemove st) lineNumber). lia.
      * rewrite length_app. cbn [List.length]. lia.
    + unfold accepted in *. cbn [linesToRemove sectionsToAdd asked]. lia.
Qed.

(** X15.  With answers read from a pipe, a session accepts at most as many
    fixes as there are lines [y] or [yes] in the input: once the input has run
    out every question gets the empty answer, which accepts nothing.  An input
    without such a line leaves the file untouched. *)
Theorem piped_answers_bound (answers : list jsstring) (report : LintReport)
  (fileContent : jsstring) :
  let st := interactiveLoop (askPiped answers) report (split NL fileContent) in
  accepted st <= List.length (filter isYes answers)
  /\ (filter isYes answers = [] ->
      runFixMode (askPiped answers) report fileContent = []).
Proof.
  cbv zeta.
  assert (H : accepted (interactiveLoop (askPiped answers) report (split NL fileContent))
              <= List.length (filter isYes answers)).
  { etransitivity; [|apply (countYes_firstn answers
                              (asked (interactiveLoop (askPiped answers) report
                                        (split NL fileContent))))].
    apply (interactiveLoop_fold
             (fun st => accepted st
                        <= List.length (filter isYes (firstn (asked st) answers)))).
    - intros st issue. apply issueStep_accepted.
    - cbn. lia. }
  split; [exact H|]. intros Hno. rewrite Hno in H. cbn [List.length] in H.
  rewrite runFixMode_unfold. cbv zeta. unfold accepted in H.
  destruct (_ =? 0) eqn:E; [reflexivity|]. apply Nat.eqb_neq in E. lia.
Qed.

(** Answering [n] to every question about the two issues of the 45-line
    file writes nothing. *)
Lemma runFixMode_without_yes_witness :
  isYes (js "n") = false
  /\ runFixMode (fun _ => js "n") twoLineReport (join [NL] (numberedLines 45)) = [].
Proof.
  split; [reflexivity|]. apply runFixMode_without_yes. intros i. reflexivity.
Defined.

(** Quitting at the first question: what would have been answered later
    makes no difference. *)
Lemma runFixMode_after_quit_witness :
  isQuit (quitFirst 0) = true
  /\ runFixMode quitFirst twoLineReport (join [NL] (numberedLines 45))
     = runFixMode (fun _ => js "q") twoLineReport (join [NL] (numberedLines 45)).
Proof.
  split; [reflexivity|]. apply (runFixMode_after_quit quitFirst (fun _ => js "q") 0).
  - intros i Hi. assert (i = 0) by lia. subst i. reflexivity.
  - reflexivity.
Defined.


Lemma runLength_all (p : codeUnit -> bool) (s : jsstring) :
  (forallb p s = true -> runLength p None s = List.length s)
  /\ (forallb p s = false -> runLength p None s < List.length s).
Proof.
  induction s as [|x s [IH1 IH2]]; cbn [forallb runLength List.length].
  - split; [reflexivity|discriminate].
  - destruct (p x); cbn [andb].
    + split; intros H; [now rewrite IH1|specialize (IH2 H); lia].
    + split; [discriminate|lia].
Qed.

Lemma consume_rest (m : nat) : forall st,
  m <= List.length (rest st) ->
  rest (consume m st) = skipn m (rest st) /\ pos (consume m st) = pos st + m.
Proof.
  induction m as [|m IH]; intros st Hm; cbn [consume].
  - split; [reflexivity|lia].
  - destruct (rest st) as [|x xs] eqn:E; cbn [List.length] in Hm; [lia|].
    destruct (IH (advance st x xs)) as [H1 H2]; [cbn; lia|].
    rewrite H1, H2. cbn [advance rest pos skipn]. split; [reflexivity|lia].
Qed.

Lemma repTry_none (lo : nat) (st : mstate) (k : mstate -> option mstate) : forall n,
  (forall m, m <= n -> k (consume m st) = None) -> repTry lo n st k = None.
Proof.
  induction n as [|n IH]; intros H; cbn [repTry].
  - destruct (0 <? lo); [reflexivity|]. now rewrite (H 0).
  - destruct (S n <? lo); [reflexivity|]. rewrite (H (S n)) by lia. apply IH.
    intros m Hm. apply H. lia.
Qed.

Lemma run_rest_eol (p : codeUnit -> bool) (st : mstate) :
  run false (Cat (Grp 1 (Rep p 1 None)) Eol) st Some
  = if negb (str_eqb (rest st) []) && forallb p (rest st)
    then Some (setCap 1 (rest st) (consume (List.length (rest st)) st))
    else None.
Proof.
  cbn [run]. destruct (runLength_all p (rest st)) as [Hall Hnot].
  destruct (rest st) as [|x xs] eqn:E.
  - cbn [runLength repTry Nat.ltb Nat.leb str_eqb negb andb]. reflexivity.
  - change (negb (str_eqb (x :: xs) [])) with true. cbn [andb].
    destruct (forallb p (x :: xs)) eqn:Ef.
    + rewrite (Hall eq_refl). cbn [List.length repTry Nat.ltb Nat.leb].
      destruct (consume_rest (S (List.length xs)) st) as [H1 H2];
        [rewrite E; cbn; lia|].
      cbn [setCap rest]. rewrite H1, H2, E.
      replace (pos st + S (List.length xs) - pos st) with (List.length (x :: xs))
        by (cbn [List.length]; lia).
      change (S (List.length xs)) with (List.length (x :: xs)).
      now rewrite skipn_all, firstn_all.
    + specialize (Hnot eq_refl). apply repTry_none. intros m Hm.
      destruct (consume_rest m st) as [H1 H2]; [rewrite E; lia|].
      cbn [setCap rest]. rewrite H1, E.
      destruct (skipn m (x :: xs)) as [|y ys] eqn:Es; [|reflexivity].
      exfalso. apply (f_equal (@List.length _)) in Es. rewrite length_skipn in Es.
      cbn [List.length] in *. lia.
Qed.

Lemma search_bol_later (ic : bool) (r : regex) (rs : jsstring) : forall pv i,
  i <> 0 -> search ic (Cat Bol r) pv rs i = None.
Proof.
  induction rs as [|x rs IH]; intros pv i Hi; cbn [search run pos].
  - destruct (i =? 0) eqn:E; [apply Nat.eqb_eq in E; contradiction|reflexivity].
  - destruct (i =? 0) eqn:E; [apply Nat.eqb_eq in E; contradiction|]. now apply IH.
Qed.

Lemma run_Cat ic r1 r2 st k :
  run ic (Cat r1 r2) st k = run ic r1 st (fun st1 => run ic r2 st1 k).
Proof. reflexivity. Qed.

Lemma run_Bol_start ic st k : pos st = 0 -> run ic Bol st k = k st.
Proof. intros H. cbn [run]. now rewrite H. Qed.

Lemma custom_prefix (name : jsstring) :
  startsWith (js "missing-custom-section-") (js "missing-custom-section-" ++ name) = true.
Proof. reflexivity. Qed.

Lemma custom_consume (name : jsstring) :
  consume (List.length (js "missing-custom-section-"))
    {| prev := None; rest := js "missing-custom-section-" ++ name; pos := 0; caps := [] |}
  = {| prev := Some 45%N; rest := name; pos := 23; caps := [] |}.
Proof. reflexivity. Qed.

Lemma custom_run (name : jsstring) :
  run false (source CUSTOM_SECTION_RULE)
    {| prev := None; rest := js "missing-custom-section-" ++ name; pos := 0; caps := [] |} Some
  = if singleLine name
    then Some (setCap 1 name
                 (consume (List.length name)
                    {| prev := Some 45%N; rest := name; pos := 23; caps := [] |}))
    else None.
Proof.
  unfold CUSTOM_SECTION_RULE. cbn [source seq].
  rewrite run_Cat, run_Bol_start by reflexivity. rewrite run_Cat. unfold word.
  rewrite run_lit by discriminate. rewrite !foldCase_false. cbn [rest].
  rewrite custom_prefix, custom_consume. unfold plus. rewrite run_rest_eol. reflexivity.
Qed.

Lemma matchOnce_custom (name : jsstring) :
  matchOnce CUSTOM_SECTION_RULE (js "missing-custom-section-" ++ name)
  = if singleLine name
    then Some {| index := 0;
                 endIndex := 23 + List.length name;
                 groups := [(1, name)] |}
    else None.
Proof.
  unfold matchOnce, execAt. cbn [Nat.ltb Nat.leb prevAt skipn].
  change (ignoreCase CUSTOM_SECTION_RULE) with false.
  destruct (js "missing-custom-section-" ++ name) as [|x s'] eqn:Es; [discriminate Es|].
  cbn [search]. rewrite <- Es, custom_run. destruct (singleLine name) eqn:El.
  - f_equal. destruct (consume_rest (List.length name)
                         {| prev := Some 45%N; rest := name; pos := 23; caps := [] |})
      as [_ H2]; [cbn; lia|].
    cbn [setCap pos caps]. rewrite H2, consume_caps. reflexivity.
  - unfold CUSTOM_SECTION_RULE. cbn [source seq]. apply search_bol_later. discriminate.
Qed.

(** X16.  For a rule [missing-custom-section-<name>],
    [getSectionTemplate] has a template exactly when the name is not empty and
    holds no line terminator.  The template is then a second-level heading
    whose title is the name with its dashes turned into spaces and the first
    letter of every word in upper case, followed by a TODO comment naming the
    same title.  With an empty name there is no template, and the issue is
    advisory only. *)
Theorem getSectionTemplate_custom (name : jsstring) :
  getSectionTemplate (js "missing-custom-section-" ++ name)
  = if singleLine name then Some (customTemplate name) else None.
Proof.
  unfold getSectionTemplate.
  change (Checkers.assoc (js "missing-custom-section-" ++ name) SECTION_TEMPLATES) with
    (@None jsstring).
  rewrite matchOnce_custom. destruct (singleLine name); reflexivity.
Qed.

End FixProps.

(* ================================================================== *)
(** * Facts about the cross-document check *)
(* ================================================================== *)

Module CrossProps.
Import ParserFacts CheckerFacts ParserProps.
Import JSString JSRegExp Types Checkers Linter Cross.
Local Open Scope list_scope.

Lemma setOf_NoDup (l : list jsstring) : NoDup (setOf l).
Proof.
  unfold setOf.
  assert (H : forall acc, NoDup acc -> NoDup (fold_left set_add l acc)).
  { induction l as [|x l IH]; intros acc Hacc; cbn [fold_left]; [assumption|].
    apply IH. now apply set_add_NoDup. }
  apply H. constructor.
Qed.

Lemma NoDup_two {A : Type} (l : list A) :
  NoDup l -> (1 < List.length l <-> exists x y, In x l /\ In y l /\ x <> y).
Proof.
  intros Hnd. split.
  - destruct l as [|x [|y l]]; cbn [List.length]; try lia. intros _.
    exists x, y. cbn [In]. repeat split; auto.
    inversion Hnd as [|? ? Hx _]; subst. intros ->. apply Hx. now left.
  - intros (x & y & Hx & Hy & Hxy). destruct l as [|a [|b l]]; cbn [List.length]; try lia.
    + destruct Hx.
    + cbn [In] in Hx, Hy. destruct Hx as [<-|[]], Hy as [<-|[]]. congruence.
Qed.

Lemma str_eqb_false a b : str_eqb a b = false <-> a <> b.
Proof.
  split.
  - intros E H. apply str_eqb_eq in H. congruence.
  - intros H. destruct (str_eqb a b) eqn:E; [|reflexivity]. apply str_eqb_eq in E. contradiction.
Qed.

(* ----- package managers ----- *)

Lemma pms_In (files : list FileContext) (pm : jsstring) :
  In pm (flat_map (fun f : jsstring * option jsstring =>
                     match snd f with Some pm => [pm] | None => [] end)
           (List.map (fun f => (relativePath f, detectPM (rawContent (parsed f)))) files))
  <-> exists f, In f files /\ detectPM (rawContent (parsed f)) = Some pm.
Proof.
  rewrite in_flat_map. split.
  - intros ([rel o] & Hin & Hpm). apply in_map_iff in Hin. destruct Hin as (f & [= <- <-] & Hf).
    cbn [snd] in Hpm. destruct (detectPM _) as [pm'|] eqn:E; [|destruct Hpm].
    destruct Hpm as [<-|[]]. eauto.
  - intros (f & Hf & E). exists (relativePath f, detectPM (rawContent (parsed f))).
    split; [apply in_map_iff; eauto|]. cbn [snd]. rewrite E. now left.
Qed.

Lemma checkPackageManagers_spec (files : list FileContext) :
  (managersConflict files
   /\ exists detail, checkPackageManagers files = ([pmConflictIssue detail], 0))
  \/ (~ managersConflict files /\ checkPackageManagers files = ([], 1)).
Proof.
  unfold checkPackageManagers.
  match goal with |- context [1 <? List.length (setOf ?l)] =>
    pose proof (NoDup_two (setOf l) (setOf_NoDup l)) as H;
    destruct (1 <? List.length (setOf l)) eqn:E end.
  - left. apply Nat.ltb_lt, H in E. destruct E as (x & y & Hx & Hy & Hxy).
    apply setOf_In, pms_In in Hx, Hy. destruct Hx as (f & Hf & Ef), Hy as (g & Hg & Eg).
    split; [exists f, g, x, y; auto|eauto].
  - right. split; [|reflexivity]. intros (f & g & pm & pm' & Hf & Hg & Ef & Eg & Hne).
    apply Nat.ltb_ge in E. assert (1 < List.length (setOf
        (flat_map (fun f : jsstring * option jsstring =>
                     match snd f with Some pm => [pm] | None => [] end)
           (List.map (fun f => (relativePath f, detectPM (rawContent (parsed f)))) files))));
      [|lia].
    apply H. exists pm, pm'. repeat split; [| |assumption]; apply setOf_In, pms_In; eauto.
Qed.

(* ----- script roles ----- *)

Lemma assoc_addToRole (role s role' : jsstring) (m : roleMap) :
  assoc role' (addToRole role s m)
  = if str_eqb role role'
    then Some (set_add (match assoc role m with Some l => l | None => [] end) s)
    else assoc role' m.
Proof.
  induction m as [|[r scripts] m IH]; cbn [addToRole assoc].
  - destruct (str_eqb role role'); reflexivity.
  - destruct (str_eqb r role) eqn:E; cbn [assoc].
    + apply str_eqb_eq in E. subst r. destruct (str_eqb role role'); reflexivity.
    + rewrite IH. destruct (str_eqb r role') eqn:E', (str_eqb role role') eqn:E2;
        try reflexivity.
      apply str_eqb_eq in E', E2. subst. rewrite str_eqb_refl in E. discriminate.
Qed.

Lemma keys_addToRole (role s : jsstring) (m : roleMap) (k : jsstring) :
  In k (List.map fst (addToRole role s m)) <-> In k (List.map fst m) \/ k = role.
Proof.
  induction m as [|[r scripts] m IH]; cbn [addToRole List.map fst In].
  - intuition.
  - destruct (str_eqb r role) eqn:E; cbn [List.map fst In].
    + apply str_eqb_eq in E. subst r. intuition.
    + rewrite IH. intuition.
Qed.

Lemma keys_assoc {A : Type} (k : jsstring) (m : list (jsstring * A)) :
  In k (List.map fst m) <-> assoc k m <> None.
Proof.
  induction m as [|[r v] m IH]; cbn [List.map fst In assoc]; [tauto|].
  destruct (str_eqb r k) eqn:E.
  - apply str_eqb_eq in E. split; [discriminate|auto].
  - apply str_eqb_false in E. rewrite <- IH. tauto.
Qed.

Lemma grouped_step (seen : list jsstring) (m : roleMap) (s : jsstring) :
  grouped seen m ->
  grouped (seen ++ [s]) (match getRole s with Some role => addToRole role s m | None => m end).
Proof.
  intros H role. unfold hasRole in *. destruct (getRole s) as [r|] eqn:Es.
  - rewrite assoc_addToRole. destruct (str_eqb r role) eqn:E.
    + apply str_eqb_eq in E. subst r. specialize (H role). split.
      * unfold set_add. destruct (set_has s _) eqn:Eh.
        -- apply set_has_In in Eh. intros E0. rewrite E0 in Eh. destruct Eh.
        -- now destruct (match assoc role m with Some l => l | None => [] end).
      * intros x. rewrite set_add_In, in_app_iff. cbn [In].
        destruct (assoc role m) as [l|].
        -- destruct H as [_ H]. rewrite H. split.
           ++ intros [[H1 H2]| ->]; auto.
           ++ intros [[H1|[<-|[]]] H2]; auto.
        -- split.
           ++ intros [[]| ->]; auto.
           ++ intros [[H1|[<-|[]]] H2]; auto. exfalso. exact (H x H1 H2).
    + apply str_eqb_false in E. specialize (H role). destruct (assoc role m) as [l|].
      * destruct H as [Hne H]. split; [assumption|]. intros x. rewrite H, in_app_iff. cbn [In].
        split; [intros [H1 H2]; auto|]. intros [[H1|[<-|[]]] H2]; auto. congruence.
      * intros x Hx Hr. apply in_app_iff in Hx. cbn [In] in Hx.
        destruct Hx as [Hx|[<-|[]]]; [exact (H x Hx Hr)|congruence].
  - specialize (H role). destruct (assoc role m) as [l|].
    + destruct H as [Hne H]. split; [assumption|]. intros x. rewrite H, in_app_iff. cbn [In].
      split; [intros [H1 H2]; auto|]. intros [[H1|[<-|[]]] H2]; auto. congruence.
    + intros x Hx Hr. apply in_app_iff in Hx. cbn [In] in Hx.
      destruct Hx as [Hx|[<-|[]]]; [exact (H x Hx Hr)|congruence].
Qed.

Lemma grouped_fold (scripts : list jsstring) : forall seen m,
  grouped seen m ->
  grouped (seen ++ scripts)
    (fold_left (fun m s => match getRole s with
                           | Some role => addToRole role s m
                           | None => m
                           end) scripts m).
Proof.
  induction scripts as [|s scripts IH]; intros seen m H; cbn [fold_left].
  - now rewrite app_nil_r.
  - replace (seen ++ s :: scripts) with ((seen ++ [s]) ++ scripts)
      by (rewrite <- app_assoc; reflexivity).
    apply IH. now apply grouped_step.
Qed.

Lemma groupByRole_grouped (scripts : list jsstring) : grouped scripts (groupByRole scripts).
Proof.
  apply (grouped_fold scripts [] []). intros role. cbn. intros s [].
Qed.

Lemma mentionsRole_spec (role : jsstring) (file : FileContext) :
  mentionsRole role file = true
  <-> exists s, In s (mentionedScripts (parsed file)) /\ hasRole role s.
Proof.
  unfold mentionsRole, hasRole. rewrite existsb_exists. split.
  - intros (s & Hs & E). exists s. split; [assumption|].
    destruct (getRole s) as [r|]; [|discriminate]. apply str_eqb_eq in E. now subst.
  - intros (s & Hs & E). exists s. split; [assumption|]. rewrite E. now apply str_eqb_eq.
Qed.

Lemma groupByRole_assoc (role : jsstring) (file : FileContext) :
  match assoc role (groupByRole (mentionedScripts (parsed file))) with
  | Some l => mentionsRole role file = true /\ l <> []
              /\ forall s, In s l <-> In s (mentionedScripts (parsed file)) /\ hasRole role s
  | None => mentionsRole role file = false
  end.
Proof.
  pose proof (groupByRole_grouped (mentionedScripts (parsed file)) role) as H.
  destruct (assoc role _) as [l|].
  - destruct H as [Hne H]. split; [|split; assumption].
    apply mentionsRole_spec. destruct l as [|s l]; [congruence|].
    exists s. apply H. now left.
  - destruct (mentionsRole role file) eqn:E; [|reflexivity].
    apply mentionsRole_spec in E. destruct E as (s & Hs & Hr). exfalso. exact (H s Hs Hr).
Qed.

Lemma filesWithRole_spec (files : list FileContext) (role : jsstring) :
  List.length (filesWithRole (rolesOf files) role)
  = List.length (filter (mentionsRole role) files)
  /\ forall s, In s (flat_map snd (filesWithRole (rolesOf files) role))
               <-> exists f, In f files /\ In s (mentionedScripts (parsed f)) /\ hasRole role s.
Proof.
  induction files as [|f files [IH1 IH2]].
  - split; [reflexivity|]. intros s. cbn. split; [intros []|intros (f & [] & _)].
  - unfold rolesOf, filesWithRole in *. cbn [List.map flat_map filter fst snd].
    pose proof (groupByRole_assoc role f) as H.
    destruct (assoc role (groupByRole (mentionedScripts (parsed f)))) as [l|].
    + destruct H as (Hm & Hne & Hl). rewrite Hm.
      destruct l as [|x l]; [congruence|]. change (0 <? List.length (x :: l)) with true.
      cbv iota.
      split.
      * rewrite length_app. cbn [List.length]. now rewrite IH1.
      * intros s. rewrite flat_map_app, in_app_iff, IH2. cbn [flat_map snd In].
        rewrite app_nil_r. change (x = s \/ In s l) with (In s (x :: l)). rewrite Hl.
        split.
        -- intros [[H1 H2]|(g & Hg & H1 & H2)]; [exists f|exists g]; cbn [In]; auto.
        -- intros (g & [<-|Hg] & H1 & H2); [left; auto|right; exists g; auto].
    + rewrite H. cbn [app]. split; [assumption|]. intros s. rewrite IH2. split.
      * intros (g & Hg & H1 & H2). exists g. split; [now right|auto].
      * intros (g & [<-|Hg] & H1 & H2); [|exists g; auto].
        exfalso. assert (Ht : mentionsRole role f = true) by (apply mentionsRole_spec; eauto).
        congruence.
Qed.

Lemma roleStep_spec (files : list FileContext) (iss : list LintIssue) (n : nat)
  (role : jsstring) :
  (roleConflict files role
   /\ exists detail, roleStep (rolesOf files) (iss, n) role
                     = (iss ++ [scriptConflictIssue role detail], n))
  \/ (roleAgreement files role /\ roleStep (rolesOf files) (iss, n) role = (iss, S n))
  \/ (List.length (filter (mentionsRole role) files) < 2
      /\ roleStep (rolesOf files) (iss, n) role = (iss, n)).
Proof.
  unfold roleStep. destruct (filesWithRole_spec files role) as [Hlen Hin]. rewrite Hlen.
  destruct (List.length (filter (mentionsRole role) files) <? 2) eqn:E.
  - right. right. apply Nat.ltb_lt in E. auto.
  - apply Nat.ltb_ge in E.
    match goal with |- context [1 <? List.length (setOf ?l)] =>
      pose proof (NoDup_two (setOf l) (setOf_NoDup l)) as H;
      destruct (1 <? List.length (setOf l)) eqn:E2 end.
    + left. apply Nat.ltb_lt, H in E2. destruct E2 as (x & y & Hx & Hy & Hxy).
      apply setOf_In, Hin in Hx, Hy.
      destruct Hx as (f & Hf & H1 & H2), Hy as (g & Hg & H3 & H4).
      split; [|eauto]. split; [assumption|]. exists f, g, x, y. auto 10.
    + right. left. split; [|reflexivity]. split; [assumption|].
      intros (_ & f & g & s & s' & Hf & Hg & H1 & H2 & H3 & H4 & Hne).
      apply Nat.ltb_ge in E2.
      assert (1 < List.length (setOf (flat_map snd (filesWithRole (rolesOf files) role))));
        [|lia].
      apply H. exists s, s'. repeat split; [| |assumption]; apply setOf_In, Hin; eauto.
Qed.

Lemma fold_roleStep (files : list FileContext) (roles : list jsstring) : forall iss n,
  exists extra k,
    fold_left (roleStep (rolesOf files)) roles (iss, n) = (iss ++ extra, n + k)
    /\ roleIssues files roles extra k.
Proof.
  induction roles as [|role roles IH]; intros iss n; cbn [fold_left].
  - exists [], 0. rewrite app_nil_r, Nat.add_0_r. split; [reflexivity|constructor].
  - destruct (roleStep_spec files iss n role)
      as [(Hc & detail & ->)|[(Ha & ->)|(Hs & ->)]].
    + destruct (IH (iss ++ [scriptConflictIssue role detail]) n) as (extra & k & -> & Hr).
      exists (scriptConflictIssue role detail :: extra), k. rewrite <- app_assoc.
      split; [reflexivity|]. now constructor.
    + destruct (IH iss (S n)) as (extra & k & -> & Hr). exists extra, (S k).
      split; [f_equal; lia|]. now constructor.
    + destruct (IH iss n) as (extra & k & -> & Hr). exists extra, k.
      split; [reflexivity|]. now apply roleIssues_single.
Qed.

Lemma roleIssues_bound files roles iss n :
  roleIssues files roles iss n -> List.length iss + n <= List.length roles.
Proof. induction 1; cbn [List.length]; lia. Qed.

Lemma roleIssues_In files roles iss n :
  roleIssues files roles iss n ->
  forall i, In i iss ->
    exists role detail, In role roles /\ roleConflict files role
                        /\ i = scriptConflictIssue role detail.
Proof.
  induction 1 as [|role roles detail iss n Hc _ IH|role roles iss n _ _ IH
                  |role roles iss n _ _ IH]; intros i Hi.
  - destruct Hi.
  - destruct Hi as [<-|Hi]; [exists role, detail; cbn; auto|].
    destruct (IH i Hi) as (r & d & H1 & H2 & H3). exists r, d. cbn. auto.
  - destruct (IH i Hi) as (r & d & H1 & H2 & H3). exists r, d. cbn. auto.
  - destruct (IH i Hi) as (r & d & H1 & H2 & H3). exists r, d. cbn. auto.
Qed.

Lemma roleIssues_complete files roles iss n :
  roleIssues files roles iss n ->
  forall role, In role roles -> roleConflict files role ->
    exists detail, In (scriptConflictIssue role detail) iss.
Proof.
  induction 1 as [|role roles detail iss n Hc _ IH|role roles iss n Ha _ IH
                  |role roles iss n Hs _ IH]; intros r Hr Hconf.
  - destruct Hr.
  - destruct Hr as [<-|Hr]; [exists detail; now left|].
    destruct (IH r Hr Hconf) as (d & Hd). exists d. now right.
  - destruct Hr as [<-|Hr]; [destruct Ha as [_ Ha]; contradiction|exact (IH r Hr Hconf)].
  - destruct Hr as [<-|Hr]; [destruct Hconf as [Hc _]; lia|exact (IH r Hr Hconf)].
Qed.

Lemma allRoles_In (files : list FileContext) (role : jsstring) :
  In role (setOf (flat_map (fun f : jsstring * roleMap => List.map fst (snd f))
                    (rolesOf files)))
  <-> exists f, In f files /\ mentionsRole role f = true.
Proof.
  rewrite setOf_In, in_flat_map. unfold rolesOf. split.
  - intros ([rel m] & Hin & Hk). apply in_map_iff in Hin. destruct Hin as (f & [= <- <-] & Hf).
    cbn [snd] in Hk. apply keys_assoc in Hk. exists f. split; [assumption|].
    pose proof (groupByRole_assoc role f) as H.
    destruct (assoc role _); [apply H|congruence].
  - intros (f & Hf & Hm).
    exists (relativePath f, groupByRole (mentionedScripts (parsed f))).
    split; [apply in_map_iff; eauto|]. cbn [snd]. apply keys_assoc.
    pose proof (groupByRole_assoc role f) as H.
    destruct (assoc role _); [discriminate|congruence].
Qed.

Lemma getRole_roles (s role : jsstring) :
  getRole s = Some role -> In role (List.map fst SCRIPT_ROLES).
Proof.
  unfold getRole. destruct (find _ SCRIPT_ROLES) as [e|] eqn:E; [|discriminate].
  intros [= <-]. apply find_some in E. apply in_map. apply E.
Qed.

Lemma allRoles_length (files : list FileContext) :
  List.length (setOf (flat_map (fun f : jsstring * roleMap => List.map fst (snd f))
                        (rolesOf files))) <= 4.
Proof.
  change 4 with (List.length (List.map fst SCRIPT_ROLES)).
  apply NoDup_incl_length; [apply setOf_NoDup|].
  intros role H. apply allRoles_In in H. destruct H as (f & _ & Hm).
  apply mentionsRole_spec in Hm. destruct Hm as (s & _ & Hs). exact (getRole_roles _ _ Hs).
Qed.

(* ----- path asymmetry ----- *)

Lemma fold_pathStep (files : list FileContext) (file : FileContext) (paths : list jsstring) :
  forall iss c,
    let flagged :=
      firstn (5 - c)
        (filter (fun p => negb (insignificant p)
                          && negb (covered (allOtherPaths files (relativePath file)) p))
           paths) in
    fold_left (pathStep files file (allOtherPaths files (relativePath file))) paths (iss, c)
    = (iss ++ List.map (pathAsymmetryIssue files file) flagged, c + List.length flagged).
Proof.
  cbv zeta. induction paths as [|p paths IH]; intros iss c; cbn [fold_left filter].
  - rewrite firstn_nil. cbn. now rewrite app_nil_r, Nat.add_0_r.
  - unfold pathStep at 2. destruct (5 <=? c) eqn:E.
    + rewrite IH. apply Nat.leb_le in E. replace (5 - c) with 0 by lia.
      cbn [firstn List.map List.length]. reflexivity.
    + apply Nat.leb_gt in E. destruct (insignificant p); cbn [negb andb]; [apply IH|].
      destruct (covered _ p); cbn [negb]; [apply IH|].
      rewrite IH. replace (5 - c) with (S (5 - S c)) by lia.
      cbn [firstn List.map List.length]. rewrite <- app_assoc. cbn [app]. f_equal. lia.
Qed.

Lemma fold_fileStep (files : list FileContext) (l : list FileContext) : forall iss c n,
  let pairs := flat_map (fun file => List.map (fun p => (file, p)) (asymmetric files file)) l in
  fold_left (fileStep files) l (iss, c, n)
  = (iss ++ List.map (pairIssue files) (firstn (5 - c) pairs),
     c + List.length (firstn (5 - c) pairs),
     n + (if c =? 0 then List.length (leadingSymmetric files l) else 0)).
Proof.
  cbv zeta. induction l as [|file l IH]; intros iss c n;
    cbn [fold_left flat_map leadingSymmetric].
  - rewrite firstn_nil. cbn [List.map List.length]. rewrite app_nil_r, !Nat.add_0_r.
    destruct (c =? 0); now rewrite Nat.add_0_r.
  - unfold fileStep at 2. destruct (5 <=? c) eqn:E.
    + rewrite IH. apply Nat.leb_le in E. replace (5 - c) with 0 by lia.
      cbn [firstn]. destruct (c =? 0) eqn:E0; [apply Nat.eqb_eq in E0; lia|reflexivity].
    + apply Nat.leb_gt in E. rewrite fold_pathStep. cbv zeta. fold (asymmetric files file).
      rewrite IH. rewrite firstn_app, length_map, map_app, firstn_map, map_map.
      cbn [pairIssue fst snd].
      change (fun x : jsstring => pairIssue files (file, x))
        with (pathAsymmetryIssue files file).
      rewrite length_app, length_map, <- app_assoc.
      rewrite length_firstn.
      assert (Hk : 5 - (c + Nat.min (5 - c) (List.length (asymmetric files file)))
                   = 5 - c - List.length (asymmetric files file)) by lia.
      rewrite Hk. f_equal; [f_equal; lia|].
      destruct (asymmetric files file) as [|p ps] eqn:Ea; cbn [List.length].
      * rewrite Nat.min_0_r, Nat.add_0_r. destruct (c =? 0); cbn [List.length]; lia.
      * destruct (c =? 0) eqn:E0.
        -- apply Nat.eqb_eq in E0. subst c. cbn [Nat.sub Nat.min Nat.add Nat.eqb]. cbn. lia.
        -- apply Nat.eqb_neq in E0.
           destruct (c + Nat.min (5 - c) (S (List.length ps)) =? 0) eqn:E1;
             [apply Nat.eqb_eq in E1; lia|lia].
Qed.

(* ----- the whole check ----- *)

Lemma checkCrossConsistency_unfold (files : list FileContext) :
  2 <= List.length files ->
  checkCrossConsistency files
  = let '(iss2, passed2) :=
      fold_left (roleStep (rolesOf files))
        (setOf (flat_map (fun f : jsstring * roleMap => List.map fst (snd f)) (rolesOf files)))
        (checkPackageManagers files) in
    let '(iss3, _, passed3) := fold_left (fileStep files) files (iss2, 0, passed2) in
    {| checker := js "cross-consistency"; issues := iss3; passed := passed3;
       failed := List.length iss3 |}.
Proof.
  intros Hlen. unfold checkCrossConsistency.
  destruct (List.length files <? 2) eqn:E; [apply Nat.ltb_lt in E; lia|]. reflexivity.
Qed.

Lemma checkCrossConsistency_shape (files : list FileContext) :
  2 <= List.length files ->
  exists pmIssues pmPassed roleExtra rolePassed,
    checkPackageManagers files = (pmIssues, pmPassed)
    /\ roleIssues files
         (setOf (flat_map (fun f : jsstring * roleMap => List.map fst (snd f))
                   (rolesOf files))) roleExtra rolePassed
    /\ issues (checkCrossConsistency files)
       = pmIssues ++ roleExtra
         ++ List.map (pairIssue files) (firstn 5 (asymmetricPairs files))
    /\ passed (checkCrossConsistency files)
       = pmPassed + rolePassed + List.length (leadingSymmetric files files)
    /\ failed (checkCrossConsistency files)
       = List.length (issues (checkCrossConsistency files)).
Proof.
  intros Hlen. rewrite (checkCrossConsistency_unfold files Hlen).
  destruct (checkPackageManagers files) as [pmIssues pmPassed].
  destruct (fold_roleStep files
              (setOf (flat_map (fun f : jsstring * roleMap => List.map fst (snd f))
                        (rolesOf files))) pmIssues pmPassed)
    as (extra & k & -> & Hr).
  rewrite fold_fileStep. cbv zeta. cbn [Nat.eqb Nat.sub issues passed failed].
  exists pmIssues, pmPassed, extra, k. fold (asymmetricPairs files).
  split; [reflexivity|]. split; [assumption|]. split; [now rewrite <- app_assoc|].
  split; reflexivity.
Qed.

Lemma scriptConflictIssue_rule role detail r :
  str_eqb (js r) (js "cross-script-conflict-") = false ->
  List.length (js r) <= List.length (js "cross-script-conflict-") ->
  hasRule r (scriptConflictIssue role detail) = false.
Proof.
  intros H Hl. unfold hasRule. cbn [rule scriptConflictIssue].
  apply str_eqb_false. intros E. apply str_eqb_false in H. apply H.
  assert (Hlen : List.length (js r) = List.length (js "cross-script-conflict-") + List.length role)
    by (rewrite <- E, length_app; reflexivity).
  assert (role = []) by (destruct role; [reflexivity|cbn [List.length] in Hlen; lia]).
  subst role. now rewrite app_nil_r in E.
Qed.

Lemma roleIssues_other files roles iss n r :
  str_eqb (js r) (js "cross-script-conflict-") = false ->
  List.length (js r) <= List.length (js "cross-script-conflict-") ->
  roleIssues files roles iss n -> filter (hasRule r) iss = [].
Proof.
  intros H Hl.
  induction 1 as [|role roles detail iss n _ _ IH| |]; cbn [filter];
    [reflexivity| |assumption|assumption].
  now rewrite (scriptConflictIssue_rule role detail r H Hl).
Qed.

Lemma roleIssues_unlined files roles iss n :
  roleIssues files roles iss n -> Forall (fun i => line i = None) iss.
Proof.
  induction 1; [constructor| |assumption|assumption].
  constructor; [reflexivity|assumption].
Qed.

Lemma pairIssues_rule files l r :
  str_eqb (js "cross-path-asymmetry") (js r) = false ->
  filter (hasRule r) (List.map (pairIssue files) l) = [].
Proof.
  intros H. induction l as [|fp l IH]; cbn [List.map filter]; [reflexivity|].
  unfold hasRule at 1. cbn [rule pairIssue pathAsymmetryIssue]. now rewrite H.
Qed.

Lemma pairIssues_all files l :
  filter (hasRule "cross-path-asymmetry") (List.map (pairIssue files) l)
  = List.map (pairIssue files) l.
Proof.
  induction l as [|fp l IH]; cbn [List.map filter]; [reflexivity|].
  unfold hasRule at 1. cbn [rule pairIssue pathAsymmetryIssue].
  rewrite str_eqb_refl. now rewrite IH.
Qed.

Lemma leadingSymmetric_length files l :
  List.length (leadingSymmetric files l) <= List.length l.
Proof.
  induction l as [|f l IH]; cbn [leadingSymmetric List.length]; [lia|].
  destruct (asymmetric files f); cbn [List.length]; lia.
Qed.

Lemma short_no_conflict (files : list FileContext) :
  List.length files < 2 -> ~ managersConflict files.
Proof.
  intros Hlen (f & g & pm & pm' & Hf & Hg & Ef & Eg & Hne).
  destruct files as [|a [|b files]]; cbn [List.length] in Hlen; try lia.
  - destruct Hf.
  - destruct Hf as [<-|[]], Hg as [<-|[]]. congruence.
Qed.

Lemma checkCrossConsistency_short (files : list FileContext) :
  List.length files < 2 ->
  checkCrossConsistency files = emptyResult "cross-consistency".
Proof.
  intros H. unfold checkCrossConsistency. apply Nat.ltb_lt in H. now rewrite H.
Qed.

(** X17.  [checkCrossConsistency] reports a package-manager
    conflict exactly when two of the files name different package managers,
    and it reports at most one. *)
Theorem package_manager_conflict (files : list FileContext) :
  let r := checkCrossConsistency files in
  ((exists detail, In (pmConflictIssue detail) (issues r)) <-> managersConflict files)
  /\ countRule "cross-pm-conflict" (issues r) <= 1.
Proof.
  cbv zeta. destruct (Nat.lt_ge_cases (List.length files) 2) as [Hlen|Hlen].
  - rewrite (checkCrossConsistency_short files Hlen). cbn [issues emptyResult]. split.
    + split; [intros (d & [])|]. intros H. exfalso. exact (short_no_conflict files Hlen H).
    + cbn. lia.
  - destruct (checkCrossConsistency_shape files Hlen)
      as (pmIssues & pmPassed & extra & k & Epm & Hr & -> & _).
    assert (Hcount : countRule "cross-pm-conflict"
                       (extra ++ List.map (pairIssue files) (firstn 5 (asymmetricPairs files)))
                     = 0).
    { unfold countRule. rewrite filter_app.
      rewrite (roleIssues_other _ _ _ _ "cross-pm-conflict" eq_refl (le_S _ _ (le_S _ _
                 (le_S _ _ (le_S _ _ (le_S _ _ (le_n _)))))) Hr).
      now rewrite pairIssues_rule. }
    assert (Hnot : forall d, ~ In (pmConflictIssue d)
                     (extra ++ List.map (pairIssue files) (firstn 5 (asymmetricPairs files)))).
    { intros d Hin. unfold countRule in Hcount. apply length_zero_iff_nil in Hcount.
      assert (H : In (pmConflictIssue d)
                    (filter (hasRule "cross-pm-conflict")
                       (extra ++ List.map (pairIssue files)
                                   (firstn 5 (asymmetricPairs files)))))
        by (apply filter_In; split; [assumption|reflexivity]).
      rewrite Hcount in H. destruct H. }
    rewrite countRule_app, Hcount.
    destruct (checkPackageManagers_spec files) as [(Hc & d & E)|(Hc & E)];
      rewrite E in Epm; injection Epm as <- <-.
    + split; [|cbn; lia]. split; [auto|]. intros _. exists d. now left.
    + split; [|cbn; lia]. split; [|contradiction].
      intros (d & Hin). cbn [app] in Hin. exfalso. exact (Hnot d Hin).
Qed.

Lemma scriptConflictIssue_inj role detail role' detail' :
  scriptConflictIssue role detail = scriptConflictIssue role' detail' -> role = role'.
Proof.
  intros H. apply (f_equal rule) in H. cbn [rule scriptConflictIssue] in H.
  now apply app_inv_head in H.
Qed.

(** X18.  [checkCrossConsistency] reports a conflict for a script
    role exactly when at least two files mention scripts of that role and two
    different scripts of the role are mentioned among them. *)
Theorem script_role_conflict (files : list FileContext) (role : jsstring) :
  (exists detail, In (scriptConflictIssue role detail) (issues (checkCrossConsistency files)))
  <-> roleConflict files role.
Proof.
  destruct (Nat.lt_ge_cases (List.length files) 2) as [Hlen|Hlen].
  - rewrite (checkCrossConsistency_short files Hlen). cbn [issues emptyResult].
    split; [intros (d & [])|]. intros [H _]. exfalso.
    pose proof (filter_length_le (mentionsRole role) files). lia.
  - destruct (checkCrossConsistency_shape files Hlen)
      as (pmIssues & pmPassed & extra & k & Epm & Hr & -> & _).
    split.
    + intros (d & Hin). rewrite !in_app_iff in Hin. destruct Hin as [Hin|[Hin|Hin]].
      * exfalso. destruct (checkPackageManagers_spec files) as [(_ & d' & E)|(_ & E)];
          rewrite E in Epm; injection Epm as <- <-; [|destruct Hin].
        destruct Hin as [Hin|[]]. apply (f_equal rule) in Hin. discriminate Hin.
      * destruct (roleIssues_In _ _ _ _ Hr _ Hin) as (r' & d' & _ & Hc & E).
        apply scriptConflictIssue_inj in E. now subst.
      * exfalso. apply in_map_iff in Hin. destruct Hin as (fp & E & _).
        apply (f_equal rule) in E. discriminate E.
    + intros Hc.
      assert (Hrole : In role (setOf (flat_map (fun f : jsstring * roleMap =>
                                                  List.map fst (snd f)) (rolesOf files)))).
      { apply allRoles_In. destruct Hc as (_ & f & g & s & s' & Hf & _ & Hs & _ & Hrl & _).
        exists f. split; [assumption|]. apply mentionsRole_spec. eauto. }
      destruct (roleIssues_complete _ _ _ _ Hr role Hrole Hc) as (d & Hd).
      exists d. rewrite !in_app_iff. auto.
Qed.

(** X19.  With fewer than two files [checkCrossConsistency] checks nothing.
    Otherwise its path-asymmetry issues are those of the first five pairs of a
    file and a path it mentions that has at least three segments and is
    covered by no path of another file, in the order of the files.  The files
    counted as passed by this check are the ones before the first file with
    such a path: once one is found, no later file counts. *)
Theorem path_asymmetry (files : list FileContext) :
  let r := checkCrossConsistency files in
  (List.length files < 2 -> r = emptyResult "cross-consistency")
  /\ (2 <= List.length files ->
      filter (hasRule "cross-path-asymmetry") (issues r)
      = List.map (pairIssue files) (firstn 5 (asymmetricPairs files))
      /\ exists earlier,
           earlier <= 5
           /\ passed r = earlier + List.length (leadingSymmetric files files)).
Proof.
  cbv zeta. split; [apply checkCrossConsistency_short|]. intros Hlen.
  destruct (checkCrossConsistency_shape files Hlen)
    as (pmIssues & pmPassed & extra & k & Epm & Hr & -> & -> & _).
  split.
  - rewrite !filter_app, pairIssues_all.
    rewrite (roleIssues_other _ _ _ _ "cross-path-asymmetry" eq_refl
               (le_S _ _ (le_S _ _ (le_n _))) Hr).
    destruct (checkPackageManagers_spec files) as [(_ & d' & E)|(_ & E)];
      rewrite E in Epm; injection Epm as <- <-; reflexivity.
  - exists (pmPassed + k). split; [|reflexivity].
    pose proof (roleIssues_bound _ _ _ _ Hr) as Hb.
    pose proof (allRoles_length files) as Ha.
    destruct (checkPackageManagers_spec files) as [(_ & d' & E)|(_ & E)];
      rewrite E in Epm; injection Epm as <- <-; lia.
Qed.

(** X20.  The failed count of [checkCrossConsistency] is
    the number of its issues, which is at most ten: one for the package
    managers, four for the script roles, five for the paths.  Its passed count
    is at most five plus the number of files, and none of its issues carries a
    line number. *)
Theorem checkCrossConsistency_bounds (files : list FileContext) :
  let r := checkCrossConsistency files in
  failed r = List.length (issues r)
  /\ List.length (issues r) <= 10
  /\ passed r <= 5 + List.length files
  /\ Forall (fun i => line i = None) (issues r).
Proof.
  cbv zeta. destruct (Nat.lt_ge_cases (List.length files) 2) as [Hlen|Hlen].
  - rewrite (checkCrossConsistency_short files Hlen). cbn. repeat split; try lia. constructor.
  - destruct (checkCrossConsistency_shape files Hlen)
      as (pmIssues & pmPassed & extra & k & Epm & Hr & Hi & Hp & Hf).
    rewrite Hf, Hp, Hi. clear Hf Hp Hi.
    pose proof (roleIssues_bound _ _ _ _ Hr) as Hb.
    pose proof (allRoles_length files) as Ha.
    pose proof (leadingSymmetric_length files files) as Hl.
    assert (H5 : List.length (firstn 5 (asymmetricPairs files)) <= 5)
      by (rewrite length_firstn; lia).
    rewrite !length_app, length_map.
    destruct (checkPackageManagers_spec files) as [(_ & d' & E)|(_ & E)];
      rewrite E in Epm; injection Epm as <- <-; cbn [List.length].
    + split; [reflexivity|]. split; [lia|]. split; [lia|].
      constructor; [reflexivity|]. apply Forall_app. split.
      * exact (roleIssues_unlined _ _ _ _ Hr).
      * apply Forall_forall. intros i Hin. apply in_map_iff in Hin.
        now destruct Hin as (fp & <- & _).
    + split; [reflexivity|]. split; [lia|]. split; [lia|].
      cbn [app]. apply Forall_app. split.
      * exact (roleIssues_unlined _ _ _ _ Hr).
      * apply Forall_forall. intros i Hin. apply in_map_iff in Hin.
        now destruct Hin as (fp & <- & _).
Qed.

End CrossProps.

(* ================================================================== *)
(** * Further facts about the linter *)
(* ================================================================== *)

Module LinterProps.
Import ParserFacts CheckerFacts FixFacts LinterFacts CheckerProps CrossProps.
Import JSString JSRegExp JSNumber Types Reporter Parser Checkers Fix Linter Cross.
Import CheckerNotions LinterNotions.
Local Open Scope list_scope.




Section Facts.

Variable toLowerCase : jsstring -> jsstring.

Variable path_join : jsstring -> jsstring -> jsstring.

Variable path_resolve : jsstring -> jsstring -> jsstring.

Variable path_absolute : jsstring -> jsstring.

Variable path_relative : jsstring -> jsstring -> jsstring.

Variable existsSync : jsstring -> bool.

Variable readJson : jsstring -> option PackageJson.

Variable readFileSync : jsstring -> jsstring.

Variable loadConfig : jsstring -> LintConfig.

Variable now : jsstring.

Local Abbreviation lint :=
  (lint toLowerCase path_join path_resolve path_relative existsSync readJson readFileSync
     loadConfig now).

Local Abbreviation lintFile :=
  (lintFile toLowerCase path_join path_resolve path_relative existsSync readJson readFileSync
     loadConfig now).

Local Abbreviation lintEach :=
  (lintEach toLowerCase path_join path_resolve path_relative existsSync readJson readFileSync
     loadConfig now).

Local Abbreviation runCheckers :=
  (runCheckers toLowerCase path_join path_resolve existsSync readJson).

Local Abbreviation foundPaths := (foundPaths toLowerCase path_join path_absolute existsSync).

Local Abbreviation foundStep := (foundStep toLowerCase path_absolute existsSync).

Local Abbreviation fileContextsOf := (fileContextsOf path_relative readFileSync).

Local Abbreviation lintAll :=
  (lintAll toLowerCase path_join path_resolve path_absolute path_relative existsSync readJson
     readFileSync loadConfig now).

Local Abbreviation key := (fileKey toLowerCase path_absolute).


Lemma lintFile_results st filePath repoRoot :
  results (fst (lintFile st filePath repoRoot))
  = runCheckers (fst (parseAgentsMd st (readFileSync filePath))) repoRoot (loadConfig repoRoot).
Proof.
  unfold Linter.lintFile. now destruct (parseAgentsMd st (readFileSync filePath)).
Qed.


Lemma parseAgentsMd_lines st content :
  lines (fst (parseAgentsMd st content)) = split NL content.
Proof. unfold parseAgentsMd. now destruct (extractFrameworks st content). Qed.

Lemma located_buildFixAction lns i n :
  located lns i -> line i = Some n -> buildFixAction i lns = Some (RemoveLine n).
Proof.
  unfold located, buildFixAction. intros H E. rewrite E in *. destruct H as [[H1 H2] _].
  apply Nat.leb_le in H1, H2. now rewrite H1, H2.
Qed.

(** X22.  Every issue that [lint] reports with a line number
    names a line of the file linted (between 1 and the number of lines), and
    its context, if any, is that line trimmed; the fix mode then offers to
    remove exactly that line.  An issue without a line number has no context,
    and the fix mode offers a section template for its rule, or nothing. *)
Theorem reported_lines_removable (st : FrameworkState) (filePath repoRoot : jsstring) :
  let r := fst (lintFile st filePath repoRoot) in
  let fileLines := split NL (readFileSync filePath) in
  Forall (fun result =>
    Forall (fun issue =>
      match line issue with
      | Some n =>
          1 <= n <= List.length fileLines
          /\ buildFixAction issue fileLines = Some (RemoveLine n)
          /\ (forall c, context issue = Some c ->
                        exists l, nth_error fileLines (n - 1) = Some l /\ c = trim l)
      | None =>
          context issue = None
          /\ buildFixAction issue fileLines
             = option_map AddSection (getSectionTemplate (rule issue))
      end) (issues result)) (results r).
Proof.
  cbv zeta. apply Forall_forall. intros result Hr. apply Forall_forall. intros issue Hi.
  rewrite lintFile_results in Hr.
  rewrite <- (parseAgentsMd_lines st (readFileSync filePath)).
  set (parsed := fst (parseAgentsMd st (readFileSync filePath))) in *.
  assert (Hloc : located (lines parsed) issue).
  { destruct (checkers_located toLowerCase path_join path_resolve existsSync readJson
                parsed repoRoot (loadConfig repoRoot)) as (H1 & H2 & H3 & H4 & H5).
    unfold Linter.runCheckers in Hr. cbn [In] in Hr.
    decompose [or] Hr; try contradiction; subst result;
      match goal with H : Forall _ (issues ?c) |- _ =>
        match type of Hi with In _ (issues c) =>
          exact (proj1 (Forall_forall _ _) H _ Hi) end end. }
  destruct (line issue) as [n|] eqn:E.
  - pose proof (located_buildFixAction _ _ _ Hloc E) as Hb.
    unfold located in Hloc. rewrite E in Hloc. destruct Hloc as [Hn Hc]. auto.
  - unfold located in Hloc. rewrite E in Hloc. split; [assumption|].
    unfold buildFixAction. now rewrite E.
Qed.


(* ----- foundPaths ----- *)

Lemma NoDup_snoc {A : Type} (l : list A) (x : A) : NoDup l -> ~ In x l -> NoDup (l ++ [x]).
Proof.
  induction l as [|y l IH]; intros Hnd Hx; cbn [app].
  - constructor; [intros []|constructor].
  - inversion Hnd as [|? ? Hy Hl]; subst. constructor.
    + rewrite in_app_iff. cbn [In]. intros [H|[H|[]]]; [auto|subst; apply Hx; now left].
    + apply IH; [assumption|]. intros H. apply Hx. now right.
Qed.

Lemma fold_foundStep (l : list jsstring) : forall found seen,
  (forall k, In k seen <-> In k (List.map key found)) ->
  NoDup (List.map key found) ->
  (exists extra, fst (fold_left foundStep l (found, seen)) = found ++ extra
                 /\ Forall (fun p => existsSync p = true /\ In p l) extra)
  /\ NoDup (List.map key (fst (fold_left foundStep l (found, seen))))
  /\ (forall p, In p l -> existsSync p = true ->
                In (key p) (List.map key (fst (fold_left foundStep l (found, seen))))).
Proof.
  induction l as [|p l IH]; intros found seen Hseen Hnd; cbn [fold_left].
  - cbn [fst]. split; [exists []; rewrite app_nil_r; split; [reflexivity|constructor]|].
    split; [assumption|intros p []].
  - unfold Linter.foundStep at 2 4 6. destruct (existsSync p) eqn:Ep; cbn [negb].
    + fold (key p). destruct (set_has (key p) seen) eqn:Es.
      * destruct (IH found seen Hseen Hnd) as ((extra & He & Hf) & Hn & Hall).
        split; [|split; [assumption|]].
        -- exists extra. split; [assumption|].
           eapply Forall_impl; [|exact Hf]. cbn. intros a [H1 H2]. auto.
        -- intros q [<-|Hq] Hex; [|auto].
           apply set_has_In, Hseen in Es. rewrite He, map_app, in_app_iff. auto.
      * assert (Hnew : ~ In (key p) (List.map key found)).
        { intros H. apply Hseen, set_has_In in H. congruence. }
        destruct (IH (found ++ [p]) (set_add seen (key p))) as ((extra & He & Hf) & Hn & Hall).
        { intros k. rewrite set_add_In, map_app, in_app_iff, Hseen. cbn [List.map In].
          split; intros H; decompose [or] H; auto; contradiction. }
        { rewrite map_app. cbn [List.map]. now apply NoDup_snoc. }
        split; [|split; [assumption|]].
        -- exists (p :: extra). rewrite He, <- app_assoc. split; [reflexivity|].
           constructor; [split; [assumption|now left]|].
           eapply Forall_impl; [|exact Hf]. cbn. intros a [H1 H2]. auto.
        -- intros q [<-|Hq] Hex; [|auto].
           rewrite He, !map_app, !in_app_iff. cbn [List.map In]. auto.
    + destruct (IH found seen Hseen Hnd) as ((extra & He & Hf) & Hn & Hall).
      split; [|split; [assumption|]].
      * exists extra. split; [assumption|].
        eapply Forall_impl; [|exact Hf]. cbn. intros a [H1 H2]. auto.
      * intros q [<-|Hq] Hex; [congruence|auto].
Qed.

Lemma foundPaths_shape (repoRoot : jsstring) :
  let candidates := List.map (path_join repoRoot) AGENT_FILES in
  NoDup (List.map key (foundPaths repoRoot))
  /\ Forall (fun p => existsSync p = true /\ In p candidates) (foundPaths repoRoot)
  /\ (forall p, In p candidates -> existsSync p = true ->
                In (key p) (List.map key (foundPaths repoRoot))).
Proof.
  cbv zeta. unfold Linter.foundPaths.
  destruct (fold_foundStep (List.map (path_join repoRoot) AGENT_FILES) [] [])
    as ((extra & He & Hf) & Hn & Hall); [cbn; tauto|constructor|].
  split; [assumption|]. split; [|assumption]. rewrite He. exact Hf.
Qed.

(** X24.  The files [lintAll] finds are existing candidates of
    [AGENT_FILES], at most ten, no two with the same resolved path in lower
    case; every existing candidate has its resolved lower-case path among
    them; and none is found exactly when no candidate exists. *)
Theorem foundPaths_spec (repoRoot : jsstring) :
  let candidates := List.map (path_join repoRoot) AGENT_FILES in
  let found := foundPaths repoRoot in
  NoDup (List.map key found)
  /\ Forall (fun p => existsSync p = true /\ In p candidates) found
  /\ (forall p, In p candidates -> existsSync p = true -> In (key p) (List.map key found))
  /\ List.length found <= 10
  /\ (found = [] <-> forall c, In c AGENT_FILES -> existsSync (path_join repoRoot c) = false).
Proof.
  cbv zeta. destruct (foundPaths_shape repoRoot) as (H1 & H2 & H3). cbv zeta in *.
  split; [assumption|]. split; [assumption|]. split; [assumption|].
  split; [apply foundPaths_length|]. split.
  - intros E c Hc. destruct (existsSync (path_join repoRoot c)) eqn:Ex; [|reflexivity].
    exfalso. rewrite E in H3. apply (H3 (path_join repoRoot c)); [|assumption].
    apply in_map_iff. eauto.
  - intros H. destruct (foundPaths repoRoot) as [|p l]; [reflexivity|].
    inversion H2 as [|? ? [Hex Hin] _]; subst. apply in_map_iff in Hin.
    destruct Hin as (c & <- & Hc). rewrite (H c Hc) in Hex. discriminate.
Qed.

(* ----- lintAll ----- *)





End Facts.



End LinterProps.

(* ================================================================== *)
(** * Further facts about the report *)
(* ================================================================== *)

Module ReporterProps.
Import Binary64Facts NumberFacts ReporterFacts ParserFacts LinterFacts.
Import JSString JSNumber Types Reporter Linter ReportText.
Local Open Scope Z_scope.

Lemma barsExact : forallb barExact (upTo 100) = true.
Proof. vm_compute. reflexivity. Qed.

Lemma scoreBar_percentage (z : Z) :
  0 <= z <= 100 ->
  scoreBar (IInt z) = Some (barOf (scoreColor (IInt z)) ((z + 2) / 5))
  /\ 0 <= (z + 2) / 5 <= 20.
Proof.
  intros Hz. split.
  - pose proof (forallb_upTo barExact 100 barsExact z) as H.
    assert (Hb : barExact z = true). { apply H. change (0 <= z <= 100). exact Hz. }
    unfold barExact in Hb. destruct (scoreBar (IInt z)) as [bar|]; [|discriminate].
    apply str_eqb_eq in Hb. now subst.
  - split; [apply Z.div_pos; lia|].
    assert ((z + 2) / 5 < 21) by (apply Z.div_lt_upper_bound; lia). lia.
Qed.

Lemma colour_grade (s : integral) :
  (scoreColor s = GREEN <-> scoreGrade s = A \/ scoreGrade s = B)
  /\ (scoreColor s = YELLOW <-> scoreGrade s = C \/ scoreGrade s = D)
  /\ (scoreColor s = RED <-> scoreGrade s = F).
Proof.
  unfold scoreColor, scoreGrade.
  assert (H98 : geb s 90 = true -> geb s 80 = true)
    by (destruct s as [|[]|z]; cbn; try congruence; rewrite !Z.leb_le; lia).
  assert (H87 : geb s 80 = true -> geb s 70 = true)
    by (destruct s as [|[]|z]; cbn; try congruence; rewrite !Z.leb_le; lia).
  assert (H75 : geb s 70 = true -> geb s 50 = true)
    by (destruct s as [|[]|z]; cbn; try congruence; rewrite !Z.leb_le; lia).
  destruct (geb s 90), (geb s 80), (geb s 70), (geb s 50);
    try (specialize (H98 eq_refl)); try (specialize (H87 eq_refl));
    try (specialize (H75 eq_refl)); try discriminate;
    repeat split; intros H; try discriminate H; auto;
    try (destruct H as [H|H]; discriminate H).
Qed.

(** X27.  For results whose counters are below [2^53], the score is an
    integer [z] from 0 to 100, and [scoreBar] renders it without a
    [RangeError]: 20 cells, of which [z / 5] rounded to the nearest integer
    are full.  The colour of the
    score is green exactly for the grades A and B, yellow for C and D, and red
    for F. *)
Theorem report_score_bar (results : list CheckResult) :
  safeIntegers results ->
  let s := computeScore results in
  (exists z, s = IInt z /\ 0 <= z <= 100
             /\ scoreBar s = Some (barOf (scoreColor s) ((z + 2) / 5))
             /\ 0 <= (z + 2) / 5 <= 20)
  /\ (scoreColor s = GREEN <-> scoreGrade s = A \/ scoreGrade s = B)
  /\ (scoreColor s = YELLOW <-> scoreGrade s = C \/ scoreGrade s = D)
  /\ (scoreColor s = RED <-> scoreGrade s = F).
Proof.
  intros Hsafe. cbv zeta. split; [|apply colour_grade].
  destruct (computeScore_percentage results Hsafe) as (z & -> & Hz).
  exists z. split; [reflexivity|]. split; [assumption|]. now apply scoreBar_percentage.
Qed.

(** The batch of 23 passed checks out of 40 scores 23: a red bar with 5
    full cells. *)
Lemma report_score_bar_witness :
  safeIntegers batch23of40
  /\ scoreBar (computeScore batch23of40) = Some (barOf RED 5).
Proof.
  assert (Hs : safeIntegers batch23of40) by (split; vm_compute; reflexivity).
  split; [exact Hs|].
  destruct (report_score_bar batch23of40 Hs) as ((z & Ez & _ & Hbar & _) & _).
  rewrite Hbar. assert (E : computeScore batch23of40 = IInt 23) by (vm_compute; reflexivity).
  rewrite E in Ez. injection Ez as <-. rewrite E. reflexivity.
Defined.



End ReporterProps.
